(** * query-manager: join engine, result tracking and result store

    A shallow embedding of the three core services of the repository:

    - [DataJoin]   the data join service (exact and fuzzy joins, row merge,
                   best-strategy selection);
    - [Tracking]   the result-tracking query service (query and row
                   signatures, index of previous results, row marking);
    - [ResultStore] the PostgreSQL-backed result store (tiered storage of
                   row sets, memory cache, fetch by id);

    and of what surrounds them:

    - [JoinConfig], [JoinStatistics], [MultiJoin]
                   the normalisation of the join configuration, the
                   statistics over join results and the join of three or
                   more queries;
    - [TrackingHistory]
                   the execution history and the tracking statistics;
    - [StoreMaintenance]
                   removal, expiry and combined results of the store.

    JavaScript values are modelled by the inductive [value] of module [JS].
    Modelling conventions, fixed once for the whole development:

    - numbers are [NaN] or an exact rational (IEEE rounding and the
      infinities are not modelled); strings are sequences of 8-bit code
      units;
    - objects, arrays and dates carry the address of the heap cell they live
      in, and [===] on them compares addresses; the services write only to
      rows they have just built (the one write to a row that a transform
      returned, [_fuzzyScore], is made on the returned value), so a cell is
      represented by its content;
    - an object is the list of its own enumerable properties in enumeration
      order, a new property going last; the place of integer-like names in
      front of that order and the properties inherited from
      [Object.prototype] are not modelled;
    - caller-supplied closures (comparators, transforms, signature
      extractors) are pure functions of their arguments. *)

From Stdlib Require Import Ascii String ZArith QArith Qround DecimalString.
From stdpp Require Import gmap strings list fin_maps sorting.

Open Scope Z_scope.

(* ================================================================== *)
(** * JavaScript values and the built-ins the services call            *)
(* ================================================================== *)

Module JS.

(** ** Strings *)

Definition ascii_eqb (a b : ascii) : bool := bool_decide (a = b).

Definition dquote : string := String (ascii_of_nat 34) EmptyString.

(** [s.startsWith(p)] *)
Fixpoint startsWith (p s : string) : bool :=
  match p, s with
  | EmptyString, _ => true
  | String a p', String b s' => ascii_eqb a b && startsWith p' s'
  | String _ _, EmptyString => false
  end.

(** [s.includes(c)] for a one-character needle. *)
Fixpoint includes (c : ascii) (s : string) : bool :=
  match s with
  | EmptyString => false
  | String a s' => ascii_eqb a c || includes c s'
  end.

(** [s.indexOf(c)] for a one-character needle; [-1] when absent. *)
Fixpoint indexOf_from (c : ascii) (s : string) (i : Z) : Z :=
  match s with
  | EmptyString => -1
  | String a s' => if ascii_eqb a c then i else indexOf_from c s' (i + 1)
  end.

Definition indexOf (c : ascii) (s : string) : Z := indexOf_from c s 0.

Definition strlen (s : string) : Z := Z.of_nat (String.length s).

(** [s.substring(a, b)]: both ends are clamped to [0, length] and swapped
    when out of order. *)
Definition substring (a b : Z) (s : string) : string :=
  let clamp x := Z.max 0 (Z.min x (strlen s)) in
  let lo := Z.min (clamp a) (clamp b) in
  let hi := Z.max (clamp a) (clamp b) in
  String.substring (Z.to_nat lo) (Z.to_nat (hi - lo)) s.

(** [s.split(c)] for a one-character separator. *)
Fixpoint split_go (c : ascii) (cur : string) (s : string) : list string :=
  match s with
  | EmptyString => [String.rev cur]
  | String a s' =>
      if ascii_eqb a c then String.rev cur :: split_go c EmptyString s'
      else split_go c (String a cur) s'
  end.

Definition split (c : ascii) (s : string) : list string :=
  split_go c EmptyString s.

(** [parts.join(sep)] *)
Fixpoint join (sep : string) (parts : list string) : string :=
  match parts with
  | [] => EmptyString
  | [p] => p
  | p :: ps => p +:+ sep +:+ join sep ps
  end.

(** White space as [\s] and [trim] see it (code units below 256). *)
Definition is_space (a : ascii) : bool :=
  let n := nat_of_ascii a in
  ((9 <=? n) && (n <=? 13))%nat || (n =? 32)%nat || (n =? 160)%nat.

(** [toLowerCase] on one code unit (Latin-1 range). *)
Definition lower_ascii (a : ascii) : ascii :=
  let n := nat_of_ascii a in
  if ((65 <=? n) && (n <=? 90))%nat then ascii_of_nat (n + 32)
  else if ((192 <=? n) && (n <=? 222) && negb (n =? 215))%nat
       then ascii_of_nat (n + 32)
  else a.

Fixpoint toLowerCase (s : string) : string :=
  match s with
  | EmptyString => EmptyString
  | String a s' => String (lower_ascii a) (toLowerCase s')
  end.

Fixpoint trimStart (s : string) : string :=
  match s with
  | String a s' => if is_space a then trimStart s' else s
  | EmptyString => EmptyString
  end.

Fixpoint trimEnd (s : string) : string :=
  match s with
  | EmptyString => EmptyString
  | String a s' =>
      let t := trimEnd s' in
      if is_space a && bool_decide (t = EmptyString) then EmptyString
      else String a t
  end.

Definition trim (s : string) : string := trimEnd (trimStart s).

(** [s.replace(/\s+/g, ' ')]: every maximal run of white space becomes one
    space.  [in_run] tells whether the previous code unit was white space. *)
Fixpoint collapse_go (in_run : bool) (s : string) : string :=
  match s with
  | EmptyString => EmptyString
  | String a s' =>
      if is_space a
      then (if in_run then collapse_go true s'
            else String " "%char (collapse_go true s'))
      else String a (collapse_go false s')
  end.

Definition collapse_whitespace (s : string) : string := collapse_go false s.

(** ** Numbers *)

(** A number is [NaN] or an exact rational; IEEE rounding is not modelled. *)
Inductive number : Type :=
| NaN
| Num (q : Q).

Definition Int (z : Z) : number := Num (inject_Z z).

Definition number_eqb (a b : number) : bool :=
  match a, b with
  | Num x, Num y => Qeq_bool x y
  | _, _ => false
  end.

Definition string_of_Z (z : Z) : string := NilZero.string_of_int (Z.to_int z).

(** What the host decides when it prints a value: the local-time rendering of
    a date, its ISO rendering, and the shortest decimal of a number that is
    not an integer. *)
Record host : Type := {
  dateToString : Z -> string;
  toISOString : Z -> string;
  fracToString : Q -> string
}.

Definition number_toString (h : host) (n : number) : string :=
  match n with
  | NaN => "NaN"
  | Num q =>
      let r := Qred q in
      if (Qden r =? 1)%positive then string_of_Z (Qnum r) else fracToString h r
  end.

Definition digit_of (a : ascii) : option Z :=
  let n := nat_of_ascii a in
  if ((48 <=? n) && (n <=? 57))%nat then Some (Z.of_nat (n - 48)) else None.

Fixpoint digits_go (acc : Z) (s : string) : Z :=
  match s with
  | EmptyString => acc
  | String a s' =>
      match digit_of a with
      | Some d => digits_go (10 * acc + d) s'
      | None => acc
      end
  end.

Definition starts_with_digit (s : string) : bool :=
  match s with
  | String a _ => bool_decide (is_Some (digit_of a))
  | EmptyString => false
  end.

(** [parseInt(s, 10)]: leading white space, an optional sign, then the
    longest run of decimal digits; [NaN] without a digit. *)
Definition parseInt (s : string) : number :=
  let s1 := trimStart s in
  let '(neg, s2) :=
    match s1 with
    | String "-"%char r => (true, r)
    | String "+"%char r => (false, r)
    | _ => (false, s1)
    end in
  if starts_with_digit s2
  then Int (if neg then - digits_go 0 s2 else digits_go 0 s2)
  else NaN.

(** A canonical array index: the decimal spelling of a natural number. *)
Definition array_index (k : string) : option nat :=
  if starts_with_digit k && bool_decide (string_of_Z (digits_go 0 k) = k)
  then Some (Z.to_nat (digits_go 0 k)) else None.

(** ** Values *)

Definition addr := nat.

#[warnings="-register-all"]
Inductive value : Type :=
| VUndefined
| VNull
| VBool (b : bool)
| VNumber (n : number)
| VString (s : string)
| VDate (a : addr) (ms : Z)
| VArray (a : addr) (elems : list value)
| VObject (a : addr) (props : list (string * value)).

Arguments VDate a%_nat ms%_Z.
Arguments VArray a%_nat elems%_list.
Arguments VObject a%_nat props%_list.

(** [!!v] *)
Definition truthy (v : value) : bool :=
  match v with
  | VUndefined | VNull | VBool false | VNumber NaN => false
  | VNumber (Num q) => negb (Qeq_bool q 0)
  | VString s => negb (bool_decide (s = EmptyString))
  | _ => true
  end.

(** [v === null || v === undefined] *)
Definition nullish (v : value) : bool :=
  match v with
  | VUndefined | VNull => true
  | _ => false
  end.

Definition is_null (v : value) : bool :=
  match v with
  | VNull => true
  | _ => false
  end.

(** [a === b]: primitives by value (NaN differs from itself), heap cells by
    address. *)
Definition strict_eq (a b : value) : bool :=
  match a, b with
  | VUndefined, VUndefined => true
  | VNull, VNull => true
  | VBool x, VBool y => bool_decide (x = y)
  | VNumber x, VNumber y => number_eqb x y
  | VString x, VString y => bool_decide (x = y)
  | VDate x _, VDate y _ => bool_decide (x = y)
  | VArray x _, VArray y _ => bool_decide (x = y)
  | VObject x _, VObject y _ => bool_decide (x = y)
  | _, _ => false
  end.

(** [typeof v === 'object'] (true of [null]). *)
Definition typeof_object (v : value) : bool :=
  match v with
  | VNull | VDate _ _ | VArray _ _ | VObject _ _ => true
  | _ => false
  end.

Definition isArray (v : value) : bool :=
  match v with
  | VArray _ _ => true
  | _ => false
  end.

Definition isDate (v : value) : bool :=
  match v with
  | VDate _ _ => true
  | _ => false
  end.

(** ** Property lists *)

Abbreviation props := (list (string * value)).

(** The value stored under the first occurrence of a name. *)
Fixpoint assoc {B} (k : string) (l : list (string * B)) : option B :=
  match l with
  | [] => None
  | (k', v) :: l' => if bool_decide (k' = k) then Some v else assoc k l'
  end.

Abbreviation lookup_prop := (@assoc value).

(** [o[k] = v] on an object: an existing property keeps its place, a new one
    goes last. *)
Fixpoint set_prop (k : string) (v : value) (ps : props) : props :=
  match ps with
  | [] => [(k, v)]
  | (k', v') :: ps' =>
      if bool_decide (k' = k) then (k, v) :: ps' else (k', v') :: set_prop k v ps'
  end.

Fixpoint indexed_from {A} (i : nat) (l : list A) : list (string * A) :=
  match l with
  | [] => []
  | x :: l' => (string_of_Z (Z.of_nat i), x) :: indexed_from (S i) l'
  end.

Fixpoint chars (s : string) : list value :=
  match s with
  | EmptyString => []
  | String a s' => VString (String a EmptyString) :: chars s'
  end.

(** The own enumerable string-keyed properties, as [Object.keys],
    [Object.entries] and object spread enumerate them. *)
Definition own_props (v : value) : props :=
  match v with
  | VObject _ ps => ps
  | VArray _ elems => indexed_from 0 elems
  | VString s => indexed_from 0 (chars s)
  | _ => []
  end.

Definition keys (v : value) : list string := (own_props v).*1.

(** [v[k]]; [None] stands for the [TypeError] of reading a property of
    [null] or [undefined]. *)
Definition Get (v : value) (k : string) : option value :=
  let indexed (elems : list value) :=
    match array_index k with
    | Some i => default VUndefined (elems !! i)
    | None =>
        if bool_decide (k = "length")
        then VNumber (Int (Z.of_nat (length elems))) else VUndefined
    end in
  match v with
  | VUndefined | VNull => None
  | VObject _ ps => Some (default VUndefined (lookup_prop k ps))
  | VArray _ elems => Some (indexed elems)
  | VString s => Some (indexed (chars s))
  | _ => Some VUndefined
  end.

(** [v.hasOwnProperty(k)] for a non-null object [v]. *)
Definition hasOwnProperty (v : value) (k : string) : bool :=
  match v with
  | VObject _ ps => bool_decide (is_Some (lookup_prop k ps))
  | VArray _ elems =>
      match array_index k with
      | Some i => bool_decide (i < length elems)%nat
      | None => bool_decide (k = "length")
      end
  | _ => false
  end.

(** ** [String(v)] *)

Fixpoint ToString (h : host) (v : value) : string :=
  match v with
  | VUndefined => "undefined"
  | VNull => "null"
  | VBool b => if b then "true" else "false"
  | VNumber n => number_toString h n
  | VString s => s
  | VDate _ ms => dateToString h ms
  | VArray _ elems =>
      join "," (map (fun e => if nullish e then EmptyString else ToString h e) elems)
  | VObject _ _ => "[object Object]"
  end.

(** ** [JSON.stringify] *)

Definition hex_digit (n : nat) : ascii :=
  ascii_of_nat (if (n <? 10)%nat then 48 + n else 87 + n).

Definition quote_char (a : ascii) : string :=
  let n := nat_of_ascii a in
  if (n =? 34)%nat then "\" +:+ dquote
  else if (n =? 92)%nat then "\\"
  else if (n =? 8)%nat then "\b"
  else if (n =? 9)%nat then "\t"
  else if (n =? 10)%nat then "\n"
  else if (n =? 12)%nat then "\f"
  else if (n =? 13)%nat then "\r"
  else if (n <? 32)%nat
       then "\u00" +:+ String (hex_digit (n / 16)) (String (hex_digit (n mod 16)) EmptyString)
  else String a EmptyString.

Fixpoint quote_body (s : string) : string :=
  match s with
  | EmptyString => EmptyString
  | String a s' => quote_char a +:+ quote_body s'
  end.

Definition QuoteJSONString (s : string) : string :=
  dquote +:+ quote_body s +:+ dquote.

(** The property list built from an array replacer keeps the first
    occurrence of each name. *)
Fixpoint dedupe (seen ks : list string) : list string :=
  match ks with
  | [] => []
  | k :: ks' =>
      if bool_decide (k ∈ seen) then dedupe seen ks'
      else k :: dedupe (k :: seen) ks'
  end.

(** [SerializeJSONProperty] with the property list [K] of an array replacer
    ([None] without one).  [None] as a result is [undefined]: the property is
    left out of an object and printed as [null] in an array.  The members of
    an object are the names of [K] in the order of [K], each read from the
    object. *)
Fixpoint SerializeJSONProperty (h : host) (K : option (list string))
  (v : value) : option string :=
  match v with
  | VUndefined => None
  | VNull => Some "null"
  | VBool b => Some (if b then "true" else "false")
  | VNumber NaN => Some "null"
  | VNumber n => Some (number_toString h n)
  | VString s => Some (QuoteJSONString s)
  | VDate _ ms => Some (QuoteJSONString (toISOString h ms))
  | VArray _ elems =>
      let items :=
        map (fun e => default "null" (SerializeJSONProperty h K e)) elems in
      Some ("[" +:+ join "," items +:+ "]")
  | VObject _ ps =>
      let printed :=
        map (fun kv => (kv.1, SerializeJSONProperty h K kv.2)) ps in
      let member k :=
        match assoc k printed with
        | Some (Some str) => Some (QuoteJSONString k +:+ ":" +:+ str)
        | _ => None
        end in
      let names := default (ps.*1) K in
      Some ("{" +:+ join "," (omap member names) +:+ "}")
  end.

(** [JSON.stringify(v)] and [JSON.stringify(v, replacerArray)]. *)
Definition JSON_stringify (h : host) (v : value)
  (replacer : option (list string)) : option string :=
  SerializeJSONProperty h (dedupe [] <$> replacer) v.

(** ** SHA-256, as [crypto.createHash('sha256')] computes it *)

Module SHA256.

Definition w32 (x : Z) : Z := Z.land x 4294967295.

Definition rotr (n x : Z) : Z :=
  w32 (Z.lor (Z.shiftr x n) (Z.shiftl x (32 - n))).

Definition choose (x y z : Z) : Z :=
  Z.lxor (Z.land x y) (Z.land (Z.lxor x 4294967295) z).

Definition majority (x y z : Z) : Z :=
  Z.lxor (Z.lxor (Z.land x y) (Z.land x z)) (Z.land y z).

Definition big_sigma0 (x : Z) : Z :=
  Z.lxor (Z.lxor (rotr 2 x) (rotr 13 x)) (rotr 22 x).

Definition big_sigma1 (x : Z) : Z :=
  Z.lxor (Z.lxor (rotr 6 x) (rotr 11 x)) (rotr 25 x).

Definition small_sigma0 (x : Z) : Z :=
  Z.lxor (Z.lxor (rotr 7 x) (rotr 18 x)) (Z.shiftr x 3).

Definition small_sigma1 (x : Z) : Z :=
  Z.lxor (Z.lxor (rotr 17 x) (rotr 19 x)) (Z.shiftr x 10).

Definition round_constants : list Z :=
  [
   1116352408; 1899447441; 3049323471; 3921009573; 961987163;
   1508970993; 2453635748; 2870763221; 3624381080; 310598401;
   607225278; 1426881987; 1925078388; 2162078206; 2614888103;
   3248222580; 3835390401; 4022224774; 264347078; 604807628;
   770255983; 1249150122; 1555081692; 1996064986; 2554220882;
   2821834349; 2952996808; 3210313671; 3336571891; 3584528711;
   113926993; 338241895; 666307205; 773529912; 1294757372;
   1396182291; 1695183700; 1986661051; 2177026350; 2456956037;
   2730485921; 2820302411; 3259730800; 3345764771; 3516065817;
   3600352804; 4094571909; 275423344; 430227734; 506948616;
   659060556; 883997877; 958139571; 1322822218; 1537002063;
   1747873779; 1955562222; 2024104815; 2227730452; 2361852424;
   2428436474; 2756734187; 3204031479; 3329325298 ].

Definition initial_hash : list Z :=
  [
   1779033703; 3144134277; 1013904242; 2773480762;
   1359893119; 2600822924; 528734635; 1541459225 ].

(** The message, the bit 1, zeros, and the length in bits on 64 bits: a
    multiple of 64 bytes in all. *)
Definition pad (msg : list Z) : list Z :=
  let len := Z.of_nat (length msg) in
  let bits := 8 * len in
  msg ++ [128] ++ replicate (Z.to_nat ((55 - len) mod 64)) 0
      ++ map (fun i => Z.land (Z.shiftr bits (8 * (7 - Z.of_nat i))) 255)
           (seq 0 8).

Fixpoint words (bytes : list Z) : list Z :=
  match bytes with
  | a :: b :: c :: d :: rest =>
      (Z.shiftl a 24 + Z.shiftl b 16 + Z.shiftl c 8 + d) :: words rest
  | _ => []
  end.

Fixpoint blocks (fuel : nat) (ws : list Z) : list (list Z) :=
  match fuel, ws with
  | S fuel', _ :: _ => take 16 ws :: blocks fuel' (drop 16 ws)
  | _, _ => []
  end.

(** The message schedule; [w] holds the words found so far, latest first. *)
Fixpoint schedule (n : nat) (w : list Z) : list Z :=
  match n with
  | O => rev w
  | S n' =>
      let next :=
        w32 (small_sigma1 (nth 1 w 0) + nth 6 w 0
             + small_sigma0 (nth 14 w 0) + nth 15 w 0) in
      schedule n' (next :: w)
  end.

Definition round (s : list Z) (kw : Z * Z) : list Z :=
  match s with
  | [a; b; c; d; e; f; g; h] =>
      let t1 := h + big_sigma1 e + choose e f g + kw.1 + kw.2 in
      let t2 := big_sigma0 a + majority a b c in
      [w32 (t1 + t2); a; b; c; w32 (d + t1); e; f; g]
  | _ => s
  end.

Definition compress (hash block : list Z) : list Z :=
  let w := schedule 48 (rev block) in
  let s := foldl round hash (zip round_constants w) in
  map (fun p => w32 (p.1 + p.2)) (zip hash s).

Definition digest (msg : list Z) : list Z :=
  let ws := words (pad msg) in
  foldl compress initial_hash (blocks (length ws) ws).

Fixpoint hex_word (digits : nat) (x : Z) (acc : string) : string :=
  match digits with
  | O => acc
  | S d =>
      hex_word d (Z.shiftr x 4)
        (String (hex_digit (Z.to_nat (Z.land x 15))) acc)
  end.

Definition hex (ws : list Z) : string :=
  foldr (fun w acc => hex_word 8 w acc) EmptyString ws.

(** The UTF-8 bytes of a string of code units below 256. *)
Fixpoint utf8 (s : string) : list Z :=
  match s with
  | EmptyString => []
  | String a s' =>
      let c := Z.of_nat (nat_of_ascii a) in
      if c <? 128 then c :: utf8 s'
      else Z.lor 192 (Z.shiftr c 6) :: Z.lor 128 (Z.land c 63) :: utf8 s'
  end.

(** [crypto.createHash('sha256').update(s).digest('hex')] *)
Definition sha256_hex (s : string) : string := hex (digest (utf8 s)).

End SHA256.

End JS.
Import JS.

(* ================================================================== *)
(** * The data join service                                            *)
(* ================================================================== *)

Module DataJoin.

(** A join condition: two key paths and an optional comparator. *)
Record condition : Type := {
  leftKey : string;
  rightKey : string;
  comparator : option (value -> value -> value)
}.

Inductive side : Type := SideLeft | SideRight.

Inductive join_type : Type := JoinInner | JoinLeft | JoinRight | JoinFull.

Definition keeps_left (t : join_type) : bool :=
  match t with JoinLeft | JoinFull => true | _ => false end.

Definition keeps_right (t : join_type) : bool :=
  match t with JoinRight | JoinFull => true | _ => false end.

(** What a caller-supplied function does: it returns a value or throws. *)
Inductive outcome : Type :=
| Returns (v : value)
| Throws.

Definition transform_fn := value -> value -> value -> outcome.

(** ** [_getNestedProperty] *)

(** One step of the [reduce] over the dotted path; [None] is a thrown
    [TypeError]. *)
Definition nested_step (current : value) (key : string) : option value :=
  if includes "["%char key && includes "]"%char key then
    let propName := substring 0 (indexOf "["%char key) key in
    let indexStr :=
      substring (indexOf "["%char key + 1) (indexOf "]"%char key) key in
    p ← Get current propName;
    match p, parseInt indexStr with
    | VArray _ elems, Num q =>
        Some (default VUndefined (Get p (string_of_Z (Qnum q))))
    | _, _ => Some VNull
    end
  else
    if truthy current && typeof_object current then
      match Get current key with
      | Some VUndefined | None => Some VNull
      | Some v => Some v
      end
    else Some VNull.

Fixpoint reduce_path (current : value) (path_keys : list string)
  : option value :=
  match path_keys with
  | [] => Some current
  | key :: rest => next ← nested_step current key; reduce_path next rest
  end.

Definition _getNestedProperty (obj : value) (path : string) : value :=
  if negb (truthy obj) then VNull
  else if bool_decide (path = EmptyString) then VNull
  else if negb (includes "."%char path) then default VUndefined (Get obj path)
  else default VNull (reduce_path obj (split "."%char path)).

(** ** [_createMultiConditionKey] *)

Definition key_part (h : host) (v : value) : string :=
  if nullish v then "NULL" else ToString h v.

Definition _createMultiConditionKey (h : host) (row : value)
  (joinConditions : list condition) (s : side) : string :=
  if negb (truthy row) then "NULL"
  else
    join "::"
      (map (fun c =>
              let keyPath :=
                match s with SideLeft => leftKey c | SideRight => rightKey c end in
              key_part h (_getNestedProperty row keyPath))
           joinConditions).

(** ** [_compareJoinConditions] *)

Definition arrays_equal (xs ys : list value) : bool :=
  bool_decide (length xs = length ys)
  && forallb (fun p => strict_eq p.1 p.2) (zip xs ys).

Definition objects_equal (l r : value) : bool :=
  bool_decide (length (keys l) = length (keys r))
  && forallb
       (fun k =>
          hasOwnProperty r k
          && strict_eq (default VUndefined (Get l k)) (default VUndefined (Get r k)))
       (keys l).

Definition default_equal (leftValue rightValue : value) : bool :=
  if nullish leftValue then nullish rightValue
  else
    match leftValue, rightValue with
    | VDate _ t1, VDate _ t2 => bool_decide (t1 = t2)
    | VArray _ xs, VArray _ ys => arrays_equal xs ys
    | _, _ =>
        if typeof_object leftValue && typeof_object rightValue then
          if negb (truthy leftValue) || negb (truthy rightValue)
          then strict_eq leftValue rightValue
          else objects_equal leftValue rightValue
        else strict_eq leftValue rightValue
    end.

Definition condition_holds (leftRow rightRow : value) (c : condition) : bool :=
  let leftValue := _getNestedProperty leftRow (leftKey c) in
  let rightValue := _getNestedProperty rightRow (rightKey c) in
  match comparator c with
  | Some f => truthy (f leftValue rightValue)
  | None => default_equal leftValue rightValue
  end.

Definition _compareJoinConditions (joinConditions : list condition)
  (leftRow rightRow : value) : bool :=
  if negb (truthy leftRow) || negb (truthy rightRow) then false
  else forallb (condition_holds leftRow rightRow) joinConditions.

(** ** [_mergeRows] *)

(** [{...a, ...b}] *)
Definition spread (a b : props) : props :=
  foldl (fun acc kv => set_prop kv.1 kv.2 acc) a b.

(** The body of the loop over [Object.entries(rightRow)].  The state is the
    property list of [result] and the next free heap address. *)
Definition merge_field (st : props * addr) (kv : string * value)
  : props * addr :=
  let '(result, next) := st in
  let '(key, val) := kv in
  if startsWith "_" key then st
  else
    match lookup_prop key result with
    | Some cur =>
        if negb (strict_eq cur val) then
          match cur, val with
          | VArray _ xs, VArray _ ys =>
              (set_prop key (VArray next (xs ++ ys)) result, S next)
          | _, _ =>
              if typeof_object cur && typeof_object val
                 && negb (strict_eq cur VNull) && negb (strict_eq val VNull)
              then (set_prop key
                      (VObject next (spread (own_props cur) (own_props val)))
                      result, S next)
              else (set_prop ("right_" +:+ key) val result, next)
          end
        else st
    | None => (set_prop key val result, next)
    end.

(** The merged row before any transform; [result] is allocated at [next]. *)
Definition merge_fields (next : addr) (leftRow rightRow : value)
  : value * addr :=
  let copy := if truthy leftRow then own_props leftRow else [] in
  let '(fields, next') :=
    if truthy rightRow
    then foldl merge_field (copy, S next) (own_props rightRow)
    else (copy, S next) in
  (VObject next fields, next').

Definition _mergeRows (next : addr) (leftRow rightRow : value)
  (transform : option transform_fn) : value * addr :=
  let '(result, next') := merge_fields next leftRow rightRow in
  match transform with
  | Some f =>
      match f result leftRow rightRow with
      | Returns transformed =>
          (if truthy transformed then transformed else result, next')
      | Throws => (result, next')
      end
  | None => (result, next')
  end.

(** ** [_performExactJoin] *)

(** Membership in a JavaScript [Set] or [Map] is decided by SameValueZero:
    [===], except that [NaN] equals itself. *)
Definition same_value_zero (a b : value) : bool :=
  match a, b with
  | VNumber NaN, VNumber NaN => true
  | _, _ => strict_eq a b
  end.

Definition set_has (s : list value) (v : value) : bool :=
  existsb (same_value_zero v) s.

Definition set_add (s : list value) (v : value) : list value :=
  if set_has s v then s else s ++ [v].

(** The lookup map from composite key to the right rows that carry it. *)
Definition add_to_lookup (h : host) (joinConditions : list condition)
  (lookupMap : gmap string (list value)) (rightRow : value)
  : gmap string (list value) :=
  let key := _createMultiConditionKey h rightRow joinConditions SideRight in
  <[key := default [] (lookupMap !! key) ++ [rightRow]]> lookupMap.

Definition build_lookup (h : host) (joinConditions : list condition)
  (rightDataset : list value) : gmap string (list value) :=
  foldl (add_to_lookup h joinConditions) ∅ rightDataset.

(** The state of the join loops: the rows joined so far, the right rows
    marked as matched, and the next free heap address. *)
Record join_state : Type := {
  joinedRows : list value;
  matchedRightRows : list value;
  next_addr : addr
}.

Definition push_merged (transform : option transform_fn)
  (leftRow rightRow : value) (st : join_state) : join_state :=
  let '(row, next') := _mergeRows (next_addr st) leftRow rightRow transform in
  {| joinedRows := joinedRows st ++ [row];
     matchedRightRows := matchedRightRows st;
     next_addr := next' |}.

Definition mark_matched (rightRow : value) (st : join_state) : join_state :=
  {| joinedRows := joinedRows st;
     matchedRightRows := set_add (matchedRightRows st) rightRow;
     next_addr := next_addr st |}.

Section ExactJoin.

Variable h : host.
Variable joinConditions : list condition.
Variable joinType : join_type.
Variable transform : option transform_fn.

(** The inner loop over the candidate right rows of one left row. *)
Definition join_candidate (leftRow : value) (st : join_state)
  (rightRow : value) : join_state :=
  if _compareJoinConditions joinConditions leftRow rightRow then
    let st' := push_merged transform leftRow rightRow st in
    if keeps_right joinType then mark_matched rightRow st' else st'
  else st.

(** The body of the loop over the left dataset. *)
Definition join_left_row (lookupMap : gmap string (list value))
  (st : join_state) (leftRow : value) : join_state :=
  let key := _createMultiConditionKey h leftRow joinConditions SideLeft in
  let matches := default [] (lookupMap !! key) in
  if bool_decide (0 < length matches)%nat then
    foldl (join_candidate leftRow) st matches
  else if keeps_left joinType then push_merged transform leftRow VNull st
  else st.

(** The body of the closing loop over the right dataset. *)
Definition add_unmatched_right (st : join_state) (rightRow : value)
  : join_state :=
  if negb (set_has (matchedRightRows st) rightRow)
  then push_merged transform VNull rightRow st
  else st.

Definition exact_join_from (next : addr) (leftDataset rightDataset : list value)
  : join_state :=
  let lookupMap := build_lookup h joinConditions rightDataset in
  let st0 := {| joinedRows := []; matchedRightRows := []; next_addr := next |} in
  let st1 := foldl (join_left_row lookupMap) st0 leftDataset in
  if keeps_right joinType then foldl add_unmatched_right st1 rightDataset
  else st1.

Definition _performExactJoin (next : addr)
  (leftDataset rightDataset : list value) : list value :=
  joinedRows (exact_join_from next leftDataset rightDataset).

End ExactJoin.

(** ** [_performFuzzyJoin] *)

Record fuzzy_options : Type := {
  enabled : bool;
  threshold : Q;
  ignoreLocation : bool;
  useExtendedSearch : bool;
  minMatchCharLength : Z;
  distance : Z;
  includeMatches : bool;
  sortFuzzyResults : bool;
  maxResultsPerKey : Z;
  findAllMatches : bool;
  isCaseSensitive : bool;
  shouldSort : bool;
  useOrLogic : bool;
  includeScoreInResult : bool
}.

(** One result of [fuse.search]: the matched right row and its score. *)
Record fuse_match : Type := { item : value; score : Q }.

(** Fuse.js is an external library: the search over the right dataset with
    the index keys, the options, the key searched and the pattern. *)
Definition fuse_engine : Type :=
  list value -> list string -> fuzzy_options -> string -> string
  -> list fuse_match.

(** [l.slice(0, e)] *)
Definition slice0 {A} (e : Z) (l : list A) : list A :=
  let len := Z.of_nat (length l) in
  take (Z.to_nat (if e <? 0 then Z.max (len + e) 0 else Z.min e len)) l.

(** The entry of [allMatchingRows] for one right row. *)
Record match_info : Type := {
  row : value;
  conditions : list (condition * Q);
  avgScore : Q
}.

(** A JavaScript [Map] keyed by rows: entries in insertion order. *)
Abbreviation row_map := (list (value * match_info)).

Fixpoint map_get (m : row_map) (k : value) : option match_info :=
  match m with
  | [] => None
  | (k', v) :: m' => if same_value_zero k' k then Some v else map_get m' k
  end.

Fixpoint map_set (m : row_map) (k : value) (v : match_info) : row_map :=
  match m with
  | [] => [(k, v)]
  | (k', v') :: m' =>
      if same_value_zero k' k then (k', v) :: m' else (k', v') :: map_set m' k v
  end.

Definition Qlt_bool (a b : Q) : bool := negb (Qle_bool b a).

(** [conditions.reduce((acc, c) => acc + c.score, 0) / conditions.length] *)
Definition average (scores : list Q) : Q :=
  foldl Qplus 0%Q scores / inject_Z (Z.of_nat (length scores)).

(** [rows.sort((a, b) => a.score - b.score)]: the sort is stable. *)
Fixpoint insert_by_score (x : value * Q) (l : list (value * Q))
  : list (value * Q) :=
  match l with
  | [] => [x]
  | y :: l' =>
      if Qlt_bool y.2 x.2 then y :: insert_by_score x l' else x :: y :: l'
  end.

Fixpoint sort_by_score (l : list (value * Q)) : list (value * Q) :=
  match l with
  | [] => []
  | x :: l' => insert_by_score x (sort_by_score l')
  end.

(** [joinedRow._fuzzyScore = score]; only objects carry properties in the
    model. *)
Definition attach_score (joinedRow : value) (s : Q) : value :=
  match joinedRow with
  | VObject a ps => VObject a (set_prop "_fuzzyScore" (VNumber (Num s)) ps)
  | _ => joinedRow
  end.

Section FuzzyJoin.

Variable fuse : fuse_engine.
Variable h : host.
Variable rightDataset : list value.
Variable joinConditions : list condition.
Variable joinType : join_type.
Variable transform : option transform_fn.
Variable fuzzyOptions : fuzzy_options.

(** The conditions whose left value is neither null nor undefined, each with
    that value. *)
Definition searchPatterns (leftRow : value) : list (condition * value) :=
  filter (fun p => nullish p.2 = false)
    (map (fun c => (c, _getNestedProperty leftRow (leftKey c)))
       joinConditions).

Definition search (pattern : condition * value) : list fuse_match :=
  let searchValue :=
    match pattern.2 with
    | VString s => s
    | v => ToString h v
    end in
  fuse rightDataset (map rightKey joinConditions) fuzzyOptions
    (rightKey pattern.1) searchValue.

(** The conditions that found something, each with its matches cut to
    [maxResultsPerKey]. *)
Definition conditionMatches (leftRow : value)
  : list (condition * list fuse_match) :=
  omap (fun pattern =>
          let matches := search pattern in
          if bool_decide (0 < length matches)%nat
          then Some (pattern.1, slice0 (maxResultsPerKey fuzzyOptions) matches)
          else None)
       (searchPatterns leftRow).

(** The body of the two nested loops that fill [allMatchingRows]. *)
Definition record_match (c : condition) (m : row_map) (found : fuse_match)
  : row_map :=
  let rightRow := item found in
  let matchScore := score found in
  match map_get m rightRow with
  | Some existing =>
      if useOrLogic fuzzyOptions then
        map_set m rightRow
          {| row := rightRow; conditions := [(c, matchScore)];
             avgScore := matchScore |}
      else
        let conds := conditions existing ++ [(c, matchScore)] in
        map_set m rightRow
          {| row := row existing; conditions := conds;
             avgScore := average (map snd conds) |}
  | None =>
      map_set m rightRow
        {| row := rightRow; conditions := [(c, matchScore)];
           avgScore := matchScore |}
  end.

Definition allMatchingRows (cms : list (condition * list fuse_match))
  : row_map :=
  foldl (fun m cm => foldl (record_match cm.1) m cm.2) [] cms.

(** The rows that matched every condition, or any of them under OR logic,
    sorted by score on request. *)
Definition matchingRows (cms : list (condition * list fuse_match))
  : list (value * Q) :=
  let rows :=
    omap (fun e =>
            if useOrLogic fuzzyOptions
               || bool_decide (length (conditions e.2) = length joinConditions)
            then Some (e.1, avgScore e.2) else None)
         (allMatchingRows cms) in
  if sortFuzzyResults fuzzyOptions then sort_by_score rows else rows.

(** The body of the loop that creates the joined rows of one left row. *)
Definition join_match (leftRow : value) (st : join_state)
  (m : value * Q) : join_state :=
  let '(rightRow, s) := m in
  if Qle_bool s (threshold fuzzyOptions) then
    let '(merged, next') :=
      _mergeRows (next_addr st) leftRow rightRow transform in
    let joinedRow :=
      if includeScoreInResult fuzzyOptions then attach_score merged s
      else merged in
    let st' := {| joinedRows := joinedRows st ++ [joinedRow];
                  matchedRightRows := matchedRightRows st;
                  next_addr := next' |} in
    if keeps_right joinType then mark_matched rightRow st' else st'
  else st.

(** The body of the loop over the left dataset. *)
Definition fuzzy_left_row (st : join_state) (leftRow : value) : join_state :=
  if bool_decide (length (searchPatterns leftRow) = 0%nat) then
    if keeps_left joinType then push_merged transform leftRow VNull st else st
  else
    let cms := conditionMatches leftRow in
    if bool_decide (0 < length cms)%nat then
      foldl (join_match leftRow) st (matchingRows cms)
    else if keeps_left joinType then push_merged transform leftRow VNull st
    else st.

Definition fuzzy_join_from (next : addr) (leftDataset : list value)
  : join_state :=
  let st0 := {| joinedRows := []; matchedRightRows := []; next_addr := next |} in
  let st1 := foldl fuzzy_left_row st0 leftDataset in
  if keeps_right joinType
  then foldl (add_unmatched_right transform) st1 rightDataset
  else st1.

Definition _performFuzzyJoin (next : addr) (leftDataset : list value)
  : list value :=
  joinedRows (fuzzy_join_from next leftDataset).

End FuzzyJoin.

(** ** [_performJoin] *)

(** [None] is the error thrown for an empty list of conditions. *)
Definition _performJoin (fuse : fuse_engine) (h : host) (next : addr)
  (leftDataset rightDataset : list value) (joinConditions : list condition)
  (joinType : join_type) (transform : option transform_fn)
  (fuzzyOptions : fuzzy_options) : option join_state :=
  if bool_decide (length joinConditions = 0%nat) then None
  else if enabled fuzzyOptions
  then Some (fuzzy_join_from fuse h rightDataset joinConditions joinType
               transform fuzzyOptions next leftDataset)
  else Some (exact_join_from h joinConditions joinType transform next
               leftDataset rightDataset).

(** ** [joinQueries] *)

(** A normalized join strategy.  [fuzzyOverride] is the effect of spreading
    the strategy's own fuzzy options over the ones inherited. *)
Record strategy : Type := {
  name : string;
  strategy_conditions : list condition;
  strategy_type : option join_type;
  strategy_transform : option transform_fn;
  fuzzyOverride : fuzzy_options -> fuzzy_options
}.

Definition defaultFuzzyOptions : fuzzy_options :=
  {| enabled := false; threshold := 3 # 10; ignoreLocation := true;
     useExtendedSearch := true; minMatchCharLength := 2; distance := 100;
     includeMatches := false; sortFuzzyResults := true; maxResultsPerKey := 5;
     findAllMatches := false; isCaseSensitive := false; shouldSort := true;
     useOrLogic := false; includeScoreInResult := false |}.

Record join_options : Type := {
  options_joinType : option join_type;
  options_fuzzyOverride : fuzzy_options -> fuzzy_options
}.

(** One entry of [joinResults]. *)
Record strategy_result : Type := {
  count : Z;
  data : list value
}.

Fixpoint results_get (k : string) (rs : list (string * strategy_result))
  : option strategy_result :=
  match rs with
  | [] => None
  | (k', v) :: rs' => if bool_decide (k' = k) then Some v else results_get k rs'
  end.

Fixpoint results_set (k : string) (v : strategy_result)
  (rs : list (string * strategy_result)) : list (string * strategy_result) :=
  match rs with
  | [] => [(k, v)]
  | (k', v') :: rs' =>
      if bool_decide (k' = k) then (k, v) :: rs'
      else (k', v') :: results_set k v rs'
  end.

(** The variables of the loop over the strategies. *)
Record best_state : Type := {
  joinResults : list (string * strategy_result);
  bestJoinName : option string;
  bestJoinCount : Z;
  heap_next : addr
}.

Record best_join : Type := {
  best_name : option string;
  best_count : Z;
  best_data : list value
}.

Section JoinQueries.

Variable fuse : fuse_engine.
Variable h : host.
Variable options : join_options.
Variable data1 data2 : list value.

Definition run_strategy (next : addr) (s : strategy) : option join_state :=
  _performJoin fuse h next data1 data2 (strategy_conditions s)
    (default JoinInner
       (match strategy_type s with
        | Some t => Some t
        | None => options_joinType options
        end))
    (strategy_transform s)
    (fuzzyOverride s (options_fuzzyOverride options defaultFuzzyOptions)).

(** The body of the loop over the strategies; [None] when the join throws. *)
Definition try_strategy (st : best_state) (s : strategy) : option best_state :=
  js ← run_strategy (heap_next st) s;
  let joined := joinedRows js in
  let n := Z.of_nat (length joined) in
  let results :=
    results_set (name s) {| count := n; data := joined |} (joinResults st) in
  Some (if bestJoinCount st <? n
        then {| joinResults := results; bestJoinName := Some (name s);
                bestJoinCount := n; heap_next := next_addr js |}
        else {| joinResults := results; bestJoinName := bestJoinName st;
                bestJoinCount := bestJoinCount st; heap_next := next_addr js |}).

Fixpoint try_strategies (st : best_state) (ss : list strategy)
  : option best_state :=
  match ss with
  | [] => Some st
  | s :: ss' => st' ← try_strategy st s; try_strategies st' ss'
  end.

Definition select_best (st : best_state) : best_join :=
  {| best_name := bestJoinName st;
     best_count := bestJoinCount st;
     best_data :=
       match bestJoinName st with
       | Some n =>
           if bool_decide (n = EmptyString) then []
           else default [] (data <$> results_get n (joinResults st))
       | None => []
       end |}.

(** [joinQueries] once both queries have returned their rows: the results of
    every strategy and the best join, or [None] for [success: false]. *)
Definition joinQueries (next : addr) (joinStrategies : list strategy)
  : option (list (string * strategy_result) * best_join) :=
  st ← try_strategies
         {| joinResults := []; bestJoinName := None; bestJoinCount := -1;
            heap_next := next |}
         joinStrategies;
  Some (joinResults st, select_best st).

End JoinQueries.

End DataJoin.

(* ================================================================== *)
(** * The query service with result tracking                           *)
(* ================================================================== *)

Module Tracking.

Import DataJoin.

(** ** Signatures *)

(** [array.sort()] on strings: ascending by code units. *)
Definition sort_strings (l : list string) : list string :=
  merge_sort String.le l.

(** [generateQuerySignature] *)
Definition normalizeSql (sql : string) : string :=
  toLowerCase (trim (collapse_whitespace sql)).

Definition signatureData (normalizedSql : string) (paramKeys : list string)
  : value :=
  VObject 0 [("sql", VString normalizedSql);
             ("paramKeys", VArray 0 (map VString paramKeys))].

Definition generateQuerySignature (h : host) (sql : string)
  (bindParams : value) : string :=
  let normalizedSql := normalizeSql sql in
  let paramKeys :=
    sort_strings (if truthy bindParams then keys bindParams else []) in
  SHA256.sha256_hex
    (default EmptyString
       (JSON_stringify h (signatureData normalizedSql paramKeys) None)).

Inductive marking_strategy : Type :=
| MarkHash
| MarkComposite
| MarkCustom
| MarkOther.

Record tracking_options : Type := {
  markingStrategy : marking_strategy;
  hashFields : option (list string);
  compositeFields : option (list string);
  customComparator : option (value -> outcome)
}.

(** The loop [for (const field of fields) if (row.hasOwnProperty(field))
    dataToHash[field] = row[field]]. *)
Definition pick_fields (row : value) (fields : list string) : props :=
  foldl (fun dataToHash field =>
           if hasOwnProperty row field
           then set_prop field (default VUndefined (Get row field)) dataToHash
           else dataToHash)
        [] fields.

(** The loop over [Object.entries(row)] that leaves out the internal
    fields. *)
Definition public_fields (row : value) : props :=
  foldl (fun dataToHash kv =>
           if negb (startsWith "_" kv.1) then set_prop kv.1 kv.2 dataToHash
           else dataToHash)
        [] (own_props row).

(** What is hashed for a row; [None] when reading the row throws. *)
Definition dataToHash (row : value) (trackingOptions : tracking_options)
  : option value :=
  match markingStrategy trackingOptions with
  | MarkHash =>
      if nullish row then None
      else
        match hashFields trackingOptions with
        | Some fields => Some (VObject 0 (pick_fields row fields))
        | None => Some (VObject 0 (public_fields row))
        end
  | MarkComposite =>
      if nullish row then None
      else
        Some (VObject 0
                (pick_fields row
                   (default ["id"; "name"; "email"]
                      (compositeFields trackingOptions))))
  | MarkCustom =>
      match customComparator trackingOptions with
      | Some f =>
          match f row with
          | Returns v => Some v
          | Throws => Some row
          end
      | None => Some row
      end
  | MarkOther => Some row
  end.

(** The text given to the hash:
    [JSON.stringify(dataToHash, Object.keys(dataToHash).sort())]; [None]
    when [Object.keys] or the hash update throws. *)
Definition signature_text (h : host) (row : value)
  (trackingOptions : tracking_options) : option string :=
  d ← dataToHash row trackingOptions;
  if nullish d then None
  else JSON_stringify h d (Some (sort_strings (keys d))).

(** [generateRowSignature] *)
Definition generateRowSignature (h : host) (row : value)
  (trackingOptions : tracking_options) : option string :=
  SHA256.sha256_hex <$> signature_text h row trackingOptions.

(** ** The execution history *)

Inductive execution_status : Type :=
| Executing
| Completed
| Failed
| Cancelled.

Global Instance execution_status_eq_dec : EqDecision execution_status.
Proof. solve_decision. Defined.

(** A row of the [query_executions] table. *)
Record execution : Type := {
  execution_id : value;
  query_signature : string;
  status : execution_status;
  started_at : value;
  completed_at : value;
  results : value
}.

(** [getPreviousExecutionsWithResults]: the table is given most recently
    completed first, as [ORDER BY completed_at DESC] delivers it. *)
Definition getPreviousExecutionsWithResults
  (executions_by_completion_desc : list execution) (querySignature : string)
  (limit : option nat) : list execution :=
  let selected :=
    filter (fun e => query_signature e = querySignature
                     ∧ status e = Completed
                     ∧ is_null (results e) = false)
      executions_by_completion_desc in
  match limit with
  | Some n => take n selected
  | None => selected
  end.

(** ** The index of previous results *)

Record index_entry : Type := {
  entry_signature : string;
  entry_count : Z;
  entry_firstSeen : value;
  entry_lastSeen : value;
  entry_executionIds : list value;
  sampleData : value
}.

(** [a || b] *)
Definition or_else (a b : value) : value := if truthy a then a else b.

Section Index.

Variable h : host.
Variable trackingOptions : tracking_options.

(** The body of the loop over the rows of one execution. *)
Definition index_row (e : execution) (index : option (gmap string index_entry))
  (row : value) : option (gmap string index_entry) :=
  idx ← index;
  signature ← generateRowSignature h row trackingOptions;
  let seen := or_else (completed_at e) (started_at e) in
  match idx !! signature with
  | Some existing =>
      Some (<[signature :=
                {| entry_signature := entry_signature existing;
                   entry_count := entry_count existing + 1;
                   entry_firstSeen := entry_firstSeen existing;
                   entry_lastSeen := seen;
                   entry_executionIds :=
                     entry_executionIds existing ++ [execution_id e];
                   sampleData := sampleData existing |}]> idx)
  | None =>
      Some (<[signature :=
                {| entry_signature := signature;
                   entry_count := 1;
                   entry_firstSeen := seen;
                   entry_lastSeen := seen;
                   entry_executionIds := [execution_id e];
                   sampleData := row |}]> idx)
  end.

Definition index_execution (index : option (gmap string index_entry))
  (e : execution) : option (gmap string index_entry) :=
  match results e with
  | VArray _ rows => foldl (index_row e) index rows
  | _ => index
  end.

(** [buildPreviousResultsIndex]; [None] when a row signature throws. *)
Definition buildPreviousResultsIndex (previousExecutions : list execution)
  : option (gmap string index_entry) :=
  foldl index_execution (Some ∅) previousExecutions.

End Index.

(** ** Marking the current rows *)

(** The [_tracking] object added to a row. *)
Record tracking_info : Type := {
  isNew : bool;
  signature : string;
  firstSeen : value;
  occurrenceCount : Z;
  lastSeenBefore : value;
  executionIds : list value
}.

(** [{...currentRow, _tracking}] *)
Record marked_row : Type := {
  currentRow : value;
  _tracking : tracking_info
}.

Record tracking_stats : Type := {
  totalRows : Z;
  newRows : Z;
  previouslySeenRows : Z;
  executionsSearched : Z;
  querySignature : string;
  newRowPercentage : number;
  trackingStrategy : marking_strategy
}.

(** [Math.round(x)]: the integer nearest to [x], the greater one at a
    tie. *)
Definition Math_round (x : Q) : Z := Qfloor (x + (1 # 2)).

(** [Math.round((newCount / total) * 100)]; [0 / 0] is [NaN]. *)
Definition percentage (newCount total : Z) : number :=
  if total =? 0 then NaN
  else Int (Math_round (inject_Z newCount / inject_Z total * 100)).

(** The variables of the marking loop. *)
Record marking_state : Type := {
  markedResults : list marked_row;
  newCount : Z;
  previouslySeenCount : Z
}.

Section ProcessResultTracking.

Variable h : host.
Variable executions_by_completion_desc : list execution.

(** [new Date().toISOString()] as read while the row of the given position
    is marked. *)
Variable now : nat -> string.

Variable trackingOptions : tracking_options.

Definition mark_row (previousResultsIndex : gmap string index_entry)
  (position : nat) (row : value) : option marked_row :=
  rowSignature ← generateRowSignature h row trackingOptions;
  let previousOccurrence := previousResultsIndex !! rowSignature in
  Some
    {| currentRow := row;
       _tracking :=
         match previousOccurrence with
         | Some previous =>
             {| isNew := false;
                signature := rowSignature;
                firstSeen := entry_firstSeen previous;
                occurrenceCount := entry_count previous + 1;
                lastSeenBefore := entry_lastSeen previous;
                executionIds := entry_executionIds previous |}
         | None =>
             {| isNew := true;
                signature := rowSignature;
                firstSeen := VString (now position);
                occurrenceCount := 1;
                lastSeenBefore := VNull;
                executionIds := [] |}
         end |}.

(** The body of the loop over the current rows. *)
Definition mark_step (previousResultsIndex : gmap string index_entry)
  (st : option marking_state) (row : value) : option marking_state :=
  s ← st;
  marked ← mark_row previousResultsIndex (length (markedResults s)) row;
  Some
    {| markedResults := markedResults s ++ [marked];
       newCount := if isNew (_tracking marked) then newCount s + 1
                   else newCount s;
       previouslySeenCount :=
         if isNew (_tracking marked) then previouslySeenCount s
         else previouslySeenCount s + 1 |}.

(** [processResultTracking]; [None] when a row signature throws. *)
Definition processResultTracking (currentResults : list value) (sql : string)
  (bindParams : value) : option (list marked_row * tracking_stats) :=
  let signature := generateQuerySignature h sql bindParams in
  let previousExecutions :=
    getPreviousExecutionsWithResults executions_by_completion_desc signature
      (Some 50%nat) in
  previousResultsIndex ←
    buildPreviousResultsIndex h trackingOptions previousExecutions;
  st ← foldl (mark_step previousResultsIndex)
         (Some {| markedResults := []; newCount := 0;
                  previouslySeenCount := 0 |})
         currentResults;
  Some (markedResults st,
        {| totalRows := Z.of_nat (length currentResults);
           newRows := newCount st;
           previouslySeenRows := previouslySeenCount st;
           executionsSearched := Z.of_nat (length previousExecutions);
           querySignature := signature;
           newRowPercentage :=
             percentage (newCount st) (Z.of_nat (length currentResults));
           trackingStrategy := markingStrategy trackingOptions |}).

End ProcessResultTracking.

End Tracking.

(* ================================================================== *)
(** * The query result store                                           *)
(* ================================================================== *)

Module ResultStore.

(** What the store relies on outside the repository: [JSON.parse], the
    conversions between strings and buffers, zlib, and the value the
    PostgreSQL driver hands back for a JSONB column that was given a JSON
    text ([None] when the server refuses the text). *)
Record platform : Type := {
  JSON_parse : string -> option value;
  Buffer_from : string -> list Z;
  Buffer_toString : list Z -> string;
  gzipSync : list Z -> list Z;
  gunzipSync : list Z -> option (list Z);
  jsonb_column : string -> option value
}.

Record store_config : Type := {
  resultsCacheSize : nat;
  compressionThreshold : Z;
  compressionEnabled : bool
}.

(** The values of the [storage_type] column. *)
Inductive storage_type : Type :=
| StorageJson
| StorageLarge.

(** A row of the [query_results] table. *)
Record db_row : Type := {
  row_id : string;
  query_id : value;
  execution_id : value;
  result_type : string;
  row_count : value;
  storage : storage_type;
  data : option value;
  data_large : option (list Z);
  is_compressed : bool;
  metadata_column : option value;
  tags_column : value;
  ttl : option Z;
  created_at : string;
  updated_at : string
}.

(** The argument of [storeResult]. *)
Record result_input : Type := {
  id : option string;
  queryId : value;
  executionId : value;
  resultType : option string;
  input_data : value;
  metadata : value;
  tags : value;
  ttlSeconds : option Z
}.

(** What [getResultById] returns, and what the memory cache holds. *)
Record result : Type := {
  result_id : string;
  result_queryId : value;
  result_executionId : value;
  result_resultType : string;
  result_rowCount : value;
  result_data : value;
  result_metadata : value;
  fromCache : bool
}.

(** What [storeResult] returns. *)
Record receipt : Type := {
  stored_id : string;
  stored_rowCount : value;
  stored_ttl : option Z;
  stored_createdAt : string
}.

(** The LRU cache: most recently used first, at most [resultsCacheSize]
    entries.  Expiry by age is not modelled. *)
Abbreviation cache := (list (string * result)).

Definition cache_without (k : string) (c : cache) : cache :=
  filter (fun e => e.1 ≠ k) c.

Definition cache_set (max : nat) (k : string) (v : result) (c : cache)
  : cache :=
  take max ((k, v) :: cache_without k c).

Definition cache_get (k : string) (c : cache) : option result * cache :=
  match assoc k c with
  | Some v => (Some v, (k, v) :: cache_without k c)
  | None => (None, c)
  end.

Record store_state : Type := {
  table : gmap string db_row;
  resultsCache : cache
}.

(** [v || fallback] *)
Definition or_default (v fallback : value) : value :=
  if truthy v then v else fallback.

(** [resultData.data ? resultData.data.length : 0] *)
Definition rowCount_of (d : value) : value :=
  if truthy d then default VUndefined (Get d "length") else VNumber (Int 0).

Section Store.

Variable h : host.
Variable p : platform.
Variable config : store_config.

Definition dataString_of (d : value) : string :=
  default EmptyString (JSON_stringify h (or_default d (VArray 0 [])) None).

(** The storage format chosen for a row set: tier, JSONB text, bytes and
    compression flag. *)
Definition storage_format (d : value)
  : storage_type * option string * option (list Z) * bool :=
  let dataString := dataString_of d in
  let isLarge := compressionThreshold config <? strlen dataString in
  let shouldCompress := isLarge && compressionEnabled config in
  if isLarge then
    if shouldCompress
    then (StorageLarge, None, Some (gzipSync p (Buffer_from p dataString)), true)
    else (StorageLarge, None, Some (Buffer_from p dataString), false)
  else (StorageJson, Some dataString, None, false).

(** [INSERT INTO query_results ...]: refused when the id is taken or a JSONB
    text is refused. *)
Definition insert_row (t : gmap string db_row) (r : db_row)
  : option (gmap string db_row) :=
  match t !! row_id r with
  | Some _ => None
  | None => Some (<[row_id r := r]> t)
  end.

(** [storeResult]; [uuid] is what [uuidv4()] yields and [now] the current
    time, in text and in milliseconds.  [None] is the error thrown when the
    insert fails. *)
Definition storeResult (uuid now : string) (now_ms : Z) (st : store_state)
  (resultData : result_input) : option (store_state * receipt) :=
  let the_id := default uuid (id resultData) in
  let the_type := default "single" (resultType resultData) in
  let the_ttl := (fun s => now_ms + s * 1000) <$> ttlSeconds resultData in
  let d := input_data resultData in
  let '(storageType, jsonText, dataLarge, isCompressed) := storage_format d in
  stored ← match jsonText with
           | Some text => Some <$> jsonb_column p text
           | None => Some None
           end;
  meta ← jsonb_column p
           (default EmptyString
              (JSON_stringify h (or_default (metadata resultData) (VObject 0 []))
                 None));
  t' ← insert_row (table st)
         {| row_id := the_id;
            query_id := queryId resultData;
            execution_id := executionId resultData;
            result_type := the_type;
            row_count := rowCount_of d;
            storage := storageType;
            data := stored;
            data_large := dataLarge;
            is_compressed := isCompressed;
            metadata_column := Some meta;
            tags_column := or_default (tags resultData) (VArray 0 []);
            ttl := the_ttl;
            created_at := now;
            updated_at := now |};
  let entry :=
    {| result_id := the_id;
       result_queryId := queryId resultData;
       result_executionId := executionId resultData;
       result_resultType := the_type;
       result_rowCount := rowCount_of d;
       result_data := d;
       result_metadata := metadata resultData;
       fromCache := false |} in
  Some ({| table := t';
           resultsCache :=
             cache_set (resultsCacheSize config) the_id entry
               (resultsCache st) |},
        {| stored_id := the_id;
           stored_rowCount := rowCount_of d;
           stored_ttl := the_ttl;
           stored_createdAt := now |}).

(** The decoding of a stored row set; [None] when zlib or [JSON.parse]
    throws. *)
Definition parse_data (r : db_row) : option value :=
  match storage r with
  | StorageJson => Some (default VNull (data r))
  | StorageLarge =>
      bytes ← data_large r;
      if is_compressed r then
        decompressed ← gunzipSync p bytes;
        JSON_parse p (Buffer_toString p decompressed)
      else JSON_parse p (Buffer_toString p bytes)
  end.

(** [getResultById]; [None] is the error thrown for an unknown id or a
    failed decoding. *)
Definition getResultById (st : store_state) (the_id : string)
  : option (store_state * result) :=
  match cache_get the_id (resultsCache st) with
  | (Some cachedResult, c') =>
      Some ({| table := table st; resultsCache := c' |},
            {| result_id := result_id cachedResult;
               result_queryId := result_queryId cachedResult;
               result_executionId := result_executionId cachedResult;
               result_resultType := result_resultType cachedResult;
               result_rowCount := result_rowCount cachedResult;
               result_data := result_data cachedResult;
               result_metadata := result_metadata cachedResult;
               fromCache := true |})
  | (None, _) =>
      resultData ← table st !! the_id;
      parsedData ← parse_data resultData;
      let formattedResult :=
        {| result_id := row_id resultData;
           result_queryId := query_id resultData;
           result_executionId := execution_id resultData;
           result_resultType := result_type resultData;
           result_rowCount := row_count resultData;
           result_data := parsedData;
           result_metadata := default VNull (metadata_column resultData);
           fromCache := false |} in
      Some ({| table := table st;
               resultsCache :=
                 cache_set (resultsCacheSize config) the_id formattedResult
                   (resultsCache st) |},
            formattedResult)
  end.

End Store.

End ResultStore.

(* ================================================================== *)
(** * The join service: configuration and statistics                   *)
(* ================================================================== *)

Module JoinConfig.

Import DataJoin.

(** An element of the join configuration handed to [joinQueries]: a simple
    condition of the legacy format, a strategy, or a mix of both.  A field
    that is absent is [None]; [conditions], when present, is an array. *)
Record config_item : Type := {
  item_name : option string;
  item_leftKey : option string;
  item_rightKey : option string;
  item_comparator : option (value -> value -> value);
  item_conditions : option (list condition);
  item_type : option join_type;
  item_transform : option transform_fn;
  item_fuzzyOptions : option (fuzzy_options -> fuzzy_options)
}.

(** The configuration: an array of items or a single object. *)
Inductive join_config : Type :=
| ConfigArray (items : list config_item)
| ConfigObject (item : config_item).

(** Truthiness of an optional string: absent and empty are falsy. *)
Definition given (s : option string) : bool :=
  match s with
  | Some s => negb (bool_decide (s = EmptyString))
  | None => false
  end.

(** An array is truthy even when empty. *)
Definition has_conditions (i : config_item) : bool :=
  bool_decide (is_Some (item_conditions i)).

(** The strategy a simple condition of the legacy format is turned into. *)
Definition from_legacy (c : config_item) : config_item :=
  let leftKey := default EmptyString (item_leftKey c) in
  let rightKey := default EmptyString (item_rightKey c) in
  {| item_name :=
       Some (if given (item_name c) then default EmptyString (item_name c)
             else "join_" +:+ leftKey +:+ "_" +:+ rightKey);
     item_leftKey := None;
     item_rightKey := None;
     item_comparator := None;
     item_conditions :=
       Some [{| DataJoin.leftKey := leftKey; DataJoin.rightKey := rightKey;
                comparator := None |}];
     item_type := Some (default JoinInner (item_type c));
     item_transform := item_transform c;
     item_fuzzyOptions := item_fuzzyOptions c |}.

(** The callback of the [map] over the legacy array; [None] is the error
    thrown for an item of neither format. *)
Definition normalize_item (c : config_item) : option config_item :=
  if given (item_leftKey c) && given (item_rightKey c) then Some (from_legacy c)
  else if given (item_name c) && has_conditions c then Some c
  else None.

(** [_getJoinStrategies]; [None] is a thrown error. *)
Definition _getJoinStrategies (joinConfig : join_config)
  : option (list config_item) :=
  match joinConfig with
  | ConfigArray [] => None
  | ConfigArray ((first :: _) as items) =>
      if has_conditions first then Some items
      else if given (item_leftKey first) || given (item_name first)
      then mapM normalize_item items
      else None
  | ConfigObject item =>
      if has_conditions item then Some [item] else None
  end.

End JoinConfig.

Module JoinStatistics.

Import DataJoin.

(** An entry of [joinResults] as [analyzeJoinStatistics] reads it. *)
Record join_result : Type := {
  result_count : Z;
  totalPossibleMatches : Z;
  executionTimeMs : Z
}.

(** The quotient of two integers as JavaScript computes it. *)
Inductive quotient : Type :=
| Finite (q : Q)
| Infinity
| MinusInfinity
| NotANumber.

Definition divide (a b : Z) : quotient :=
  if b =? 0 then
    if a =? 0 then NotANumber
    else if 0 <? a then Infinity else MinusInfinity
  else Finite (inject_Z a / inject_Z b).

(** [x || 0] on a quotient: [NaN] and zero are falsy. *)
Definition or_zero (x : quotient) : quotient :=
  match x with
  | NotANumber => Finite 0
  | Finite q => if Qeq_bool q 0 then Finite 0 else Finite q
  | _ => x
  end.

(** One element of [allJoins], and [bestJoin]; the placeholder that
    [bestJoin] starts as has no name and no execution time. *)
Record join_stat : Type := {
  stat_name : option string;
  matchCount : Z;
  matchRatio : quotient;
  stat_executionTimeMs : option Z
}.

Definition no_best_join : join_stat :=
  {| stat_name := None; matchCount := 0; matchRatio := Finite 0;
     stat_executionTimeMs := None |}.

Record join_statistics : Type := {
  bestJoin : join_stat;
  allJoins : list join_stat;
  totalJoins : Z;
  averageMatchCount : quotient;
  averageExecutionTimeMs : quotient
}.

Definition stat_of (entry : string * join_result) : join_stat :=
  {| stat_name := Some entry.1;
     matchCount := result_count entry.2;
     matchRatio :=
       or_zero (divide (result_count entry.2) (totalPossibleMatches entry.2));
     stat_executionTimeMs := Some (executionTimeMs entry.2) |}.

(** The body of the loop over [Object.entries(joinResults)]. *)
Definition analyze_entry (st : join_stat * list join_stat)
  (entry : string * join_result) : join_stat * list join_stat :=
  let joinStat := stat_of entry in
  (if matchCount st.1 <? matchCount joinStat then joinStat else st.1,
   st.2 ++ [joinStat]).

Definition sum_of (f : join_stat -> Z) (l : list join_stat) : Z :=
  foldl (fun sum stat => sum + f stat) 0 l.

(** [analyzeJoinStatistics] *)
Definition analyzeJoinStatistics (joinResults : list (string * join_result))
  : join_statistics :=
  let '(best, all) := foldl analyze_entry (no_best_join, []) joinResults in
  let n := Z.of_nat (length all) in
  {| bestJoin := best;
     allJoins := all;
     totalJoins := n;
     averageMatchCount := divide (sum_of matchCount all) n;
     averageExecutionTimeMs :=
       divide (sum_of (fun s => default 0 (stat_executionTimeMs s)) all) n |}.

End JoinStatistics.

(* ================================================================== *)
(** * Result tracking over the execution history                       *)
(* ================================================================== *)

Module TrackingHistory.

Import DataJoin.
Import Tracking.
Import JoinStatistics.

(** ** The marked row as an object *)

(** The [_tracking] object of a marked row; [executionIds] is a fresh
    array. *)
Definition tracking_object (a : addr) (t : tracking_info) : value :=
  VObject a
    [("isNew", VBool (isNew t));
     ("signature", VString (signature t));
     ("firstSeen", firstSeen t);
     ("occurrenceCount", VNumber (Int (occurrenceCount t)));
     ("lastSeenBefore", lastSeenBefore t);
     ("executionIds", VArray (S a) (executionIds t))].

(** [{...currentRow, _tracking: {...}}], allocated at [a]. *)
Definition marked_object (a : addr) (m : marked_row) : value :=
  VObject a
    (set_prop "_tracking" (tracking_object (S a) (_tracking m))
       (own_props (currentRow m))).

(** ** [getQueryExecutionsWithResults] *)

(** A row of [query_executions] with its [query_id] column. *)
Record execution_record : Type := {
  of_query : string;
  fields : execution
}.

Record executions_options : Type := {
  includeResults : option bool;
  limit : option nat
}.

(** [execution.results || null] *)
Definition results_or_null (v : value) : value :=
  if truthy v then v else VNull.

(** [getQueryExecutionsWithResults]: the table is given most recently
    started first, as [ORDER BY started_at DESC] delivers it.  The defaults
    are [includeResults: false] and [limit: 20]; a limit of 0 is no
    limit. *)
Definition getQueryExecutionsWithResults
  (executions_by_start_desc : list execution_record) (queryId : string)
  (options : executions_options) : list execution :=
  let include := default false (includeResults options) in
  let the_limit := default 20%nat (limit options) in
  let selected :=
    filter (fun r => of_query r = queryId) executions_by_start_desc in
  let rows :=
    if bool_decide (the_limit = 0%nat) then selected
    else take the_limit selected in
  map (fun r =>
         let e := fields r in
         {| execution_id := execution_id e;
            query_signature := query_signature e;
            status := status e;
            started_at := started_at e;
            completed_at := completed_at e;
            results :=
              if include then results_or_null (results e) else VNull |})
      rows.

(** ** [getTrackingStatistics] *)

Record execution_trend : Type := {
  trend_executionId : value;
  executionDate : value;
  trend_totalRows : Z;
  trend_newRows : Z;
  repeatingRows : Z;
  trend_newRowPercentage : number
}.

Record repeating_row : Type := {
  short_signature : string;
  row_occurrenceCount : Z;
  row_firstSeen : value;
  row_lastSeen : value;
  executionCount : Z;
  shown_sampleData : value
}.

Record statistics : Type := {
  totalExecutions : Z;
  executionsWithResults : Z;
  totalUniqueRows : Z;
  averageNewRowsPerExecution : quotient;
  executionTrends : list execution_trend;
  topRepeatingRows : list repeating_row
}.

(** What [getTrackingStatistics] returns when it succeeds. *)
Inductive statistics_result : Type :=
| NoExecutions
| Statistics (stats : statistics).

(** A JavaScript [Map] keyed by signatures: entries in insertion order. *)
Abbreviation row_index := (list (string * index_entry)).

Fixpoint index_set (k : string) (v : index_entry) (m : row_index)
  : row_index :=
  match m with
  | [] => [(k, v)]
  | (k', v') :: m' =>
      if bool_decide (k' = k) then (k, v) :: m' else (k', v') :: index_set k v m'
  end.

(** The variables of the loop over the rows of one execution. *)
Record row_loop : Type := {
  globalRowIndex : row_index;
  newRowsInExecution : Z;
  repeatingRowsInExecution : Z
}.

Section Statistics.

Variable h : host.

(** [x > 0] for the value of a [length] property; [to_number] is the
    language's conversion of a string to a number. *)
Variable to_number : string -> number.

Definition positive (v : value) : bool :=
  let of_number n :=
    match n with
    | Num q => Qlt_bool 0 q
    | NaN => false
    end in
  match v with
  | VNumber n => of_number n
  | VBool b => b
  | VString s => of_number (to_number s)
  | _ => false
  end.

(** [e.results && e.results.length > 0] *)
Definition has_rows (e : execution) : bool :=
  truthy (results e)
  && positive (default VUndefined (Get (results e) "length")).

Definition hash_strategy : tracking_options :=
  {| markingStrategy := MarkHash; hashFields := None;
     compositeFields := None; customComparator := None |}.

(** The body of the loop over the rows of one execution; [None] when the
    signature throws. *)
Definition count_row (e : execution) (st : option row_loop) (row : value)
  : option row_loop :=
  s ← st;
  signature ← generateRowSignature h row hash_strategy;
  match assoc signature (globalRowIndex s) with
  | Some existing =>
      Some {| globalRowIndex :=
                index_set signature
                  {| entry_signature := entry_signature existing;
                     entry_count := entry_count existing + 1;
                     entry_firstSeen := entry_firstSeen existing;
                     entry_lastSeen := completed_at e;
                     entry_executionIds :=
                       entry_executionIds existing ++ [execution_id e];
                     sampleData := sampleData existing |}
                  (globalRowIndex s);
              newRowsInExecution := newRowsInExecution s;
              repeatingRowsInExecution := repeatingRowsInExecution s + 1 |}
  | None =>
      Some {| globalRowIndex :=
                index_set signature
                  {| entry_signature := signature;
                     entry_count := 1;
                     entry_firstSeen := completed_at e;
                     entry_lastSeen := completed_at e;
                     entry_executionIds := [execution_id e];
                     sampleData := row |}
                  (globalRowIndex s);
              newRowsInExecution := newRowsInExecution s + 1;
              repeatingRowsInExecution := repeatingRowsInExecution s |}
  end.

(** The body of the loop over the executions: the index and the trends so
    far. *)
Definition count_execution (st : option (row_index * list execution_trend))
  (e : execution) : option (row_index * list execution_trend) :=
  '(index, trends) ← st;
  match results e with
  | VArray _ rows =>
      s ← foldl (count_row e)
             (Some {| globalRowIndex := index; newRowsInExecution := 0;
                      repeatingRowsInExecution := 0 |})
             rows;
      let n := Z.of_nat (length rows) in
      Some (globalRowIndex s,
            trends ++
            [{| trend_executionId := execution_id e;
                executionDate := completed_at e;
                trend_totalRows := n;
                trend_newRows := newRowsInExecution s;
                repeatingRows := repeatingRowsInExecution s;
                trend_newRowPercentage :=
                  percentage (newRowsInExecution s) n |}])
  | _ => Some (index, trends)
  end.

(** [values.sort((a, b) => b.count - a.count)]: descending, stable. *)
Fixpoint insert_by_count (x : index_entry) (l : list index_entry)
  : list index_entry :=
  match l with
  | [] => [x]
  | y :: l' =>
      if entry_count x <? entry_count y then y :: insert_by_count x l'
      else x :: y :: l'
  end.

Fixpoint sort_by_count (l : list index_entry) : list index_entry :=
  match l with
  | [] => []
  | x :: l' => insert_by_count x (sort_by_count l')
  end.

Definition shown (includeSampleData : bool) (entry : index_entry)
  : repeating_row :=
  {| short_signature := substring 0 12 (entry_signature entry) +:+ "...";
     row_occurrenceCount := entry_count entry;
     row_firstSeen := entry_firstSeen entry;
     row_lastSeen := entry_lastSeen entry;
     executionCount := Z.of_nat (length (entry_executionIds entry));
     shown_sampleData :=
       if includeSampleData then sampleData entry else VString "hidden" |}.

(** The statistics over the executions fetched; [None] when a signature
    throws. *)
Definition analyze_executions (includeSampleData : bool)
  (executions : list execution) : option statistics :=
  '(index, trends) ← foldl count_execution (Some ([], [])) executions;
  Some {| totalExecutions := Z.of_nat (length executions);
          executionsWithResults :=
            Z.of_nat (length (filter (fun e => has_rows e = true) executions));
          totalUniqueRows := Z.of_nat (length index);
          averageNewRowsPerExecution :=
            divide (foldl (fun sum trend => sum + trend_newRows trend) 0 trends)
              (Z.of_nat (length trends));
          executionTrends := trends;
          topRepeatingRows :=
            map (shown includeSampleData)
              (take 10 (sort_by_count (map snd index))) |}.

(** [getTrackingStatistics]; [None] is [success: false]. *)
Definition getTrackingStatistics
  (executions_by_start_desc : list execution_record) (queryId : string)
  (includeSampleData : bool) : option statistics_result :=
  let executions :=
    getQueryExecutionsWithResults executions_by_start_desc queryId
      {| includeResults := None; limit := None |} in
  if bool_decide (length executions = 0%nat) then Some NoExecutions
  else Statistics <$> analyze_executions includeSampleData executions.

End Statistics.

End TrackingHistory.

(* ================================================================== *)
(** * The result store: removal, expiry and combined results           *)
(* ================================================================== *)

Module StoreMaintenance.

Import ResultStore.

(** [deleteResult]: the row and the cache entry go; the answer is [true]. *)
Definition deleteResult (st : store_state) (the_id : string)
  : store_state * bool :=
  ({| table := delete the_id (table st);
      resultsCache := cache_without the_id (resultsCache st) |},
   true).

(** [ttl IS NOT NULL AND ttl < now] *)
Definition expired (now_ms : Z) (r : db_row) : bool :=
  match ttl r with
  | Some t => t <? now_ms
  | None => false
  end.

(** [cleanupExpiredResults]: the expired rows are deleted, their ids are
    dropped from the cache, and their number is returned. *)
Definition cleanupExpiredResults (now_ms : Z) (st : store_state)
  : store_state * Z :=
  let deletedIds :=
    (map_to_list
       (filter (fun kv => expired now_ms kv.2 = true) (table st))).*1 in
  ({| table := filter (fun kv => expired now_ms kv.2 = false) (table st);
      resultsCache :=
        foldl (fun c the_id => cache_without the_id c) (resultsCache st)
          deletedIds |},
   Z.of_nat (length deletedIds)).

(** One element of [resultsData.results]. *)
Record result_source : Type := {
  source_queryId : value;
  source_executionId : value;
  source_rowCount : value
}.

(** The argument of [storeMultiQueryResult]; [multi_results] is [None] when
    [results] is missing or not an array. *)
Record multi_input : Type := {
  multi_id : option string;
  multi_resultType : option string;
  multi_data : value;
  multi_metadata : value;
  multi_results : option (list result_source);
  multi_tags : value;
  multi_ttlSeconds : option Z
}.

(** The element of [resultSources] made for one source, allocated at [a]. *)
Definition source_summary (a : addr) (s : result_source) : value :=
  VObject a
    [("queryId", source_queryId s);
     ("executionId", source_executionId s);
     ("rowCount", or_default (source_rowCount s) (VNumber (Int 0)))].

(** [{...resultsData.metadata, resultSources: [...]}]; the object is
    allocated at [next], the array after it, its elements after that. *)
Definition combined_metadata (next : addr) (meta : value)
  (sources : list result_source) : value :=
  VObject next
    (set_prop "resultSources"
       (VArray (S next)
          (imap (fun i s => source_summary (S (S next) + i)%nat s) sources))
       (own_props meta)).

(** [s || d] for a string that may be missing: the empty string is
    falsy. *)
Definition string_or (s : option string) (d : string) : string :=
  match s with
  | Some s => if bool_decide (s = EmptyString) then d else s
  | None => d
  end.

(** The object handed to [storeResult]. *)
Definition combinedData (uuid : string) (next : addr) (input : multi_input)
  (sources : list result_source) : result_input :=
  {| id := Some (string_or (multi_id input) uuid);
     queryId := VUndefined;
     executionId := VUndefined;
     resultType := Some (string_or (multi_resultType input) "multi");
     input_data := multi_data input;
     metadata := combined_metadata next (multi_metadata input) sources;
     tags := or_default (multi_tags input) (VArray 0 []);
     ttlSeconds := multi_ttlSeconds input |}.

(** [storeMultiQueryResult]; [None] is a thrown error. *)
Definition storeMultiQueryResult (h : host) (p : platform)
  (config : store_config) (uuid now : string) (now_ms : Z) (next : addr)
  (st : store_state) (resultsData : multi_input)
  : option (store_state * receipt) :=
  sources ← multi_results resultsData;
  storeResult h p config uuid now now_ms st
    (combinedData uuid next resultsData sources).

End StoreMaintenance.

(* ================================================================== *)
(** * The join of three or more queries                                *)
(* ================================================================== *)

Module MultiJoin.

Import DataJoin.

(** What [_executeQuery] resolved to for one query. *)
Record query_result : Type := {
  query_success : bool;
  query_data : value;
  query_metadata : value
}.

(** One element of [joinSpecs]; [spec_conditions] is [None] when
    [conditions] is missing or not an array. *)
Record join_spec : Type := {
  spec_conditions : option (list condition);
  spec_type : option join_type;
  spec_transform : option transform_fn;
  spec_fuzzyOptions : fuzzy_options -> fuzzy_options
}.

(** The ways [joinMultipleQueries] answers [success: false]. *)
Inductive join_error : Type :=
| TooFewQueries
| SpecCountMismatch
| QueryFailed (index : nat)
| DatasetNotArray (index : nat)
| MissingConditions (step : nat)
| EmptyConditions (step : nat).

Record multi_join : Type := {
  joined : list value;
  queryCount : Z;
  initialRowCounts : list Z;
  finalRowCount : Z;
  combinedMetadata : value
}.

(** [queryResults.findIndex(r => !r.success)] *)
Fixpoint first_failed (i : nat) (rs : list query_result) : option nat :=
  match rs with
  | [] => None
  | r :: rs' => if query_success r then first_failed (S i) rs' else Some i
  end.

(** [_validateDatasets]: the index of the first dataset that is not an
    array, or the datasets as lists of rows. *)
Fixpoint _validateDatasets (i : nat) (datasets : list value)
  : nat + list (list value) :=
  match datasets with
  | [] => inr []
  | VArray _ rows :: rest =>
      match _validateDatasets (S i) rest with
      | inl bad => inl bad
      | inr ok => inr (rows :: ok)
      end
  | _ :: _ => inl i
  end.

Section JoinMultiple.

Variable fuse : fuse_engine.
Variable h : host.

(** [options.fuzzyOptions], spread over the defaults. *)
Variable options_fuzzy : fuzzy_options -> fuzzy_options.

(** [_combineMetadata] is handed in: it returns for every pair of
    metadata, writes only to the column descriptions they hold, and the
    rows joined never depend on it. *)
Variable combine : value -> value -> value.

(** The loop over the datasets after the first: the rows joined so far, the
    metadata combined so far and the next free address. *)
Fixpoint join_steps (i : nat) (currentResult : list value)
  (currentMetadata : value) (next : addr)
  (rest : list (list value * value * join_spec))
  : join_error + (list value * value * addr) :=
  match rest with
  | [] => inr (currentResult, currentMetadata, next)
  | (nextDataset, metadata, joinSpec) :: rest' =>
      match spec_conditions joinSpec with
      | None => inl (MissingConditions i)
      | Some conditions =>
          let fuzzyOptions :=
            spec_fuzzyOptions joinSpec (options_fuzzy defaultFuzzyOptions) in
          match _performJoin fuse h next currentResult nextDataset conditions
                  (default JoinInner (spec_type joinSpec))
                  (spec_transform joinSpec) fuzzyOptions with
          | None => inl (EmptyConditions i)
          | Some js =>
              join_steps (S i) (joinedRows js)
                (combine currentMetadata metadata) (next_addr js) rest'
          end
      end
  end.

(** [joinMultipleQueries] once the queries have resolved. *)
Definition joinMultipleQueries (queryResults : list query_result)
  (joinSpecs : list join_spec) (next : addr)
  : join_error + (multi_join * addr) :=
  if bool_decide (length queryResults < 2)%nat then inl TooFewQueries
  else if bool_decide ((length queryResults - 1)%nat ≠ length joinSpecs)
  then inl SpecCountMismatch
  else
    match first_failed 0 queryResults with
    | Some i => inl (QueryFailed i)
    | None =>
        match _validateDatasets 0 (map query_data queryResults) with
        | inl i => inl (DatasetNotArray i)
        | inr datasets =>
            let metadatas := map query_metadata queryResults in
            match join_steps 1 (default [] (head datasets))
                    (default VUndefined (head metadatas)) next
                    (zip (zip (tail datasets) (tail metadatas)) joinSpecs) with
            | inl e => inl e
            | inr (currentResult, currentMetadata, next') =>
                inr ({| joined := currentResult;
                        queryCount := Z.of_nat (length queryResults);
                        initialRowCounts :=
                          map (fun d => Z.of_nat (length d)) datasets;
                        finalRowCount := Z.of_nat (length currentResult);
                        combinedMetadata := currentMetadata |},
                     next')
            end
        end
    end.

End JoinMultiple.

End MultiJoin.

(** * Properties of the embedded code *)

Import DataJoin.

Section ExactJoinFacts.

Context (h : host) (conds : list condition) (transform : option transform_fn).

Local Abbreviation right_key r := (_createMultiConditionKey h r conds SideRight).
Local Abbreviation left_key l := (_createMultiConditionKey h l conds SideLeft).

Lemma build_lookup_spec (rights : list value) (k : string) :
  default [] (build_lookup h conds rights !! k)
  = filter (λ r, right_key r = k) rights.
Proof.
  unfold build_lookup.
  induction rights as [|x rights IH] using rev_ind; simpl.
  - by rewrite lookup_empty.
  - rewrite foldl_app, filter_app. simpl. unfold add_to_lookup at 1.
    destruct (decide (right_key x = k)) as [Hk|Hk].
    + rewrite Hk, lookup_insert_eq. simpl. rewrite IH.
      by rewrite filter_cons_True, filter_nil.
    + rewrite lookup_insert_ne by done. rewrite IH.
      by rewrite filter_cons_False, filter_nil, app_nil_r.
Qed.

Lemma push_merged_rows l r (st : join_state) :
  joinedRows (push_merged transform l r st)
  = joinedRows st ++ [(_mergeRows (next_addr st) l r transform).1].
Proof.
  unfold push_merged. by destruct (_mergeRows _ _ _ _).
Qed.

Lemma push_merged_matched l r (st : join_state) :
  matchedRightRows (push_merged transform l r st) = matchedRightRows st.
Proof.
  unfold push_merged. by destruct (_mergeRows _ _ _ _).
Qed.

Lemma join_candidate_mono jt l st r :
  joinedRows st ⊆ joinedRows (join_candidate conds jt transform l st r).
Proof.
  unfold join_candidate.
  destruct (_compareJoinConditions _ _ _); [|done].
  destruct (keeps_right jt); simpl; rewrite push_merged_rows;
    by apply list_subseteq_app_l.
Qed.

Lemma join_candidates_mono jt l matches st :
  joinedRows st ⊆ joinedRows (foldl (join_candidate conds jt transform l) st matches).
Proof.
  revert st. induction matches as [|r matches IH]; intros st; simpl; [done|].
  etrans; [apply join_candidate_mono|apply IH].
Qed.

Lemma join_left_row_mono jt m st l :
  joinedRows st ⊆ joinedRows (join_left_row h conds jt transform m st l).
Proof.
  unfold join_left_row. case_bool_decide.
  - apply join_candidates_mono.
  - destruct (keeps_left jt); [|done].
    rewrite push_merged_rows. by apply list_subseteq_app_l.
Qed.

Lemma join_left_rows_mono jt m lefts st :
  joinedRows st ⊆ joinedRows (foldl (join_left_row h conds jt transform m) st lefts).
Proof.
  revert st. induction lefts as [|l lefts IH]; intros st; simpl; [done|].
  etrans; [apply join_left_row_mono|apply IH].
Qed.

(** A candidate that passes the re-check is merged and pushed. *)
Lemma join_candidates_complete jt l r matches st :
  r ∈ matches →
  _compareJoinConditions conds l r = true →
  ∃ n, (_mergeRows n l r transform).1
       ∈ joinedRows (foldl (join_candidate conds jt transform l) st matches).
Proof.
  revert st. induction matches as [|x matches IH]; intros st Hin Hcmp.
  - by apply elem_of_nil in Hin.
  - apply elem_of_cons in Hin as [->|Hin]; simpl.
    + exists (next_addr st).
      apply (join_candidates_mono jt l matches).
      unfold join_candidate. rewrite Hcmp.
      destruct (keeps_right jt); simpl; rewrite push_merged_rows;
        apply elem_of_app; right; apply list_elem_of_singleton; done.
    + by apply IH.
Qed.

Lemma join_left_row_complete jt rights st l r :
  r ∈ rights →
  left_key l = right_key r →
  _compareJoinConditions conds l r = true →
  ∃ n, (_mergeRows n l r transform).1
       ∈ joinedRows (join_left_row h conds jt transform
                       (build_lookup h conds rights) st l).
Proof.
  intros Hr Hkey Hcmp. unfold join_left_row.
  rewrite build_lookup_spec.
  assert (r ∈ filter (λ r0, right_key r0 = left_key l) rights) as Hin.
  { apply list_elem_of_filter. by split. }
  case_bool_decide as Hlen.
  - by apply join_candidates_complete.
  - destruct (filter _ rights); [by apply elem_of_nil in Hin|simpl in Hlen; lia].
Qed.

Lemma join_left_rows_complete jt rights lefts st l r :
  l ∈ lefts → r ∈ rights →
  left_key l = right_key r →
  _compareJoinConditions conds l r = true →
  ∃ n, (_mergeRows n l r transform).1
       ∈ joinedRows (foldl (join_left_row h conds jt transform
                              (build_lookup h conds rights)) st lefts).
Proof.
  revert st. induction lefts as [|x lefts IH]; intros st Hl Hr Hkey Hcmp.
  - by apply elem_of_nil in Hl.
  - apply elem_of_cons in Hl as [->|Hl]; simpl.
    + destruct (join_left_row_complete jt rights st x r Hr Hkey Hcmp) as [n Hn].
      exists n. by apply (join_left_rows_mono jt _ lefts).
    + by apply IH.
Qed.

End ExactJoinFacts.

Definition plain_host : host :=
  {| dateToString := fun ms => "Date(" +:+ string_of_Z ms +:+ ")";
     toISOString := fun ms => "ISO(" +:+ string_of_Z ms +:+ ")";
     fracToString := fun q =>
       string_of_Z (Qnum q) +:+ "/" +:+ string_of_Z (Zpos (Qden q)) |}.

Section ExactJoinSound.

Context (h : host) (conds : list condition) (transform : option transform_fn).
Context (lefts rights : list value).

(** A joined row that comes from a verified (left, right) pair. *)
Definition from_matching_pair (row : value) : Prop :=
  ∃ n l r, l ∈ lefts ∧ r ∈ rights
    ∧ _compareJoinConditions conds l r = true
    ∧ row = (_mergeRows n l r transform).1.

Lemma join_candidates_sound l matches st :
  l ∈ lefts → matches ⊆ rights →
  Forall from_matching_pair (joinedRows st) →
  Forall from_matching_pair
    (joinedRows (foldl (join_candidate conds JoinInner transform l) st matches)).
Proof.
  intros Hl. revert st.
  induction matches as [|r matches IH]; intros st Hsub Hst; simpl; [done|].
  apply IH.
  - intros x Hx. apply Hsub. by right.
  - unfold join_candidate.
    destruct (_compareJoinConditions conds l r) eqn:Hcmp; [|done].
    simpl. rewrite push_merged_rows. apply Forall_app. split; [done|].
    apply Forall_singleton. exists (next_addr st), l, r.
    repeat split; try done. apply Hsub. by left.
Qed.

Lemma join_left_rows_sound ls st :
  ls ⊆ lefts →
  Forall from_matching_pair (joinedRows st) →
  Forall from_matching_pair
    (joinedRows (foldl (join_left_row h conds JoinInner transform
                          (build_lookup h conds rights)) st ls)).
Proof.
  revert st. induction ls as [|l ls IH]; intros st Hsub Hst; simpl; [done|].
  apply IH; [intros x Hx; apply Hsub; by right|].
  unfold join_left_row. rewrite build_lookup_spec.
  case_bool_decide; [|done].
  apply join_candidates_sound; [apply Hsub; by left| |done].
  intros x Hx. by apply list_elem_of_filter in Hx as [_ ?].
Qed.

(** Every row of the exact inner join is the merge of a left and a right row
    that pass [_compareJoinConditions]. *)
Lemma exact_inner_join_sound next row :
  row ∈ _performExactJoin h conds JoinInner transform next lefts rights →
  from_matching_pair row.
Proof.
  unfold _performExactJoin, exact_join_from. simpl. intros Hrow.
  eapply Forall_forall; [|exact Hrow].
  apply join_left_rows_sound; [done|]. simpl. constructor.
Qed.

End ExactJoinSound.

Section NullKeys.

Context (h : host) (conds : list condition) (transform : option transform_fn).

Lemma null_keys_agree l r :
  truthy l = true → truthy r = true →
  (∀ c, c ∈ conds →
     nullish (_getNestedProperty l (leftKey c)) = true
     ∧ nullish (_getNestedProperty r (rightKey c)) = true) →
  _createMultiConditionKey h l conds SideLeft
  = _createMultiConditionKey h r conds SideRight.
Proof.
  intros Hl Hr Hnull. unfold _createMultiConditionKey.
  rewrite Hl, Hr. simpl. f_equal.
  apply map_ext_in. intros c Hc%list_elem_of_In.
  destruct (Hnull c Hc) as [H1 H2]. unfold key_part. by rewrite H1, H2.
Qed.

Lemma null_keys_compare l r :
  truthy l = true → truthy r = true →
  (∀ c, c ∈ conds →
     comparator c = None
     ∧ nullish (_getNestedProperty l (leftKey c)) = true
     ∧ nullish (_getNestedProperty r (rightKey c)) = true) →
  _compareJoinConditions conds l r = true.
Proof.
  intros Hl Hr Hnull. unfold _compareJoinConditions.
  rewrite Hl, Hr. simpl. apply forallb_forall.
  intros c Hc%list_elem_of_In.
  destruct (Hnull c Hc) as (Hcmp & H1 & H2).
  unfold condition_holds, default_equal. by rewrite Hcmp, H1, H2.
Qed.

End NullKeys.

(** C10 (as amended): in the exact join, when every join condition has no
    custom comparator and its key path resolves to null or to an absent
    field on both a left row and a right row, each key part of both rows is
    the 'NULL' sentinel, the per-condition re-check accepts the pair, and the
    inner join contains the merge of the two rows. *)
Theorem null_and_missing_keys_are_joined
  (h : host) (conds : list condition) (transform : option transform_fn)
  (next : addr) (lefts rights : list value) (l r : value) :
  l ∈ lefts → r ∈ rights → truthy l = true → truthy r = true →
  (∀ c, c ∈ conds →
     comparator c = None
     ∧ nullish (_getNestedProperty l (leftKey c)) = true
     ∧ nullish (_getNestedProperty r (rightKey c)) = true) →
  (∀ c, c ∈ conds →
     key_part h (_getNestedProperty l (leftKey c)) = "NULL"
     ∧ key_part h (_getNestedProperty r (rightKey c)) = "NULL")
  ∧ _compareJoinConditions conds l r = true
  ∧ ∃ n, (_mergeRows n l r transform).1
         ∈ _performExactJoin h conds JoinInner transform next lefts rights.
Proof.
  intros Hl Hr Htl Htr Hnull.
  assert (_compareJoinConditions conds l r = true) as Hcmp
    by by apply null_keys_compare.
  split; [|split; [done|]].
  - intros c Hc. destruct (Hnull c Hc) as (_ & H1 & H2).
    unfold key_part. by rewrite H1, H2.
  - unfold _performExactJoin, exact_join_from. simpl.
    apply join_left_rows_complete; try done.
    apply null_keys_agree; try done.
    intros c Hc. by destruct (Hnull c Hc) as (_ & ? & ?).
Qed.

Definition id_condition : condition :=
  {| leftKey := "id"; rightKey := "id"; comparator := None |}.

Lemma null_and_missing_keys_are_joined_witness :
  (∀ c, c ∈ [id_condition] →
     key_part plain_host
       (_getNestedProperty (VObject 1 [("id", VNull)]) (leftKey c)) = "NULL"
     ∧ key_part plain_host
         (_getNestedProperty (VObject 2 [("name", VString "x")]) (rightKey c))
       = "NULL")
  ∧ _compareJoinConditions [id_condition]
      (VObject 1 [("id", VNull)]) (VObject 2 [("name", VString "x")]) = true
  ∧ ∃ n, (_mergeRows n (VObject 1 [("id", VNull)])
            (VObject 2 [("name", VString "x")]) None).1
         ∈ _performExactJoin plain_host [id_condition] JoinInner None 3%nat
             [VObject 1 [("id", VNull)]] [VObject 2 [("name", VString "x")]].
Proof.
  apply (null_and_missing_keys_are_joined plain_host [id_condition] None 3%nat).
  - apply list_elem_of_singleton. reflexivity.
  - apply list_elem_of_singleton. reflexivity.
  - reflexivity.
  - reflexivity.
  - intros c Hc. apply list_elem_of_singleton in Hc. subst c.
    repeat split; reflexivity.
Defined.

(** C10 (as stated) fails: with a comparator on the condition, a left row
    whose key is null and a right row whose key is absent both get the
    'NULL' sentinel, and the inner join leaves them out. *)
Lemma null_keys_rejected_by_comparator :
  let c := {| leftKey := "id"; rightKey := "id";
              comparator := Some (fun _ _ => VBool false) |} in
  let l := VObject 1 [("id", VNull)] in
  let r := VObject 2 [("name", VString "x")] in
  _getNestedProperty l (leftKey c) = VNull
  ∧ _getNestedProperty r (rightKey c) = VUndefined
  ∧ _createMultiConditionKey plain_host l [c] SideLeft = "NULL"
  ∧ _createMultiConditionKey plain_host r [c] SideRight = "NULL"
  ∧ _performExactJoin plain_host [c] JoinInner None 3%nat [l] [r] = [].
Proof. repeat split; vm_compute; reflexivity. Qed.

(** C1 (failing input): a left row whose composite key collides with a right
    row that fails the re-check is dropped by the left join, while the right
    join on the same input keeps its unmatched row. *)
Theorem exact_left_join_drops_collided_left_row :
  let l := VObject 1 [("id", VNumber (Int 1))] in
  let r := VObject 2 [("id", VString "1")] in
  _createMultiConditionKey plain_host l [id_condition] SideLeft
  = _createMultiConditionKey plain_host r [id_condition] SideRight
  ∧ _compareJoinConditions [id_condition] l r = false
  ∧ _performExactJoin plain_host [id_condition] JoinLeft None 3%nat [l] [r] = []
  ∧ _performExactJoin plain_host [id_condition] JoinFull None 3%nat [l] [r]
    = [VObject 3 [("id", VString "1")]]
  ∧ _performExactJoin plain_host [id_condition] JoinRight None 3%nat [l] [r]
    = [VObject 3 [("id", VString "1")]].
Proof. repeat split; vm_compute; reflexivity. Qed.

(** ** Row merge *)







Lemma lookup_set_prop_eq k v ps : lookup_prop k (set_prop k v ps) = Some v.
Proof.
  induction ps as [|[k' v'] ps IH]; simpl.
  - by rewrite bool_decide_true.
  - case_bool_decide; simpl; [by rewrite bool_decide_true|].
    by rewrite bool_decide_false.
Qed.

Lemma lookup_set_prop_ne k k' v ps :
  k' ≠ k → lookup_prop k' (set_prop k v ps) = lookup_prop k' ps.
Proof.
  intros Hne. induction ps as [|[k0 v0] ps IH]; simpl.
  - by rewrite bool_decide_false.
  - case_bool_decide as Hk; simpl.
    + subst k0. rewrite !bool_decide_false; congruence.
    + by rewrite IH.
Qed.







(** ** Best join *)

Section BestJoin.

Context (fuse : fuse_engine) (h : host) (options : join_options).
Context (data1 data2 : list value).

Local Abbreviation run := (run_strategy fuse h options data1 data2).

Local Arguments run_strategy : simpl never.

(** The joins of the strategies in order, each paired with its strategy. *)
Fixpoint strategy_runs (next : addr) (ss : list strategy)
  : option (list (strategy * join_state)) :=
  match ss with
  | [] => Some []
  | s :: ss' =>
      js ← run next s;
      rest ← strategy_runs (next_addr js) ss';
      Some ((s, js) :: rest)
  end.

Definition row_count (p : strategy * join_state) : Z :=
  Z.of_nat (length (joinedRows p.2)).

(** What one finished strategy does to the loop variables. *)
Definition absorb (st : best_state) (p : strategy * join_state) : best_state :=
  let results :=
    results_set (name p.1)
      {| count := row_count p; data := joinedRows p.2 |} (joinResults st) in
  if bestJoinCount st <? row_count p
  then {| joinResults := results; bestJoinName := Some (name p.1);
          bestJoinCount := row_count p; heap_next := next_addr p.2 |}
  else {| joinResults := results; bestJoinName := bestJoinName st;
          bestJoinCount := bestJoinCount st; heap_next := next_addr p.2 |}.

Lemma absorb_heap_next st p : heap_next (absorb st p) = next_addr p.2.
Proof. unfold absorb. by destruct (_ <? _). Qed.

Lemma try_strategies_runs ss st st' :
  try_strategies fuse h options data1 data2 st ss = Some st' →
  ∃ runs, strategy_runs (heap_next st) ss = Some runs
          ∧ runs.*1 = ss
          ∧ st' = foldl absorb st runs.
Proof.
  revert st. induction ss as [|s ss IH]; intros st Hrun; simpl in *.
  - exists []. by simplify_eq.
  - destruct (run (heap_next st) s) as [js|] eqn:Hjs.
    + assert (try_strategy fuse h options data1 data2 st s
              = Some (absorb st (s, js))) as Hstep.
      { unfold try_strategy. rewrite Hjs. reflexivity. }
      rewrite Hstep in Hrun. simpl in Hrun.
      apply IH in Hrun as (runs & Hruns & Hfst & ->).
      rewrite absorb_heap_next in Hruns. simpl in Hruns.
      exists ((s, js) :: runs). simpl. rewrite Hruns. simpl.
      split_and!; [done| |done]. f_equal. exact Hfst.
    + unfold try_strategy in Hrun. by rewrite Hjs in Hrun.
Qed.

Lemma absorb_better st p :
  bestJoinCount st < row_count p →
  bestJoinName (absorb st p) = Some (name p.1)
  ∧ bestJoinCount (absorb st p) = row_count p.
Proof.
  intros Hlt%Z.ltb_lt. unfold absorb. by rewrite Hlt.
Qed.

Lemma absorb_not_better st p :
  row_count p ≤ bestJoinCount st →
  bestJoinName (absorb st p) = bestJoinName st
  ∧ bestJoinCount (absorb st p) = bestJoinCount st.
Proof.
  intros Hle%Z.ltb_ge. unfold absorb. by rewrite Hle.
Qed.

(** The first strategy with the greatest row count leads after the loop. *)
Lemma best_after_runs (st0 : best_state) (runs : list (strategy * join_state)) :
  bestJoinCount st0 = -1 → runs ≠ [] →
  ∃ i p, runs !! i = Some p
    ∧ bestJoinName (foldl absorb st0 runs) = Some (name p.1)
    ∧ bestJoinCount (foldl absorb st0 runs) = row_count p
    ∧ (∀ j q, runs !! j = Some q → row_count q ≤ row_count p)
    ∧ (∀ j q, (j < i)%nat → runs !! j = Some q → row_count q < row_count p).
Proof.
  intros Hinit. induction runs as [|x runs IH] using rev_ind; [done|].
  intros _. rewrite foldl_app. simpl.
  destruct (decide (runs = [])) as [->|Hne].
  - simpl. destruct (absorb_better st0 x) as [Hn Hc].
    { rewrite Hinit. unfold row_count. lia. }
    exists 0%nat, x. simpl. split_and!; try done.
    + intros [|j] q Hq; simpl in Hq; [by simplify_eq|done].
    + intros j q Hj. lia.
  - destruct (IH Hne) as (i & p & Hi & Hname & Hcount & Hmax & Hfirst).
    pose proof (lookup_lt_Some _ _ _ Hi) as Hlt.
    destruct (Z_lt_le_dec (row_count p) (row_count x)) as [Hcmp|Hcmp].
    + destruct (absorb_better (foldl absorb st0 runs) x) as [Hn Hc];
        [by rewrite Hcount|].
      exists (length runs), x.
      split; [by apply list_lookup_middle|]. split_and!; try done.
      * intros j q Hq. apply lookup_snoc_Some in Hq as [[_ Hq]|[_ <-]]; [|lia].
        specialize (Hmax j q Hq). lia.
      * intros j q Hj Hq. apply lookup_snoc_Some in Hq as [[_ Hq]|[? _]]; [|lia].
        specialize (Hmax j q Hq). lia.
    + destruct (absorb_not_better (foldl absorb st0 runs) x) as [Hn Hc];
        [by rewrite Hcount|].
      exists i, p.
      split; [by rewrite lookup_app_l|]. split_and!.
      * by rewrite Hn.
      * by rewrite Hc.
      * intros j q Hq. apply lookup_snoc_Some in Hq as [[_ Hq]|[_ <-]]; [|lia].
        by apply (Hmax j).
      * intros j q Hj Hq. apply lookup_snoc_Some in Hq as [[_ Hq]|[? _]]; [|lia].
        by apply (Hfirst j).
Qed.

Lemma results_get_set_eq k v rs : results_get k (results_set k v rs) = Some v.
Proof.
  induction rs as [|[k' v'] rs IH]; simpl.
  - by rewrite bool_decide_true.
  - case_bool_decide; simpl; [by rewrite bool_decide_true|].
    by rewrite bool_decide_false.
Qed.

Lemma results_get_set_ne k k' v rs :
  k' ≠ k → results_get k' (results_set k v rs) = results_get k' rs.
Proof.
  intros Hne. induction rs as [|[k0 v0] rs IH]; simpl.
  - by rewrite bool_decide_false.
  - case_bool_decide as Hk; simpl.
    + subst k0. rewrite !bool_decide_false; congruence.
    + by rewrite IH.
Qed.

Lemma joinResults_absorb st p :
  joinResults (absorb st p)
  = results_set (name p.1)
      {| count := row_count p; data := joinedRows p.2 |} (joinResults st).
Proof. unfold absorb. by destruct (_ <? _). Qed.

(** [joinResults] holds, under each name, the rows of the last strategy of
    that name. *)
Lemma results_after_runs st0 runs n :
  joinResults st0 = [] →
  data <$> results_get n (joinResults (foldl absorb st0 runs))
  = (λ p, joinedRows p.2) <$> last (filter (λ p, name p.1 = n) runs).
Proof.
  intros Hinit. induction runs as [|x runs IH] using rev_ind; simpl.
  - by rewrite Hinit.
  - rewrite foldl_app, filter_app. simpl. rewrite joinResults_absorb.
    destruct (decide (name x.1 = n)) as [<-|Hne].
    + rewrite results_get_set_eq, filter_cons_True, filter_nil by done.
      by rewrite last_snoc.
    + rewrite results_get_set_ne by done.
      by rewrite IH, filter_cons_False, filter_nil, app_nil_r.
Qed.

Lemma filter_none {A} (P : A → Prop) `{∀ x, Decision (P x)} (l : list A) :
  Forall (λ x, ¬ P x) l → filter P l = [].
Proof.
  induction 1 as [|x l Hx _ IH]; [done|].
  by rewrite filter_cons_False.
Qed.

Lemma last_filter_at (runs : list (strategy * join_state)) i p :
  runs !! i = Some p →
  (∀ j q, (i < j)%nat → runs !! j = Some q → name q.1 ≠ name p.1) →
  last (filter (λ q, name q.1 = name p.1) runs) = Some p.
Proof.
  intros Hi Hlater.
  apply list_elem_of_split_length in Hi as (l1 & l2 & -> & ->).
  rewrite filter_app, filter_cons_True by done.
  assert (filter (λ q, name q.1 = name p.1) l2 = []) as ->.
  { apply filter_none, Forall_lookup. intros j q Hq.
    apply (Hlater (length l1 + S j)%nat); [lia|].
    rewrite lookup_app_r by lia.
    replace (length l1 + S j - length l1)%nat with (S j) by lia. done. }
  apply last_snoc.
Qed.

(** C3: when [joinQueries] runs a non-empty list of strategies to the end,
    the best join it reports carries the name and the row count of the first
    strategy, in strategy order, whose row count is the greatest of all; its
    data are the rows of that strategy provided the name is not empty and no
    later strategy bears the same name. *)
Theorem bestJoin_is_first_maximum
  (next : addr) (ss : list strategy)
  (results : list (string * strategy_result)) (best : best_join) :
  ss ≠ [] →
  joinQueries fuse h options data1 data2 next ss = Some (results, best) →
  ∃ runs i p,
    strategy_runs next ss = Some runs ∧ runs.*1 = ss
    ∧ runs !! i = Some p
    ∧ best_name best = Some (name p.1)
    ∧ best_count best = row_count p
    ∧ (∀ j q, runs !! j = Some q → row_count q ≤ row_count p)
    ∧ (∀ j q, (j < i)%nat → runs !! j = Some q → row_count q < row_count p)
    ∧ (name p.1 ≠ EmptyString →
       (∀ j q, (i < j)%nat → runs !! j = Some q → name q.1 ≠ name p.1) →
       best_data best = joinedRows p.2).
Proof.
  intros Hne Hjoin. unfold joinQueries in Hjoin.
  destruct (try_strategies _ _ _ _ _ _ ss) as [st|] eqn:Hloop;
    simpl in Hjoin; [|done].
  injection Hjoin as <- <-.
  apply try_strategies_runs in Hloop as (runs & Hruns & Hfst & ->).
  simpl in Hruns.
  destruct (best_after_runs
              {| joinResults := []; bestJoinName := None; bestJoinCount := -1;
                 heap_next := next |} runs)
    as (i & p & Hi & Hname & Hcount & Hmax & Hfirst); [done| |].
  { intros ->. by subst ss. }
  exists runs, i, p. repeat split; try done.
  intros Hnonempty Hlater. unfold select_best. simpl. rewrite Hname.
  rewrite bool_decide_false by done.
  rewrite results_after_runs by done.
  by rewrite (last_filter_at runs i p).
Qed.

End BestJoin.

(** Four strategies over the same two row sets with 3, 7, 7 and 2 joined
    rows. *)
Definition flag (b : bool) : value := VString (if b then "y" else "n").

Definition sample_left (i : nat) : value :=
  VObject i [("f1", flag (bool_decide (i ≤ 3)%nat)); ("f2", flag true);
             ("f3", flag true); ("f4", flag (bool_decide (i ≤ 2)%nat))].

Definition sample_lefts : list value := map sample_left (seq 1 7).

Definition sample_rights : list value :=
  [VObject 8 [("f1", flag true); ("f2", flag true); ("f3", flag true);
              ("f4", flag true)]].

Definition on_field (f : string) : strategy :=
  {| name := "by_" +:+ f;
     strategy_conditions :=
       [{| leftKey := f; rightKey := f; comparator := None |}];
     strategy_type := None;
     strategy_transform := None;
     fuzzyOverride := fun o => o |}.

Definition sample_strategies : list strategy :=
  [on_field "f1"; on_field "f2"; on_field "f3"; on_field "f4"].

Definition no_fuse : fuse_engine := fun _ _ _ _ _ => [].

Definition no_options : join_options :=
  {| options_joinType := None; options_fuzzyOverride := fun o => o |}.

Definition sample_join :=
  joinQueries no_fuse plain_host no_options sample_lefts sample_rights
    9%nat sample_strategies.

Definition sample_outcome
  : option (list (string * strategy_result) * best_join) :=
  Eval vm_compute in sample_join.

Lemma sample_join_outcome : sample_join = sample_outcome.
Proof. vm_compute. reflexivity. Qed.

Lemma bestJoin_is_first_maximum_witness :
  ∃ results best,
    sample_join = Some (results, best)
    ∧ map (λ r, count r.2) results = [3; 7; 7; 2]
    ∧ best_name best = Some "by_f2" ∧ best_count best = 7
    ∧ Some (best_data best) = data <$> results_get "by_f2" results
    ∧ ∃ runs i p,
        strategy_runs no_fuse plain_host no_options sample_lefts sample_rights
          9%nat sample_strategies = Some runs
        ∧ runs.*1 = sample_strategies
        ∧ runs !! i = Some p
        ∧ best_name best = Some (name p.1)
        ∧ best_count best = row_count p
        ∧ (∀ j q, runs !! j = Some q → row_count q ≤ row_count p)
        ∧ (∀ j q, (j < i)%nat → runs !! j = Some q →
                  row_count q < row_count p)
        ∧ (name p.1 ≠ EmptyString →
           (∀ j q, (i < j)%nat → runs !! j = Some q → name q.1 ≠ name p.1) →
           best_data best = joinedRows p.2).
Proof.
  rewrite sample_join_outcome. unfold sample_outcome.
  eexists _, _. split; [reflexivity|].
  split; [reflexivity|].
  split; [reflexivity|].
  split; [reflexivity|].
  split; [reflexivity|].
  eapply (bestJoin_is_first_maximum no_fuse plain_host no_options
            sample_lefts sample_rights 9%nat sample_strategies).
  - discriminate.
  - exact sample_join_outcome.
Defined.

(** ** Query signatures *)

Import Tracking.

Lemma sort_strings_permutation (l1 l2 : list string) :
  l1 ≡ₚ l2 → sort_strings l1 = sort_strings l2.
Proof.
  intros Hperm. unfold sort_strings.
  apply (Sorted_unique String.le).
  - apply Sorted_merge_sort; apply _.
  - apply Sorted_merge_sort; apply _.
  - by rewrite !merge_sort_Permutation.
Qed.



Lemma append_cons a s t : String a s +:+ t = String a (s +:+ t).
Proof. reflexivity. Qed.

Lemma append_nil_l t : EmptyString +:+ t = t.
Proof. reflexivity. Qed.














(** ** Row signatures *)

Lemma assoc_Permutation {B} (k : string) (l1 l2 : list (string * B)) :
  NoDup l1.*1 → l1 ≡ₚ l2 → assoc k l1 = assoc k l2.
Proof.
  intros Hnd Hperm. induction Hperm as [|[k1 v1] l l' Hp IH|[k1 v1] [k2 v2] l|l l' l'' Hp1 IH1 Hp2 IH2].
  - done.
  - simpl. apply NoDup_cons in Hnd as [_ Hnd]. by rewrite IH.
  - simpl. simpl in Hnd. apply NoDup_cons in Hnd as [Hnotin _].
    apply not_elem_of_cons in Hnotin as [Hne _].
    repeat case_bool_decide; congruence.
  - rewrite IH1 by done. apply IH2.
    by rewrite <- Hp1.
Qed.

Lemma assoc_fmap {A B} (g : A → B) (k : string) (l : list (string * A)) :
  assoc k (map (λ kv, (kv.1, g kv.2)) l) = g <$> assoc k l.
Proof.
  induction l as [|[k' v] l IH]; simpl; [done|].
  by case_bool_decide.
Qed.

Lemma omap_pointwise {A B} (f g : A → option B) (l : list A) :
  (∀ x, f x = g x) → omap f l = omap g l.
Proof.
  intros Hfg. induction l as [|x l IH]; [done|].
  cbn [omap list_omap]. by rewrite Hfg, IH.
Qed.

Lemma serialize_object h K a ps :
  SerializeJSONProperty h (Some K) (VObject a ps)
  = Some ("{" +:+ join ","
            (omap (λ k, match SerializeJSONProperty h (Some K) <$> assoc k ps with
                        | Some (Some str) =>
                            Some (QuoteJSONString k +:+ ":" +:+ str)
                        | _ => None
                        end) K) +:+ "}").
Proof.
  cbn [SerializeJSONProperty]. do 4 f_equal.
  apply omap_pointwise. intros k.
  by rewrite (assoc_fmap (SerializeJSONProperty h (Some K)) k ps).
Qed.

(** With an array replacer, the text of an object is decided by what is
    stored under each name. *)
Lemma serialize_object_by_lookup h K a1 a2 (d1 d2 : props) :
  (∀ k, lookup_prop k d1 = lookup_prop k d2) →
  SerializeJSONProperty h (Some K) (VObject a1 d1)
  = SerializeJSONProperty h (Some K) (VObject a2 d2).
Proof.
  intros Hsame. rewrite !serialize_object. do 4 f_equal.
  apply omap_pointwise. intros k. by rewrite Hsame.
Qed.

Local Arguments startsWith : simpl never.
Local Arguments SerializeJSONProperty : simpl never.

Lemma set_prop_fresh k v (ps : props) :
  k ∉ ps.*1 → set_prop k v ps = ps ++ [(k, v)].
Proof.
  induction ps as [|[k' v'] ps IH]; simpl; [done|].
  intros [Hne Hnotin]%not_elem_of_cons.
  rewrite bool_decide_false by done. by rewrite IH.
Qed.

Lemma public_fields_filter a (ps : props) :
  NoDup ps.*1 →
  public_fields (VObject a ps)
  = filter (λ kv, startsWith "_" kv.1 = false) ps.
Proof.
  unfold public_fields. cbn [own_props].
  induction ps as [|[k v] ps IH] using rev_ind; intros Hnd; [done|].
  rewrite fmap_app in Hnd. apply NoDup_app in Hnd as (Hnd & Hfresh & _).
  rewrite foldl_app, filter_app, IH by done. simpl.
  destruct (startsWith "_" k) eqn:Hk; simpl.
  - by rewrite filter_cons_False, filter_nil, app_nil_r
      by (cbn [fst]; rewrite Hk; discriminate).
  - rewrite filter_cons_True, filter_nil by done.
    apply set_prop_fresh. intros Hin.
    apply (Hfresh k); [|simpl; by left].
    eapply elem_of_sublist; [exact Hin|]. apply fmap_sublist, sublist_filter.
Qed.

Lemma pick_fields_by_lookup a1 a2 (ps1 ps2 : props) fields :
  (∀ k, lookup_prop k ps1 = lookup_prop k ps2) →
  pick_fields (VObject a1 ps1) fields = pick_fields (VObject a2 ps2) fields.
Proof.
  intros Hsame. unfold pick_fields. generalize (@nil (string * value)).
  induction fields as [|f fields IH]; intros acc; simpl; [done|].
  rewrite Hsame. apply IH.
Qed.

(** C6 (as amended): two rows that hold the same fields with the same values
    get the same signature whatever the order the fields were inserted in,
    under every marking strategy, provided a custom extraction function, when
    one is used, returns the same for both rows. *)
Theorem generateRowSignature_order_independent
  (h : host) (a1 a2 : addr) (ps1 ps2 : props) (opts : tracking_options) :
  NoDup ps1.*1 → ps1 ≡ₚ ps2 →
  (∀ f, markingStrategy opts = MarkCustom → customComparator opts = Some f →
        f (VObject a1 ps1) = f (VObject a2 ps2)) →
  generateRowSignature h (VObject a1 ps1) opts
  = generateRowSignature h (VObject a2 ps2) opts.
Proof.
  intros Hnd1 Hperm Hcustom.
  assert (NoDup ps2.*1) as Hnd2 by by rewrite <- Hperm.
  assert (∀ k, lookup_prop k ps1 = lookup_prop k ps2) as Hlookup
    by (intros k; by apply assoc_Permutation).
  assert (∀ K, SerializeJSONProperty h (Some K) (VObject a1 ps1)
               = SerializeJSONProperty h (Some K) (VObject a2 ps2)) as Hrow
    by (intros K; by apply serialize_object_by_lookup).
  assert (sort_strings (keys (VObject a1 ps1))
          = sort_strings (keys (VObject a2 ps2))) as Hkeys.
  { apply sort_strings_permutation. unfold keys. simpl. by rewrite Hperm. }
  unfold generateRowSignature, signature_text, dataToHash. f_equal.
  destruct (markingStrategy opts) eqn:Hstrategy; simpl.
  - destruct (hashFields opts) as [fields|]; simpl.
    + by rewrite (pick_fields_by_lookup a1 a2 ps1 ps2).
    + rewrite !public_fields_filter by done.
      unfold JSON_stringify, keys. simpl.
      rewrite (sort_strings_permutation
                 (filter (λ kv, startsWith "_" kv.1 = false) ps1).*1
                 (filter (λ kv, startsWith "_" kv.1 = false) ps2).*1)
        by by rewrite Hperm.
      apply serialize_object_by_lookup. intros k.
      apply assoc_Permutation; [|by rewrite Hperm].
      eapply sublist_NoDup; [exact Hnd1|]. apply fmap_sublist, sublist_filter.
  - by rewrite (pick_fields_by_lookup a1 a2 ps1 ps2).
  - destruct (customComparator opts) as [f|] eqn:Hf; simpl.
    + rewrite (Hcustom f) by done.
      destruct (f (VObject a2 ps2)) as [v|]; simpl; [done|].
      unfold JSON_stringify. simpl. by rewrite Hkeys, Hrow.
    + unfold JSON_stringify. simpl. by rewrite Hkeys, Hrow.
  - unfold JSON_stringify. simpl. by rewrite Hkeys, Hrow.
Qed.

Definition hash_all_fields : tracking_options :=
  {| markingStrategy := MarkHash; hashFields := None;
     compositeFields := None; customComparator := None |}.

Lemma generateRowSignature_order_independent_witness :
  generateRowSignature plain_host
    (VObject 1 [("id", VNumber (Int 7)); ("name", VString "Ada");
                ("_tracking", VNull)])
    hash_all_fields
  = generateRowSignature plain_host
      (VObject 2 [("name", VString "Ada"); ("_tracking", VNull);
                  ("id", VNumber (Int 7))])
      hash_all_fields.
Proof.
  apply generateRowSignature_order_independent.
  - apply (bool_decide_unpack _). vm_compute. reflexivity.
  - etrans; [apply Permutation_cons_append|]. reflexivity.
  - intros f Hstrategy. discriminate Hstrategy.
Defined.

(** A custom extraction function that hashes the row's own JSON text, as
    [row => JSON.stringify(row)]. *)
Definition hash_json_text : tracking_options :=
  {| markingStrategy := MarkCustom; hashFields := None;
     compositeFields := None;
     customComparator :=
       Some (λ row,
               Returns (VString (default EmptyString
                                   (JSON_stringify plain_host row None)))) |}.

(** C6 (as stated) fails: under the custom strategy two rows with the same
    fields in a different insertion order can get different signatures. *)
Lemma custom_signature_depends_on_insertion_order :
  let row1 := VObject 1 [("a", VNumber (Int 1)); ("b", VNumber (Int 2))] in
  let row2 := VObject 2 [("b", VNumber (Int 2)); ("a", VNumber (Int 1))] in
  own_props row1 ≡ₚ own_props row2
  ∧ generateRowSignature plain_host row1 hash_json_text
    = Some "f471f35e0f4c0e168b01b5d7acd30c4485f0d88b2be5aabba227969707f88c08"
  ∧ generateRowSignature plain_host row2 hash_json_text
    = Some "2f80e6f8a6e2a55e8a77f005025150ccbc63d739125213471c405ad74c2de2ee".
Proof.
  split; [apply perm_swap|]. split; vm_compute; reflexivity.
Qed.

(** ** Result tracking *)

Lemma percentage_nearest (n t : Z) :
  0 < t →
  ∃ p, percentage n t = Int p ∧ 2 * Z.abs (100 * n - p * t) ≤ t.
Proof.
  intros Ht. unfold percentage.
  destruct (Z.eqb_spec t 0) as [->|_]; [lia|].
  eexists. split; [reflexivity|].
  destruct t as [|pt|pt]; try lia.
  unfold Math_round, Qfloor, Qplus, Qmult, Qdiv, Qinv, inject_Z. simpl.
  rewrite !Pos.mul_1_l, !Pos.mul_1_r, Pos2Z.inj_mul.
  set (t := Z.pos pt) in *.
  pose proof (Z.div_mod (n * 1 * 100 * 2 + 1 * t) (t * 2)) as Hdm.
  pose proof (Z.mod_pos_bound (n * 1 * 100 * 2 + 1 * t) (t * 2)) as Hb.
  lia.
Qed.

(** The executions a tracking pass reads are completed, carry the query
    signature and have a result snapshot. *)
Lemma previous_executions_eligible table sig limit :
  Forall (λ e, query_signature e = sig ∧ status e = Completed
               ∧ is_null (results e) = false)
    (getPreviousExecutionsWithResults table sig limit).
Proof.
  unfold getPreviousExecutionsWithResults.
  assert (Forall (λ e, query_signature e = sig ∧ status e = Completed
                       ∧ is_null (results e) = false)
            (filter (λ e, query_signature e = sig ∧ status e = Completed
                          ∧ is_null (results e) = false) table)) as Hall.
  { apply Forall_forall. intros e He. by apply list_elem_of_filter in He as [? _]. }
  destruct limit as [n|]; [by apply Forall_take|done].
Qed.

Definition count_marked (new : bool) (ms : list marked_row) : Z :=
  Z.of_nat (length (filter (λ m, isNew (_tracking m) = new) ms)).

Section Marking.

Context (h : host) (now : nat → string) (opts : tracking_options).
Context (index : gmap string index_entry).

Local Abbreviation step := (mark_step h now opts index).

Lemma mark_fold_None rows : foldl step None rows = None.
Proof. induction rows as [|row rows IH]; [done|]. simpl. exact IH. Qed.

Lemma count_marked_snoc new ms m :
  count_marked new (ms ++ [m])
  = count_marked new ms + (if bool_decide (isNew (_tracking m) = new) then 1 else 0).
Proof.
  unfold count_marked. rewrite filter_app, length_app.
  case_bool_decide.
  - rewrite filter_cons_True, filter_nil by done. simpl. lia.
  - rewrite filter_cons_False, filter_nil by done. simpl. lia.
Qed.

Lemma count_marked_cons new ms m :
  count_marked new (m :: ms)
  = (if bool_decide (isNew (_tracking m) = new) then 1 else 0) + count_marked new ms.
Proof.
  unfold count_marked. case_bool_decide.
  - rewrite filter_cons_True by done. simpl. lia.
  - rewrite filter_cons_False by done. simpl. lia.
Qed.

Definition after_mark (st0 : marking_state) (m : marked_row) : marking_state :=
  {| markedResults := markedResults st0 ++ [m];
     newCount := if isNew (_tracking m) then newCount st0 + 1
                 else newCount st0;
     previouslySeenCount :=
       if isNew (_tracking m) then previouslySeenCount st0
       else previouslySeenCount st0 + 1 |}.

Lemma mark_step_unfold st0 row :
  step (Some st0) row
  = after_mark st0
      <$> mark_row h now opts index (length (markedResults st0)) row.
Proof.
  unfold mark_step. simpl.
  by destruct (mark_row h now opts index (length (markedResults st0)) row).
Qed.

Lemma mark_fold rows st0 st :
  foldl step (Some st0) rows = Some st →
  ∃ ms, markedResults st = markedResults st0 ++ ms
    ∧ length ms = length rows
    ∧ (∀ i row, rows !! i = Some row →
         ∃ m, ms !! i = Some m
              ∧ mark_row h now opts index
                  (length (markedResults st0) + i) row = Some m)
    ∧ newCount st = newCount st0 + count_marked true ms
    ∧ previouslySeenCount st = previouslySeenCount st0 + count_marked false ms.
Proof.
  revert st0. induction rows as [|row rows IH]; intros st0 Hfold.
  - simpl in Hfold. injection Hfold as <-. exists [].
    rewrite app_nil_r. unfold count_marked. simpl.
    split_and!; try done; lia.
  - cbn [foldl] in Hfold.
    destruct (mark_row h now opts index (length (markedResults st0)) row)
      as [m|] eqn:Hm.
    + rewrite mark_step_unfold, Hm in Hfold. simpl in Hfold.
      apply IH in Hfold as (ms & Hms & Hlen & Hrows & Hnew & Hseen).
      simpl in *. exists (m :: ms).
      rewrite Hms, <- app_assoc. simpl.
      split_and!; try done.
      * by rewrite Hlen.
      * intros [|i] r Hr; simpl in Hr.
        -- injection Hr as <-. exists m. by rewrite Nat.add_0_r.
        -- destruct (Hrows i r Hr) as (m' & Hm' & Hmark).
           exists m'. split; [done|].
           rewrite length_app in Hmark. simpl in Hmark.
           by replace (length (markedResults st0) + S i)%nat
             with (length (markedResults st0) + 1 + i)%nat by lia.
      * rewrite Hnew, count_marked_cons.
        destruct (isNew (_tracking m)); simpl; lia.
      * rewrite Hseen, count_marked_cons.
        destruct (isNew (_tracking m)); simpl; lia.
    + rewrite mark_step_unfold, Hm in Hfold. simpl in Hfold.
      by rewrite mark_fold_None in Hfold.
Qed.

End Marking.

(** *** When the pass returns *)

Definition is_object (v : value) : bool :=
  match v with
  | VObject _ _ => true
  | _ => false
  end.

(** The rows of an execution's results are objects. *)
Definition holds_objects (e : execution) : Prop :=
  ∀ a rows, results e = VArray a rows → Forall (λ r, is_object r = true) rows.

(** No custom extraction function is in use. *)
Definition no_custom_function (opts : tracking_options) : Prop :=
  markingStrategy opts = MarkCustom → customComparator opts = None.

Lemma generateRowSignature_returns h row opts :
  no_custom_function opts → is_object row = true →
  is_Some (generateRowSignature h row opts).
Proof.
  intros Hcustom Hobj. destruct row; try done.
  unfold generateRowSignature, signature_text, dataToHash.
  destruct (markingStrategy opts) eqn:Hstrategy; simpl.
  - destruct (hashFields opts); simpl; eauto.
  - eauto.
  - rewrite Hcustom by done. simpl. eauto.
  - eauto.
Qed.

Lemma index_rows_return h opts e rows idx :
  no_custom_function opts → Forall (λ r, is_object r = true) rows →
  is_Some (foldl (index_row h opts e) (Some idx) rows).
Proof.
  intros Hcustom Hrows. revert idx.
  induction Hrows as [|row rows Hrow _ IH]; intros idx; simpl; [eauto|].
  destruct (generateRowSignature_returns h row opts Hcustom Hrow)
    as [signature ->].
  simpl. destruct (idx !! signature); apply IH.
Qed.

Lemma buildPreviousResultsIndex_returns h opts previous :
  no_custom_function opts → Forall holds_objects previous →
  is_Some (buildPreviousResultsIndex h opts previous).
Proof.
  intros Hcustom Hprevious. unfold buildPreviousResultsIndex.
  generalize (∅ : gmap string index_entry).
  induction Hprevious as [|e previous He _ IH]; intros idx; simpl; [eauto|].
  unfold index_execution at 2.
  destruct (results e) as [| | | | | |a rows|] eqn:Hresults; try apply IH.
  destruct (index_rows_return h opts e rows idx Hcustom (He a rows Hresults))
    as [idx' ->].
  apply IH.
Qed.

Lemma mark_rows_return h now opts index rows st :
  no_custom_function opts → Forall (λ r, is_object r = true) rows →
  is_Some (foldl (mark_step h now opts index) (Some st) rows).
Proof.
  intros Hcustom Hrows. revert st.
  induction Hrows as [|row rows Hrow _ IH]; intros st; simpl; [eauto|].
  unfold mark_row.
  destruct (generateRowSignature_returns h row opts Hcustom Hrow)
    as [signature ->].
  simpl. apply IH.
Qed.

(** A tracking pass over rows that are objects, against a history of such
    rows and without a custom extraction function, returns. *)
Lemma processResultTracking_returns h table now opts current sql params :
  no_custom_function opts →
  Forall holds_objects table →
  Forall (λ r, is_object r = true) current →
  is_Some (processResultTracking h table now opts current sql params).
Proof.
  intros Hcustom Htable Hcurrent. unfold processResultTracking.
  destruct (buildPreviousResultsIndex_returns h opts
              (getPreviousExecutionsWithResults table
                 (generateQuerySignature h sql params) (Some 50%nat)) Hcustom)
    as [index ->].
  { unfold getPreviousExecutionsWithResults.
    apply Forall_take, Forall_forall. intros e He.
    apply list_elem_of_filter in He as [_ He].
    by apply (proj1 (Forall_forall _ _) Htable). }
  simpl.
  destruct (mark_rows_return h now opts index current
              {| markedResults := []; newCount := 0;
                 previouslySeenCount := 0 |} Hcustom Hcurrent) as [st ->].
  simpl. eauto.
Qed.

(** How the [_tracking] object of a row follows from the index. *)
Definition marked_from_index (index : gmap string index_entry)
  (now_read : string) (rowSignature : string) (t : tracking_info) : Prop :=
  signature t = rowSignature
  ∧ match index !! rowSignature with
    | Some indexed =>
        isNew t = false
        ∧ occurrenceCount t = entry_count indexed + 1
        ∧ firstSeen t = entry_firstSeen indexed
        ∧ lastSeenBefore t = entry_lastSeen indexed
        ∧ executionIds t = entry_executionIds indexed
    | None =>
        isNew t = true
        ∧ occurrenceCount t = 1
        ∧ firstSeen t = VString now_read
    end.

(** C5: a tracking pass that returns reads only completed executions that
    share the query signature and have results; each current row, in order,
    is marked from the index built over them: when its signature is indexed,
    not new, with the indexed count plus one and the indexed first-seen,
    last-seen and execution ids; otherwise new, with count one and the
    current time as first-seen; the summary counts both kinds and, for a
    non-empty row set, reports an integer nearest to the percentage of new
    rows. *)
Theorem processResultTracking_marks_rows
  (h : host) (table : list execution) (now : nat → string)
  (opts : tracking_options) (current : list value) (sql : string)
  (params : value) (marked : list marked_row) (stats : tracking_stats) :
  processResultTracking h table now opts current sql params
  = Some (marked, stats) →
  let previous :=
    getPreviousExecutionsWithResults table
      (generateQuerySignature h sql params) (Some 50%nat) in
  ∃ index,
    buildPreviousResultsIndex h opts previous = Some index
    ∧ Forall (λ e, query_signature e = generateQuerySignature h sql params
                   ∧ status e = Completed ∧ is_null (results e) = false)
        previous
    ∧ length marked = length current
    ∧ (∀ i row, current !! i = Some row →
         ∃ rowSignature m,
           generateRowSignature h row opts = Some rowSignature
           ∧ marked !! i = Some m
           ∧ currentRow m = row
           ∧ marked_from_index index (now i) rowSignature (_tracking m))
    ∧ newRows stats = count_marked true marked
    ∧ previouslySeenRows stats = count_marked false marked
    ∧ (current ≠ [] →
       ∃ p, newRowPercentage stats = Int p
            ∧ 2 * Z.abs (100 * newRows stats - p * Z.of_nat (length current))
              ≤ Z.of_nat (length current)).
Proof.
  intros Hrun previous. unfold processResultTracking in Hrun.
  fold previous in Hrun.
  destruct (buildPreviousResultsIndex h opts previous) as [index|] eqn:Hindex;
    simpl in Hrun; [|done].
  destruct (foldl (mark_step h now opts index) _ current) as [st|] eqn:Hfold;
    simpl in Hrun; [|done].
  injection Hrun as <- <-.
  apply mark_fold in Hfold as (ms & Hms & Hlen & Hrows & Hnew & Hseen).
  cbn [markedResults newCount previouslySeenCount app length] in *.
  subst ms.
  exists index. split_and!.
  - done.
  - apply previous_executions_eligible.
  - done.
  - intros i row Hrow. destruct (Hrows i row Hrow) as (m & Hm & Hmark).
    unfold mark_row in Hmark.
    destruct (generateRowSignature h row opts) as [rowSignature|];
      simpl in Hmark; [|done].
    injection Hmark as <-. exists rowSignature. eexists.
    split_and!; try done.
    unfold marked_from_index. simpl.
    by destruct (index !! rowSignature).
  - cbn [newRows]. lia.
  - cbn [previouslySeenRows]. lia.
  - intros Hne. cbn [newRowPercentage newRows].
    apply percentage_nearest. destruct current; [done|simpl; lia].
Qed.

(** A history with one completed execution of the query, which returned the
    row with id 1 twice, and one failed execution. *)
Definition sample_sql : string := "SELECT id FROM orders WHERE region = :region".

Definition sample_params : value := VObject 1 [("region", VString "EU")].

Definition sample_history : list execution :=
  [ {| execution_id := VString "run-2";
       query_signature :=
         generateQuerySignature plain_host sample_sql sample_params;
       status := Failed;
       started_at := VString "2024-05-02T08:00:00.000Z";
       completed_at := VNull;
       results := VNull |};
    {| execution_id := VString "run-1";
       query_signature :=
         generateQuerySignature plain_host sample_sql sample_params;
       status := Completed;
       started_at := VString "2024-05-01T08:00:00.000Z";
       completed_at := VString "2024-05-01T08:00:05.000Z";
       results :=
         VArray 2 [VObject 3 [("id", VNumber (Int 1))];
                   VObject 4 [("id", VNumber (Int 1))]] |} ].

Definition sample_current : list value :=
  [VObject 5 [("id", VNumber (Int 1))]; VObject 6 [("id", VNumber (Int 2))]].

Definition sample_now (position : nat) : string := "2024-05-03T08:00:00.000Z".

Definition sample_tracking
  : option (list marked_row * tracking_stats) :=
  processResultTracking plain_host sample_history sample_now hash_all_fields
    sample_current sample_sql (VObject 7 [("region", VString "US")]).

Definition sample_tracking_outcome
  : option (list marked_row * tracking_stats) :=
  Eval vm_compute in sample_tracking.

Lemma sample_tracking_runs : sample_tracking = sample_tracking_outcome.
Proof. vm_compute. reflexivity. Qed.

Lemma processResultTracking_marks_rows_witness :
  ∃ marked stats,
    sample_tracking = Some (marked, stats)
    ∧ map (λ m, (isNew (_tracking m), occurrenceCount (_tracking m),
                 executionIds (_tracking m))) marked
      = [(false, 3, [VString "run-1"; VString "run-1"]); (true, 1, [])]
    ∧ newRowPercentage stats = Int 50
    ∧ ∃ index,
        buildPreviousResultsIndex plain_host hash_all_fields
          (getPreviousExecutionsWithResults sample_history
             (generateQuerySignature plain_host sample_sql
                (VObject 7 [("region", VString "US")])) (Some 50%nat))
        = Some index
        ∧ Forall (λ e, query_signature e
                       = generateQuerySignature plain_host sample_sql
                           (VObject 7 [("region", VString "US")])
                       ∧ status e = Completed ∧ is_null (results e) = false)
            (getPreviousExecutionsWithResults sample_history
               (generateQuerySignature plain_host sample_sql
                  (VObject 7 [("region", VString "US")])) (Some 50%nat))
        ∧ length marked = length sample_current
        ∧ (∀ i row, sample_current !! i = Some row →
             ∃ rowSignature m,
               generateRowSignature plain_host row hash_all_fields
               = Some rowSignature
               ∧ marked !! i = Some m
               ∧ currentRow m = row
               ∧ marked_from_index index (sample_now i) rowSignature
                   (_tracking m))
        ∧ newRows stats = count_marked true marked
        ∧ previouslySeenRows stats = count_marked false marked
        ∧ (sample_current ≠ [] →
           ∃ p, newRowPercentage stats = Int p
                ∧ 2 * Z.abs (100 * newRows stats
                             - p * Z.of_nat (length sample_current))
                  ≤ Z.of_nat (length sample_current)).
Proof.
  rewrite sample_tracking_runs. unfold sample_tracking_outcome.
  eexists _, _. split; [reflexivity|].
  split; [reflexivity|]. split; [reflexivity|].
  apply (processResultTracking_marks_rows plain_host sample_history sample_now
           hash_all_fields sample_current sample_sql
           (VObject 7 [("region", VString "US")])).
  exact sample_tracking_runs.
Defined.

(** ** Result store *)

Import ResultStore.

(** Deep equality of row sets: the same structure and the same primitive
    values, whatever the heap cells and the order of the properties. *)
#[warnings="-register-all"]
Inductive deep_equal : value → value → Prop :=
| deep_undefined : deep_equal VUndefined VUndefined
| deep_null : deep_equal VNull VNull
| deep_bool b : deep_equal (VBool b) (VBool b)
| deep_nan : deep_equal (VNumber NaN) (VNumber NaN)
| deep_number x y : Qeq x y → deep_equal (VNumber (Num x)) (VNumber (Num y))
| deep_string s : deep_equal (VString s) (VString s)
| deep_date a1 a2 ms : deep_equal (VDate a1 ms) (VDate a2 ms)
| deep_array a1 a2 xs ys :
    Forall2 deep_equal xs ys → deep_equal (VArray a1 xs) (VArray a2 ys)
| deep_object a1 a2 ps qs :
    (∀ k, option_Forall2 deep_equal (lookup_prop k ps) (lookup_prop k qs)) →
    deep_equal (VObject a1 ps) (VObject a2 qs).

Fixpoint deep_equal_refl (v : value) : deep_equal v v :=
  match v with
  | VUndefined => deep_undefined
  | VNull => deep_null
  | VBool b => deep_bool b
  | VNumber NaN => deep_nan
  | VNumber (Num q) => deep_number q q (Qeq_refl q)
  | VString s => deep_string s
  | VDate a ms => deep_date a a ms
  | VArray a xs =>
      deep_array a a xs xs
        ((fix all (l : list value) : Forall2 deep_equal l l :=
            match l with
            | [] => List.Forall2_nil deep_equal
            | x :: l' =>
                List.Forall2_cons x x (deep_equal_refl x) (all l')
            end) xs)
  | VObject a ps =>
      deep_object a a ps ps
        (fun k =>
           (fix all (l : props)
              : option_Forall2 deep_equal (lookup_prop k l) (lookup_prop k l) :=
              match l with
              | [] => None_Forall2 deep_equal
              | (k', x) :: l' =>
                  match bool_decide (k' = k) as b
                    return option_Forall2 deep_equal
                             (if b then Some x else lookup_prop k l')
                             (if b then Some x else lookup_prop k l')
                  with
                  | true => Some_Forall2 deep_equal x x (deep_equal_refl x)
                  | false => all l'
                  end
              end) ps)
  end.

Section StoreFacts.

Context (h : host) (p : platform) (config : store_config).

Lemma insert_row_lookup t r t' :
  insert_row t r = Some t' → t' !! row_id r = Some r.
Proof.
  unfold insert_row. destruct (t !! row_id r); [done|].
  intros [= <-]. apply lookup_insert_eq.
Qed.

(** What [storeResult] writes, spelled out. *)
Lemma storeResult_row uuid now now_ms st rd st1 rc :
  storeResult h p config uuid now now_ms st rd = Some (st1, rc) →
  ∃ r,
    table st1 !! stored_id rc = Some r
    ∧ stored_id rc = default uuid (id rd)
    ∧ storage r = (storage_format h p config (input_data rd)).1.1.1
    ∧ (∀ text, (storage_format h p config (input_data rd)).1.1.2 = Some text →
               data r = jsonb_column p text ∧ is_Some (data r))
    ∧ ((storage_format h p config (input_data rd)).1.1.2 = None →
       data r = None)
    ∧ data_large r = (storage_format h p config (input_data rd)).1.2
    ∧ is_compressed r = (storage_format h p config (input_data rd)).2
    ∧ row_count r = rowCount_of (input_data rd)
    ∧ resultsCache st1
      = cache_set (resultsCacheSize config) (stored_id rc)
          {| result_id := stored_id rc;
             result_queryId := queryId rd;
             result_executionId := executionId rd;
             result_resultType := default "single" (resultType rd);
             result_rowCount := rowCount_of (input_data rd);
             result_data := input_data rd;
             result_metadata := metadata rd;
             fromCache := false |}
          (resultsCache st).
Proof.
  unfold storeResult.
  destruct (storage_format h p config (input_data rd))
    as [[[storageType jsonText] dataLarge] isCompressed].
  intros Hstore.
  apply bind_Some in Hstore as (stored & Hstored & Hstore).
  apply bind_Some in Hstore as (meta & Hmeta & Hstore).
  apply bind_Some in Hstore as (t' & Hinsert & Hstore).
  injection Hstore as <- <-. simpl.
  apply insert_row_lookup in Hinsert. simpl in Hinsert.
  eexists. split; [exact Hinsert|]. simpl.
  split_and!; try done.
  - intros text ->. simpl in Hstored.
    destruct (jsonb_column p text) as [v|]; simpl in Hstored; [|done].
    injection Hstored as <-. split; [done|by eexists].
  - intros ->. by injection Hstored as <-.
Qed.

End StoreFacts.


Lemma assoc_cache_without k k' (c : cache) :
  assoc k (cache_without k' c) = if bool_decide (k' = k) then None else assoc k c.
Proof.
  unfold cache_without. induction c as [|[k0 v] c IH]; simpl.
  - by case_bool_decide.
  - destruct (decide (k0 = k')) as [->|Hne].
    + rewrite filter_cons_False by (simpl; tauto). rewrite IH.
      by repeat case_bool_decide.
    + rewrite filter_cons_True by done. simpl. rewrite IH.
      repeat case_bool_decide; congruence.
Qed.

(** Right after a store, the cache holds the stored entry under its id, or
    nothing when it has no room. *)
Lemma assoc_cache_set max k v (c : cache) :
  assoc k (cache_set max k v c) = if bool_decide (max = 0%nat) then None else Some v.
Proof.
  unfold cache_set. destruct max as [|max]; simpl; [done|].
  by rewrite bool_decide_true.
Qed.

(** C2: after a successful [storeResult] of a row set, [getResultById] on the
    returned id yields data deep-equal to the row set, whether the entry is
    still in the memory cache or has left it and the row is read back from
    the json tier, the large uncompressed tier or the large compressed tier,
    provided that on the JSON text of this row set the platform is lossless:
    [JSON.parse] and the JSONB column give back a deep-equal value, the
    buffer conversion gives back the text, and [gunzipSync] undoes
    [gzipSync]. *)
Theorem getResultById_returns_stored_rows
  (h : host) (p : platform) (config : store_config)
  (uuid now : string) (now_ms : Z) (st st1 st2 : store_state)
  (rd : result_input) (rc : receipt) :
  let rows := input_data rd in
  let text := dataString_of h rows in
  (∃ parsed, JSON_parse p text = Some parsed ∧ deep_equal parsed rows) →
  (∀ v, jsonb_column p text = Some v → deep_equal v rows) →
  Buffer_toString p (Buffer_from p text) = text →
  gunzipSync p (gzipSync p (Buffer_from p text)) = Some (Buffer_from p text) →
  storeResult h p config uuid now now_ms st rd = Some (st1, rc) →
  table st2 = table st1 →
  (assoc (stored_id rc) (resultsCache st2) = None
   ∨ assoc (stored_id rc) (resultsCache st2)
     = assoc (stored_id rc) (resultsCache st1)) →
  ∃ st3 fetched,
    getResultById p config st2 (stored_id rc) = Some (st3, fetched)
    ∧ result_id fetched = stored_id rc
    ∧ deep_equal (result_data fetched) rows.
Proof.
  intros rows text (parsed & Hparse & Hparsed) Hjsonb Hbuffer Hgzip
    Hstore Htable Hcache. subst rows text.
  destruct (storeResult_row h p config _ _ _ _ _ _ _ Hstore)
    as (r & Hr & Hid & Hstorage & Hjson & Hnojson & Hlarge & Hcomp & _ & Hc1).
  assert (row_id r = stored_id rc) as Hrid.
  { unfold storeResult in Hstore.
    destruct (storage_format h p config (input_data rd)) as [[[? ?] ?] ?].
    apply bind_Some in Hstore as (? & _ & Hstore).
    apply bind_Some in Hstore as (? & _ & Hstore).
    apply bind_Some in Hstore as (t' & Hinsert & Hstore).
    injection Hstore as <- <-. simpl in *.
    apply insert_row_lookup in Hinsert. simpl in Hinsert.
    rewrite Hinsert in Hr. by injection Hr as <-. }
  assert (∀ e, assoc (stored_id rc) (resultsCache st1) = Some e →
               result_id e = stored_id rc
               ∧ result_data e = input_data rd) as Hentry.
  { intros e. rewrite Hc1, assoc_cache_set.
    case_bool_decide; [done|]. by intros [= <-]. }
  unfold getResultById, cache_get.
  destruct (assoc (stored_id rc) (resultsCache st2)) as [e|] eqn:Hhit.
  - destruct Hcache as [|Hsame]; [done|].
    destruct (Hentry e) as [He1 He2]; [by rewrite <- Hsame|].
    eexists _, _. split; [reflexivity|]. simpl.
    split; [done|]. rewrite He2. apply deep_equal_refl.
  - rewrite Htable, Hr. simpl.
    assert (∃ parsedData, parse_data p r = Some parsedData
                          ∧ deep_equal parsedData (input_data rd))
      as (d & Hd & Hdeep).
    { unfold parse_data. unfold storage_format in *.
      destruct (compressionThreshold config
                <? strlen (dataString_of h (input_data rd))).
      - destruct (compressionEnabled config); simpl in *;
          rewrite Hstorage, Hlarge, Hcomp; simpl.
        + rewrite Hgzip. simpl. rewrite Hbuffer. by exists parsed.
        + rewrite Hbuffer. by exists parsed.
      - simpl in *. rewrite Hstorage.
        destruct (Hjson _ eq_refl) as [Hdata [v Hv]].
        rewrite Hv. simpl. exists v. split; [done|].
        apply Hjsonb. by rewrite <- Hdata. }
    rewrite Hd. simpl. eexists _, _. split; [reflexivity|]. simpl.
    by split.
Qed.

(** *** A sample platform *)

(** A reader of JSON texts with integers, strings, arrays and objects; heap
    cells are numbered in the order they are met. *)
Definition hex_value (a : ascii) : option nat :=
  let n := nat_of_ascii a in
  if ((48 <=? n) && (n <=? 57))%nat then Some (n - 48)%nat
  else if ((97 <=? n) && (n <=? 102))%nat then Some (n - 87)%nat
  else None.

Definition unescape (e : ascii) : option ascii :=
  let n := nat_of_ascii e in
  if (n =? 34)%nat || (n =? 92)%nat || (n =? 47)%nat then Some e
  else if (n =? 98)%nat then Some (ascii_of_nat 8)
  else if (n =? 116)%nat then Some (ascii_of_nat 9)
  else if (n =? 110)%nat then Some (ascii_of_nat 10)
  else if (n =? 102)%nat then Some (ascii_of_nat 12)
  else if (n =? 114)%nat then Some (ascii_of_nat 13)
  else None.

Definition prepend (c : ascii) (r : option (string * string))
  : option (string * string) :=
  match r with
  | Some (str, rest) => Some (String c str, rest)
  | None => None
  end.

(** The characters of a string literal after its opening quote, and what
    follows the closing quote. *)
Fixpoint read_string (s : string) : option (string * string) :=
  match s with
  | EmptyString => None
  | String a s1 =>
      if (nat_of_ascii a =? 34)%nat then Some (EmptyString, s1)
      else if (nat_of_ascii a =? 92)%nat then
        match s1 with
        | String e s2 =>
            if (nat_of_ascii e =? 117)%nat then
              match s2 with
              | String _ (String _ (String h1 (String h2 s3))) =>
                  match hex_value h1, hex_value h2 with
                  | Some x, Some y =>
                      prepend (ascii_of_nat (16 * x + y)) (read_string s3)
                  | _, _ => None
                  end
              | _ => None
              end
            else
              match unescape e with
              | Some c => prepend c (read_string s2)
              | None => None
              end
        | EmptyString => None
        end
      else prepend a (read_string s1)
  end.

Fixpoint skip_digits (s : string) : string :=
  match s with
  | String a s' => if bool_decide (is_Some (digit_of a)) then skip_digits s' else s
  | EmptyString => EmptyString
  end.

Fixpoint read_value (fuel : nat) (next : addr) (s : string)
  : option (value * addr * string) :=
  match fuel with
  | O => None
  | S fuel' =>
      match trimStart s with
      | EmptyString => None
      | String c rest =>
          let n := nat_of_ascii c in
          if (n =? 34)%nat then
            match read_string rest with
            | Some (str, r) => Some (VString str, next, r)
            | None => None
            end
          else if (n =? 91)%nat then
            match read_elements fuel' (S next) rest true with
            | Some (elems, next', r) => Some (VArray next elems, next', r)
            | None => None
            end
          else if (n =? 123)%nat then
            match read_members fuel' (S next) rest true with
            | Some (members, next', r) => Some (VObject next members, next', r)
            | None => None
            end
          else if startsWith "null" (String c rest)
          then Some (VNull, next, substring 4 (strlen (String c rest)) (String c rest))
          else if startsWith "true" (String c rest)
          then Some (VBool true, next,
                     substring 4 (strlen (String c rest)) (String c rest))
          else if startsWith "false" (String c rest)
          then Some (VBool false, next,
                     substring 5 (strlen (String c rest)) (String c rest))
          else if (n =? 45)%nat && starts_with_digit rest
          then Some (VNumber (Int (- digits_go 0 rest)), next, skip_digits rest)
          else if starts_with_digit (String c rest)
          then Some (VNumber (Int (digits_go 0 (String c rest))), next,
                     skip_digits rest)
          else None
      end
  end
with read_elements (fuel : nat) (next : addr) (s : string) (first : bool)
  : option (list value * addr * string) :=
  match fuel with
  | O => None
  | S fuel' =>
      match trimStart s with
      | String c rest =>
          if first && (nat_of_ascii c =? 93)%nat then Some ([], next, rest)
          else
            match read_value fuel' next (String c rest) with
            | Some (v, next', r) =>
                match trimStart r with
                | String d r' =>
                    if (nat_of_ascii d =? 44)%nat then
                      match read_elements fuel' next' r' false with
                      | Some (vs, next'', r'') => Some (v :: vs, next'', r'')
                      | None => None
                      end
                    else if (nat_of_ascii d =? 93)%nat then Some ([v], next', r')
                    else None
                | EmptyString => None
                end
            | None => None
            end
      | EmptyString => None
      end
  end
with read_members (fuel : nat) (next : addr) (s : string) (first : bool)
  : option (props * addr * string) :=
  match fuel with
  | O => None
  | S fuel' =>
      match trimStart s with
      | String c rest =>
          if first && (nat_of_ascii c =? 125)%nat then Some ([], next, rest)
          else if (nat_of_ascii c =? 34)%nat then
            match read_string rest with
            | Some (key, r) =>
                match trimStart r with
                | String colon r1 =>
                    if (nat_of_ascii colon =? 58)%nat then
                      match read_value fuel' next r1 with
                      | Some (v, next', r2) =>
                          match trimStart r2 with
                          | String d r3 =>
                              if (nat_of_ascii d =? 44)%nat then
                                match read_members fuel' next' r3 false with
                                | Some (ms, next'', r4) =>
                                    Some ((key, v) :: ms, next'', r4)
                                | None => None
                                end
                              else if (nat_of_ascii d =? 125)%nat
                              then Some ([(key, v)], next', r3)
                              else None
                          | EmptyString => None
                          end
                      | None => None
                      end
                    else None
                | EmptyString => None
                end
            | None => None
            end
          else None
      | EmptyString => None
      end
  end.

Definition read_json (s : string) : option value :=
  match read_value (2 * String.length s + 2) 0%nat s with
  | Some (v, _, rest) =>
      if bool_decide (trimStart rest = EmptyString) then Some v else None
  | None => None
  end.

(** The inverse of [SHA256.utf8] on the bytes it produces. *)
Fixpoint utf8_decode (bytes : list Z) : string :=
  match bytes with
  | [] => EmptyString
  | b :: rest =>
      if b <? 128 then String (ascii_of_nat (Z.to_nat b)) (utf8_decode rest)
      else
        match rest with
        | b2 :: rest' =>
            String (ascii_of_nat
                      (Z.to_nat (Z.lor (Z.shiftl (Z.land b 3) 6) (Z.land b2 63))))
              (utf8_decode rest')
        | [] => EmptyString
        end
  end.

(** A stand-in for zlib: bytes framed by the two magic bytes of gzip. *)
Definition framed_gzip (bytes : list Z) : list Z := 31 :: 139 :: bytes.

Definition framed_gunzip (bytes : list Z) : option (list Z) :=
  match bytes with
  | 31 :: 139 :: rest => Some rest
  | _ => None
  end.

Definition sample_platform : platform :=
  {| JSON_parse := read_json;
     Buffer_from := SHA256.utf8;
     Buffer_toString := utf8_decode;
     gzipSync := framed_gzip;
     gunzipSync := framed_gunzip;
     jsonb_column := read_json |}.

Ltac solve_deep_equal :=
  lazymatch goal with
  | |- deep_equal (VObject _ _) (VObject _ _) =>
      apply deep_object; intros ?; cbn [assoc];
      repeat case_bool_decide; solve_deep_equal
  | |- deep_equal (VArray _ _) (VArray _ _) =>
      apply deep_array; solve_deep_equal
  | |- Forall2 _ [] [] => apply List.Forall2_nil
  | |- Forall2 _ (_ :: _) (_ :: _) =>
      apply List.Forall2_cons; solve_deep_equal
  | |- option_Forall2 _ (Some _) (Some _) =>
      apply Some_Forall2; solve_deep_equal
  | |- option_Forall2 _ None None => apply None_Forall2
  | |- deep_equal (VNumber _) _ =>
      first [apply deep_number; reflexivity | apply deep_nan]
  | |- deep_equal _ _ => constructor
  end.

Definition sample_rows : value :=
  VArray 10 [VObject 11 [("id", VNumber (Int 1)); ("name", VString "Ada")];
             VObject 12 [("id", VNumber (Int 2)); ("name", VString "Grace")]].

Definition sample_input : result_input :=
  {| id := Some "result-1";
     queryId := VString "orders";
     executionId := VString "run-1";
     resultType := None;
     input_data := sample_rows;
     metadata := VUndefined;
     tags := VUndefined;
     ttlSeconds := Some 60 |}.

Definition empty_store : store_state := {| table := ∅; resultsCache := [] |}.

(** A threshold of 16 puts the sample rows in the large tier. *)
Definition small_threshold : store_config :=
  {| resultsCacheSize := 100; compressionThreshold := 16;
     compressionEnabled := true |}.

Definition sample_store :=
  storeResult plain_host sample_platform small_threshold "generated-id"
    "2024-05-03T08:00:00.000Z" 1714723200000 empty_store sample_input.


Lemma getResultById_returns_stored_rows_witness :
  ∃ st1 rc,
    sample_store = Some (st1, rc)
    ∧ ∃ st3 fetched,
        getResultById sample_platform small_threshold
          {| table := table st1; resultsCache := [] |} (stored_id rc)
        = Some (st3, fetched)
        ∧ result_id fetched = stored_id rc
        ∧ deep_equal (result_data fetched) (input_data sample_input).
Proof.
  eexists _, _. split; [vm_compute; reflexivity|].
  eapply (getResultById_returns_stored_rows plain_host sample_platform
            small_threshold "generated-id" "2024-05-03T08:00:00.000Z"
            1714723200000 empty_store).
  - eexists. split; [vm_compute; reflexivity|]. vm_compute. solve_deep_equal.
  - intros v Hv. vm_compute in Hv. injection Hv as <-. vm_compute.
    solve_deep_equal.
  - vm_compute. reflexivity.
  - vm_compute. reflexivity.
  - vm_compute. reflexivity.
  - reflexivity.
  - left. reflexivity.
Defined.

(** ** Fuzzy join *)



Lemma same_value_zero_trans u v w :
  same_value_zero u v = true → same_value_zero v w = true →
  same_value_zero u w = true.
Proof.
  destruct u as [| |b|[|q]|s|a ms|a xs|a ps],
           v as [| |b'|[|q']|s'|a' ms'|a' xs'|a' ps']; simpl; try done;
    destruct w as [| |b''|[|q'']|s''|a'' ms''|a'' xs''|a'' ps'']; simpl;
    try done;
    try (intros H1%bool_decide_eq_true H2%bool_decide_eq_true;
         apply bool_decide_eq_true; congruence).
  apply Qeq_bool_trans.
Qed.








Lemma map_set_fresh (m : row_map) k v :
  map_get m k = None → map_set m k v = m ++ [(k, v)].
Proof.
  induction m as [|[k0 v0] m IH]; simpl; [done|].
  destruct (same_value_zero k0 k); [done|]. intros Hm. by rewrite IH.
Qed.

Lemma map_set_length (m : row_map) k v :
  is_Some (map_get m k) → length (map_set m k v) = length m.
Proof.
  induction m as [|[k0 v0] m IH]; simpl; [by intros [? ?]|].
  destruct (same_value_zero k0 k); [done|]. intros Hm. simpl. by rewrite IH.
Qed.



Section FuzzyMatching.

Context (fuse : fuse_engine) (h : host) (rightDataset : list value).
Context (joinConditions : list condition) (joinType : join_type).
Context (transform : option transform_fn) (fuzzyOptions : fuzzy_options).

(** Every match that the searches of one left row found, with the condition
    that found it, in the order the join reads them. *)
Definition found (cms : list (condition * list fuse_match))
  : list (condition * fuse_match) :=
  cm ← cms; pair cm.1 <$> cm.2.




Local Abbreviation record := (λ m (x : condition * fuse_match),
                              record_match fuzzyOptions x.1 m x.2).










End FuzzyMatching.

(** *** Sorting by score *)









Section FuzzyAcceptance.

Context (fuse : fuse_engine) (h : host) (rightDataset : list value).
Context (joinConditions : list condition) (joinType : join_type).
Context (transform : option transform_fn) (fuzzyOptions : fuzzy_options).

Local Abbreviation patterns_of :=
  (searchPatterns joinConditions).
Local Abbreviation search_for :=
  (search fuse h rightDataset joinConditions fuzzyOptions).
Local Abbreviation matches_of :=
  (conditionMatches fuse h rightDataset joinConditions fuzzyOptions).
Local Abbreviation rows_of :=
  (matchingRows joinConditions fuzzyOptions).







End FuzzyAcceptance.

(** *** A worked fuzzy join *)

(** A search engine given by a table from the key searched and the pattern
    to the matches. *)
Definition table_fuse (table : list (string * string * list fuse_match))
  : fuse_engine :=
  λ _ _ _ key pattern,
    from_option snd []
      (find (λ e, String.eqb e.1.1 key && String.eqb e.1.2 pattern) table).

Definition ann : value :=
  VObject 1 [("name", VString "Ann"); ("city", VString "Oslo")].
Definition anna : value :=
  VObject 2 [("name", VString "Anna"); ("city", VString "Bergen")].



Definition scored_fuse : fuse_engine :=
  table_fuse
    [("name", "Anne", [ {| item := ann; score := 1 # 10 |};
                        {| item := anna; score := 1 # 20 |} ]);
     ("city", "Olso", [ {| item := ann; score := 3 # 10 |} ])].

Definition with_scores (or_logic : bool) (limit : Q) : fuzzy_options :=
  {| enabled := true; threshold := limit; ignoreLocation := true;
     useExtendedSearch := true; minMatchCharLength := 2; distance := 100;
     includeMatches := false; sortFuzzyResults := true; maxResultsPerKey := 5;
     findAllMatches := false; isCaseSensitive := false; shouldSort := true;
     useOrLogic := or_logic; includeScoreInResult := true |}.




(* ================================================================== *)
(** * Further properties of the join engine                            *)
(* ================================================================== *)

(** ** The exact join, row by row *)

(** A join key that is a primitive value or a date. *)
Definition scalar (v : value) : bool :=
  match v with
  | VArray _ _ | VObject _ _ => false
  | _ => true
  end.

Lemma number_toString_proper h x y :
  number_eqb x y = true → number_toString h x = number_toString h y.
Proof.
  destruct x as [|p], y as [|q]; simpl; try done.
  intros Heq%Qeq_bool_iff. by rewrite (Qred_complete _ _ Heq).
Qed.

Lemma default_equal_key_part h lv rv :
  scalar lv = true → scalar rv = true →
  default_equal lv rv = true → key_part h lv = key_part h rv.
Proof.
  unfold default_equal, key_part.
  destruct lv as [| |b|x|s|a ms|a xs|a ps], rv as [| |b'|y|s'|a' ms'|a' xs'|a' ps'];
    simpl; try done.
  - by intros _ _ ->%bool_decide_eq_true.
  - intros _ _. apply number_toString_proper.
  - by intros _ _ ->%bool_decide_eq_true.
  - by intros _ _ ->%bool_decide_eq_true.
Qed.

Section ExactJoinRows.

Context (h : host) (conds : list condition) (transform : option transform_fn).

Local Abbreviation key_of_right r :=
  (_createMultiConditionKey h r conds SideRight).
Local Abbreviation key_of_left l :=
  (_createMultiConditionKey h l conds SideLeft).

(** The right rows filed under the key of a left row, in dataset order. *)
Definition bucket (rights : list value) (l : value) : list value :=
  filter (λ r, key_of_right r = key_of_left l) rights.

(** The right rows a left row is joined to. *)
Definition partners (rights : list value) (l : value) : list value :=
  filter (λ r, _compareJoinConditions conds l r = true) (bucket rights l).

Definition merged_with (l r : value) (row : value) : Prop :=
  ∃ n, row = (_mergeRows n l r transform).1.

(** The rows one left row contributes. *)
Definition contribution (jt : join_type) (rights : list value) (l : value)
  (rows : list value) : Prop :=
  match bucket rights l with
  | [] => if keeps_left jt then Forall2 (merged_with l) [VNull] rows
          else rows = []
  | _ => Forall2 (merged_with l) (partners rights l) rows
  end.

Lemma keys_agree_when_conditions_hold l r :
  (∀ c, c ∈ conds →
     comparator c = None
     ∧ scalar (_getNestedProperty l (leftKey c)) = true
     ∧ scalar (_getNestedProperty r (rightKey c)) = true) →
  _compareJoinConditions conds l r = true →
  key_of_left l = key_of_right r.
Proof.
  intros Hscalar. unfold _compareJoinConditions, _createMultiConditionKey.
  destruct (truthy l); simpl; [|done]. destruct (truthy r); simpl; [|done].
  intros Hall. f_equal. apply map_ext_in. intros c Hc.
  pose proof (proj1 (forallb_forall _ _) Hall c Hc) as Hc'.
  apply list_elem_of_In in Hc.
  destruct (Hscalar c Hc) as (Hcmp & Hl & Hr).
  unfold condition_holds in Hc'. rewrite Hcmp in Hc'.
  by apply default_equal_key_part.
Qed.

Lemma join_candidates_rows jt l matches st :
  ∃ rows,
    joinedRows (foldl (join_candidate conds jt transform l) st matches)
    = joinedRows st ++ rows
    ∧ Forall2 (merged_with l)
        (filter (λ r, _compareJoinConditions conds l r = true) matches) rows.
Proof.
  revert st. induction matches as [|r matches IH]; intros st; simpl.
  - exists []. by rewrite app_nil_r.
  - unfold join_candidate at 2.
    destruct (_compareJoinConditions conds l r) eqn:Hcmp.
    + rewrite filter_cons_True by done.
      match goal with
      | |- context [foldl _ ?st1 matches] =>
          destruct (IH st1) as (rows & Hrows & Hall);
          assert (joinedRows st1
                  = joinedRows st
                    ++ [(_mergeRows (next_addr st) l r transform).1]) as Hst1
            by (destruct (keeps_right jt); simpl; by rewrite push_merged_rows)
      end.
      eexists (_ :: rows). rewrite Hrows, Hst1, <- app_assoc.
      split; [done|]. constructor; [by eexists|done].
    + rewrite filter_cons_False by (rewrite Hcmp; done). apply IH.
Qed.

Lemma join_left_row_rows jt rights st l :
  ∃ rows,
    joinedRows (join_left_row h conds jt transform
                  (build_lookup h conds rights) st l)
    = joinedRows st ++ rows
    ∧ contribution jt rights l rows.
Proof.
  unfold join_left_row, contribution. rewrite build_lookup_spec.
  fold (bucket rights l).
  destruct (bucket rights l) as [|r rest] eqn:Hbucket.
  - rewrite bool_decide_false by (simpl; lia).
    destruct (keeps_left jt).
    + eexists. rewrite push_merged_rows. split; [done|].
      constructor; [by eexists|constructor].
    + exists []. by rewrite app_nil_r.
  - rewrite bool_decide_true by (simpl; lia).
    unfold partners. rewrite Hbucket. apply join_candidates_rows.
Qed.

Lemma join_left_rows_groups jt rights lefts st :
  ∃ groups,
    joinedRows (foldl (join_left_row h conds jt transform
                         (build_lookup h conds rights)) st lefts)
    = joinedRows st ++ concat groups
    ∧ Forall2 (contribution jt rights) lefts groups.
Proof.
  revert st. induction lefts as [|l lefts IH]; intros st; simpl.
  - exists []. simpl. by rewrite app_nil_r.
  - destruct (join_left_row_rows jt rights st l) as (rows & Hrows & Hcontrib).
    destruct (IH (join_left_row h conds jt transform
                    (build_lookup h conds rights) st l))
      as (groups & Hgroups & Hall).
    exists (rows :: groups). simpl.
    rewrite Hgroups, Hrows, <- app_assoc. by split; [|constructor].
Qed.

Lemma add_unmatched_right_rows rights st :
  ∃ tail,
    joinedRows (foldl (add_unmatched_right transform) st rights)
    = joinedRows st ++ tail
    ∧ matchedRightRows (foldl (add_unmatched_right transform) st rights)
      = matchedRightRows st
    ∧ Forall2 (merged_with VNull)
        (filter (λ r, set_has (matchedRightRows st) r = false) rights) tail.
Proof.
  revert st. induction rights as [|r rights IH]; intros st; simpl.
  - exists []. by rewrite app_nil_r.
  - unfold add_unmatched_right at 2 4.
    destruct (set_has (matchedRightRows st) r) eqn:Hhas; simpl.
    + rewrite filter_cons_False by (rewrite Hhas; done). apply IH.
    + rewrite filter_cons_True by done.
      destruct (IH (push_merged transform VNull r st))
        as (tail & Hrows & Hmatched & Hall).
      rewrite push_merged_matched in Hmatched, Hall.
      rewrite push_merged_rows in Hrows.
      eexists (_ :: tail). rewrite Hrows, Hmatched, <- app_assoc.
      split_and!; try done. constructor; [by eexists|done].
Qed.

End ExactJoinRows.

Lemma set_has_add s v x :
  set_has (set_add s v) x = set_has s x || same_value_zero x v.
Proof.
  unfold set_add, set_has.
  destruct (existsb (same_value_zero v) s) eqn:Hv.
  - destruct (same_value_zero x v) eqn:Hxv; [|by rewrite orb_false_r].
    rewrite orb_true_r. apply existsb_exists in Hv as (y & Hy & Hvy).
    apply existsb_exists. exists y. split; [done|].
    by apply (same_value_zero_trans _ v).
  - rewrite existsb_app. simpl. by rewrite orb_false_r.
Qed.

Section ExactJoinMatched.

Context (h : host) (conds : list condition) (transform : option transform_fn).

(** Whether the right row [x] is joined to some left row. *)
Definition matched_right (lefts rights : list value) (x : value) : bool :=
  existsb (λ l, existsb (same_value_zero x) (partners h conds rights l)) lefts.

Lemma join_candidates_matched jt l matches st x :
  keeps_right jt = true →
  set_has (matchedRightRows
             (foldl (join_candidate conds jt transform l) st matches)) x
  = set_has (matchedRightRows st) x
    || existsb (same_value_zero x)
         (filter (λ r, _compareJoinConditions conds l r = true) matches).
Proof.
  intros Hjt. revert st.
  induction matches as [|r matches IH]; intros st; simpl.
  - by rewrite orb_false_r.
  - rewrite IH. unfold join_candidate.
    destruct (_compareJoinConditions conds l r) eqn:Hcmp.
    + rewrite filter_cons_True by done. rewrite Hjt. simpl.
      rewrite set_has_add, push_merged_matched.
      by rewrite orb_assoc.
    + by rewrite filter_cons_False by (rewrite Hcmp; done).
Qed.

Lemma join_left_rows_matched jt rights lefts st x :
  keeps_right jt = true →
  set_has (matchedRightRows
             (foldl (join_left_row h conds jt transform
                       (build_lookup h conds rights)) st lefts)) x
  = set_has (matchedRightRows st) x || matched_right lefts rights x.
Proof.
  intros Hjt. revert st.
  induction lefts as [|l lefts IH]; intros st; simpl.
  - by rewrite orb_false_r.
  - rewrite IH. unfold join_left_row. rewrite build_lookup_spec.
    fold (bucket h conds rights l). unfold partners.
    destruct (bucket h conds rights l) as [|r rest] eqn:Hbucket.
    + rewrite bool_decide_false by (simpl; lia). rewrite filter_nil. simpl.
      destruct (keeps_left jt); [|done].
      by rewrite push_merged_matched.
    + rewrite bool_decide_true by (simpl; lia).
      rewrite join_candidates_matched by done. by rewrite orb_assoc.
Qed.

(** The shape of the output of the exact join: the contributions of the
    left rows, in order, then the right rows left unmatched. *)
Lemma exact_join_shape jt next lefts rights :
  ∃ groups tail,
    _performExactJoin h conds jt transform next lefts rights
    = concat groups ++ tail
    ∧ Forall2 (contribution h conds transform jt rights) lefts groups
    ∧ Forall2 (merged_with transform VNull)
        (if keeps_right jt
         then filter (λ r, matched_right lefts rights r = false) rights
         else [])
        tail.
Proof.
  unfold _performExactJoin, exact_join_from.
  match goal with
  | |- context [foldl _ ?st0 lefts] =>
      destruct (join_left_rows_groups h conds transform jt rights lefts st0)
        as (groups & Hgroups & Hall)
  end.
  simpl in Hgroups. exists groups.
  destruct (keeps_right jt) eqn:Hjt.
  - match goal with
    | |- context [foldl (add_unmatched_right _) ?st1 rights] =>
        destruct (add_unmatched_right_rows transform rights st1)
          as (tail & Htail & _ & Hunmatched)
    end.
    exists tail. rewrite Htail, Hgroups. split_and!; try done.
    erewrite list_filter_iff; [exact Hunmatched|].
    intros r. simpl. by rewrite join_left_rows_matched.
  - exists []. rewrite Hgroups, app_nil_r. by split_and!.
Qed.

End ExactJoinMatched.

(** X1: the exact join outputs, for each left row in dataset order, its
    merge with null when no right row has its composite key (left and full
    joins; nothing otherwise), and else its merges with the right rows of
    that key that pass [_compareJoinConditions], in dataset order; a right
    or full join then adds, in dataset order, the merge with null of every
    right row that was joined to no left row. *)
Theorem exact_join_output_by_left_row
  (h : host) (conds : list condition) (transform : option transform_fn)
  (jt : join_type) (next : addr) (lefts rights : list value) :
  ∃ groups tail,
    _performExactJoin h conds jt transform next lefts rights
    = concat groups ++ tail
    ∧ Forall2 (contribution h conds transform jt rights) lefts groups
    ∧ Forall2 (merged_with transform VNull)
        (if keeps_right jt
         then filter (λ r, matched_right h conds lefts rights r = false) rights
         else [])
        tail.
Proof. apply exact_join_shape. Qed.

Lemma add_unmatched_right_mono transform rights st :
  joinedRows st ⊆ joinedRows (foldl (add_unmatched_right transform) st rights).
Proof.
  destruct (add_unmatched_right_rows transform rights st) as (tail & -> & _).
  by apply list_subseteq_app_l.
Qed.

(** X2: when no condition has a custom comparator and the key values are
    primitives or dates, every left and right row that pass
    [_compareJoinConditions] are joined, in every join type: filing the
    right rows under the composite key loses no match of the default
    equality. *)
Theorem exact_join_finds_default_matches
  (h : host) (conds : list condition) (transform : option transform_fn)
  (jt : join_type) (next : addr) (lefts rights : list value) (l r : value) :
  l ∈ lefts → r ∈ rights →
  (∀ c, c ∈ conds →
     comparator c = None
     ∧ scalar (_getNestedProperty l (leftKey c)) = true
     ∧ scalar (_getNestedProperty r (rightKey c)) = true) →
  _compareJoinConditions conds l r = true →
  ∃ n, (_mergeRows n l r transform).1
       ∈ _performExactJoin h conds jt transform next lefts rights.
Proof.
  intros Hl Hr Hscalar Hcmp.
  pose proof (keys_agree_when_conditions_hold h conds l r Hscalar Hcmp) as Hkey.
  unfold _performExactJoin, exact_join_from.
  match goal with
  | |- context [foldl _ ?st0 lefts] =>
      destruct (join_left_rows_complete h conds transform jt rights lefts st0
                  l r Hl Hr Hkey Hcmp) as [n Hn]
  end.
  exists n. destruct (keeps_right jt); [|done].
  by apply add_unmatched_right_mono.
Qed.

Lemma exact_join_finds_default_matches_witness :
  ∃ n, (_mergeRows n (VObject 1 [("id", VNumber (Int 7)); ("name", VString "a")])
          (VObject 2 [("id", VNumber (Int 7)); ("city", VString "x")]) None).1
       ∈ _performExactJoin plain_host [id_condition] JoinFull None 3%nat
           [VObject 1 [("id", VNumber (Int 7)); ("name", VString "a")]]
           [VObject 2 [("id", VNumber (Int 7)); ("city", VString "x")]].
Proof.
  apply (exact_join_finds_default_matches plain_host [id_condition] None
           JoinFull 3%nat).
  - apply list_elem_of_singleton. reflexivity.
  - apply list_elem_of_singleton. reflexivity.
  - intros c Hc. apply list_elem_of_singleton in Hc. subst c.
    repeat split; reflexivity.
  - reflexivity.
Defined.

Lemma Forall2_concat_elem {A B} (R : A → list B → Prop) (xs : list A)
  (groups : list (list B)) (y : B) :
  Forall2 R xs groups → y ∈ concat groups →
  ∃ x g, x ∈ xs ∧ R x g ∧ y ∈ g.
Proof.
  induction 1 as [|x g xs groups Hx _ IH]; simpl.
  - intros H%elem_of_nil. done.
  - intros [Hy|Hy]%elem_of_app.
    + exists x, g. split_and!; [left|done|done].
    + destruct (IH Hy) as (x' & g' & ? & ? & ?).
      exists x', g'. split_and!; [by right|done|done].
Qed.

Lemma Forall2_elem_r {A B} (R : A → B → Prop) (xs : list A) (ys : list B) y :
  Forall2 R xs ys → y ∈ ys → ∃ x, x ∈ xs ∧ R x y.
Proof.
  induction 1 as [|x y' xs ys Hx _ IH].
  - intros H%elem_of_nil. done.
  - intros [->|Hy]%elem_of_cons.
    + exists x. split; [left|done].
    + destruct (IH Hy) as (x' & ? & ?). exists x'. split; [by right|done].
Qed.

(** X3: a row of the exact inner join is always the merge of a left row and
    a right row that have the same composite key and pass
    [_compareJoinConditions]: rows filed under different keys are never
    joined, whatever a custom comparator would say of them. *)
Theorem exact_inner_join_pairs_share_key
  (h : host) (conds : list condition) (transform : option transform_fn)
  (next : addr) (lefts rights : list value) (row : value) :
  row ∈ _performExactJoin h conds JoinInner transform next lefts rights →
  ∃ n l r,
    l ∈ lefts ∧ r ∈ rights
    ∧ _createMultiConditionKey h l conds SideLeft
      = _createMultiConditionKey h r conds SideRight
    ∧ _compareJoinConditions conds l r = true
    ∧ row = (_mergeRows n l r transform).1.
Proof.
  destruct (exact_join_shape h conds transform JoinInner next lefts rights)
    as (groups & tail & -> & Hgroups & Htail).
  simpl in Htail. apply Forall2_nil_inv_l in Htail as ->.
  rewrite app_nil_r. intros Hrow.
  destruct (Forall2_concat_elem _ _ _ _ Hgroups Hrow)
    as (l & g & Hl & Hcontrib & Hin).
  unfold contribution in Hcontrib.
  destruct (bucket h conds rights l) as [|r0 rest] eqn:Hbucket.
  - simpl in Hcontrib. subst g. by apply elem_of_nil in Hin.
  - destruct (Forall2_elem_r _ _ _ _ Hcontrib Hin) as (r & Hr & n & ->).
    unfold partners in Hr.
    apply list_elem_of_filter in Hr as [Hcmp Hr].
    unfold bucket in Hr. apply list_elem_of_filter in Hr as [Hkey Hr].
    exists n, l, r. by split_and!.
Qed.

Lemma exact_inner_join_pairs_share_key_witness :
  ∃ n l r,
    l ∈ [VObject 1 [("id", VNumber (Int 7)); ("name", VString "a")]]
    ∧ r ∈ [VObject 2 [("id", VNumber (Int 7)); ("city", VString "x")]]
    ∧ _createMultiConditionKey plain_host l [id_condition] SideLeft
      = _createMultiConditionKey plain_host r [id_condition] SideRight
    ∧ _compareJoinConditions [id_condition] l r = true
    ∧ VObject 3 [("id", VNumber (Int 7)); ("name", VString "a");
                 ("city", VString "x")]
      = (_mergeRows n l r None).1.
Proof.
  apply (exact_inner_join_pairs_share_key plain_host [id_condition] None
           3%nat).
  vm_compute. apply list_elem_of_singleton. reflexivity.
Defined.

(** X4: joining against an empty dataset.  With no right rows the exact join
    returns every left row once, in order, merged with null, in a left or
    full join, and nothing in an inner or right join; with no left rows it
    returns every right row once, in order, merged with null, in a right or
    full join, and nothing otherwise. *)
Theorem exact_join_with_an_empty_side
  (h : host) (conds : list condition) (transform : option transform_fn)
  (jt : join_type) (next : addr) (rows : list value) :
  Forall2 (λ l, merged_with transform l VNull)
    (if keeps_left jt then rows else [])
    (_performExactJoin h conds jt transform next rows [])
  ∧ Forall2 (merged_with transform VNull)
      (if keeps_right jt then rows else [])
      (_performExactJoin h conds jt transform next [] rows).
Proof.
  split.
  - destruct (exact_join_shape h conds transform jt next rows [])
      as (groups & tail & -> & Hgroups & Htail).
    assert (tail = []) as ->.
    { destruct (keeps_right jt); by apply Forall2_nil_inv_l in Htail. }
    rewrite app_nil_r. clear Htail.
    induction Hgroups as [|l g ls groups Hcontrib _ IH]; simpl.
    + destruct (keeps_left jt); constructor.
    + unfold contribution in Hcontrib. simpl in Hcontrib.
      destruct (keeps_left jt).
      * apply Forall2_cons_inv_l in Hcontrib as (row & rest & Hrow & Hrest & ->).
        apply Forall2_nil_inv_l in Hrest as ->. simpl. by constructor.
      * by subst g.
  - destruct (exact_join_shape h conds transform jt next [] rows)
      as (groups & tail & -> & Hgroups & Htail).
    apply Forall2_nil_inv_l in Hgroups as ->. simpl.
    destruct (keeps_right jt); [|done].
    replace (filter (λ r, matched_right h conds [] rows r = false) rows)
      with rows in Htail; [done|].
    clear Htail. induction rows as [|r rows IH]; [done|].
    rewrite filter_cons_True by done. by f_equal.
Qed.

(** ** The merged row as a whole *)


Section MergeKeys.


End MergeKeys.



(** ** Key paths *)

Lemma includes_append c s t :
  includes c (s +:+ t) = includes c s || includes c t.
Proof.
  induction s as [|a s IH]; [done|].
  rewrite append_cons. simpl. by rewrite IH, orb_assoc.
Qed.

Lemma includes_rev_app c s acc :
  includes c (String.rev_app s acc) = includes c s || includes c acc.
Proof.
  revert acc. induction s as [|a s IH]; intros acc; [done|].
  simpl. rewrite IH. simpl.
  by destruct (ascii_eqb a c), (includes c s), (includes c acc).
Qed.

Lemma includes_rev c s : includes c (String.rev s) = includes c s.
Proof.
  unfold String.rev. rewrite includes_rev_app. simpl. by rewrite orb_false_r.
Qed.

Lemma split_go_includes c d cur s :
  includes c cur = false → includes c s = false →
  Forall (λ key, includes c key = false) (split_go d cur s).
Proof.
  revert cur. induction s as [|a s IH]; intros cur Hcur Hs; simpl.
  - constructor; [by rewrite includes_rev|constructor].
  - simpl in Hs. apply orb_false_elim in Hs as [Ha Hs].
    destruct (ascii_eqb a d).
    + constructor; [by rewrite includes_rev|]. by apply IH.
    + apply IH; [|done]. simpl. by rewrite Ha, Hcur.
Qed.

Lemma split_go_nonempty d cur s : (1 ≤ length (split_go d cur s))%nat.
Proof.
  revert cur. induction s as [|a s IH]; intros cur; simpl; [lia|].
  destruct (ascii_eqb a d); simpl; [lia|apply IH].
Qed.

Lemma split_go_length d cur s :
  includes d s = true → (2 ≤ length (split_go d cur s))%nat.
Proof.
  revert cur. induction s as [|a s IH]; intros cur; simpl; [done|].
  destruct (ascii_eqb a d); simpl.
  - intros _. pose proof (split_go_nonempty d EmptyString s). lia.
  - apply IH.
Qed.

Lemma reduce_path_not_undefined current path_keys :
  path_keys ≠ [] →
  Forall (λ key, includes "["%char key = false) path_keys →
  ∀ v, reduce_path current path_keys = Some v → v ≠ VUndefined.
Proof.
  intros Hne Hkeys. revert current Hne.
  induction Hkeys as [|key rest Hkey _ IH]; intros current Hne v; [done|].
  simpl. unfold nested_step at 1. rewrite Hkey. simpl.
  assert (∃ next, next ≠ VUndefined
            ∧ (if truthy current && typeof_object current
               then match Get current key with
                    | Some VUndefined | None => Some VNull
                    | Some v0 => Some v0
                    end
               else Some VNull) = Some next) as (next & Hnext & ->).
  { destruct (truthy current && typeof_object current); [|by exists VNull].
    destruct (Get current key) as [[]|]; eexists; (split; [|reflexivity]); done. }
  simpl. destruct rest as [|key' rest].
  - simpl. by intros [= <-].
  - by apply IH.
Qed.

(** X6: a dotted key path without an array index never resolves to
    [undefined]: a field missing anywhere along the path, a primitive in the
    middle of it, or an error while walking it all give [null] (an undotted
    path to a missing field gives [undefined]). *)
Theorem getNestedProperty_dotted_path_is_never_undefined
  (obj : value) (path : string) :
  includes "."%char path = true →
  includes "["%char path = false →
  _getNestedProperty obj path ≠ VUndefined.
Proof.
  intros Hdot Hbracket. unfold _getNestedProperty.
  destruct (truthy obj); simpl; [|done].
  case_bool_decide; [done|]. rewrite Hdot. simpl.
  destruct (reduce_path obj (split "."%char path)) as [v|] eqn:Hv; [|done].
  simpl. eapply reduce_path_not_undefined; [| |exact Hv].
  - pose proof (split_go_length "."%char EmptyString path Hdot) as Hlen.
    unfold split. destruct (split_go _ _ _); [simpl in Hlen; lia|done].
  - by apply split_go_includes.
Qed.

Lemma getNestedProperty_dotted_path_witness :
  includes "."%char "a.b" = true
  ∧ _getNestedProperty (VObject 1 [("a", VObject 2 [])]) "a.b" ≠ VUndefined.
Proof.
  split; [reflexivity|].
  apply getNestedProperty_dotted_path_is_never_undefined; reflexivity.
Defined.

(* ================================================================== *)
(** * The join configuration                                           *)
(* ================================================================== *)

Import JoinConfig.

Lemma mapM_normalize_Forall2 items strategies :
  mapM normalize_item items = Some strategies →
  Forall2 (λ i s, normalize_item i = Some s) items strategies.
Proof. apply mapM_Some_1. Qed.

(** X7: an array configuration whose first element is a simple condition is
    converted element by element: an element with a left and a right key
    becomes a strategy with that one condition and no comparator, whatever
    comparator the element carried, named after the element or
    [join_<left>_<right>], of the element's type or [inner]; any other
    element is kept as it is. *)
Theorem legacy_conditions_lose_their_comparator
  (items strategies : list config_item) (first : config_item) :
  head items = Some first → has_conditions first = false →
  _getJoinStrategies (ConfigArray items) = Some strategies →
  Forall2
    (λ i s,
       if given (item_leftKey i) && given (item_rightKey i) then
         ∃ l r,
           item_leftKey i = Some l ∧ item_rightKey i = Some r
           ∧ item_conditions s
             = Some [{| leftKey := l; rightKey := r; comparator := None |}]
           ∧ item_name s
             = Some (if given (item_name i)
                     then default EmptyString (item_name i)
                     else "join_" +:+ l +:+ "_" +:+ r)
           ∧ item_type s = Some (default JoinInner (item_type i))
           ∧ item_transform s = item_transform i
       else s = i)
    items strategies.
Proof.
  intros Hfirst Hlegacy Hrun.
  destruct items as [|x items]; [done|]. injection Hfirst as ->.
  unfold _getJoinStrategies in Hrun. cbv beta iota in Hrun.
  rewrite Hlegacy in Hrun.
  destruct (given (item_leftKey first) || given (item_name first)); [|done].
  apply mapM_normalize_Forall2 in Hrun.
  eapply Forall2_impl; [exact Hrun|].
  intros i s Hi. unfold normalize_item in Hi.
  destruct (given (item_leftKey i) && given (item_rightKey i)) eqn:Hkeys.
  - injection Hi as <-. apply andb_prop in Hkeys as [Hl Hr].
    destruct (item_leftKey i) as [l|] eqn:Hli; [|done].
    destruct (item_rightKey i) as [r|] eqn:Hri; [|done].
    exists l, r. unfold from_legacy. rewrite Hli, Hri. by split_and!.
  - destruct (given (item_name i) && has_conditions i); [|done].
    by injection Hi as <-.
Qed.

Definition legacy_condition (l r : string) (f : value → value → value)
  : config_item :=
  {| item_name := None; item_leftKey := Some l; item_rightKey := Some r;
     item_comparator := Some f; item_conditions := None; item_type := None;
     item_transform := None; item_fuzzyOptions := None |}.

Lemma legacy_conditions_lose_their_comparator_witness :
  let items := [legacy_condition "id" "user_id" (λ _ _, VBool true)] in
  Forall2
    (λ i s,
       if given (item_leftKey i) && given (item_rightKey i) then
         ∃ l r,
           item_leftKey i = Some l ∧ item_rightKey i = Some r
           ∧ item_conditions s
             = Some [{| leftKey := l; rightKey := r; comparator := None |}]
           ∧ item_name s
             = Some (if given (item_name i)
                     then default EmptyString (item_name i)
                     else "join_" +:+ l +:+ "_" +:+ r)
           ∧ item_type s = Some (default JoinInner (item_type i))
           ∧ item_transform s = item_transform i
       else s = i)
    items [from_legacy (legacy_condition "id" "user_id" (λ _ _, VBool true))].
Proof.
  intros items.
  apply (legacy_conditions_lose_their_comparator items _
           (legacy_condition "id" "user_id" (λ _ _, VBool true)));
    reflexivity.
Defined.

(** X8: whenever [_getJoinStrategies] returns, the list of strategies is not
    empty, its first strategy has a [conditions] array, and normalizing the
    list again returns it unchanged; an empty array is refused. *)
Theorem getJoinStrategies_is_idempotent
  (joinConfig : join_config) (strategies : list config_item) :
  _getJoinStrategies joinConfig = Some strategies →
  (∃ first, head strategies = Some first ∧ has_conditions first = true)
  ∧ _getJoinStrategies (ConfigArray strategies) = Some strategies
  ∧ _getJoinStrategies (ConfigArray []) = None.
Proof.
  intros Hrun.
  assert (∃ first, head strategies = Some first ∧ has_conditions first = true)
    as Hfirst.
  { destruct joinConfig as [[|x items]|item];
      unfold _getJoinStrategies in Hrun; cbv beta iota in Hrun; [done| |].
    - destruct (has_conditions x) eqn:Hx.
      + injection Hrun as <-. by exists x.
      + destruct (given (item_leftKey x) || given (item_name x)); [|done].
        apply mapM_normalize_Forall2 in Hrun.
        apply Forall2_cons_inv_l in Hrun as (s & rest & Hs & _ & ->).
        exists s. split; [done|]. unfold normalize_item in Hs.
        destruct (given (item_leftKey x) && given (item_rightKey x)).
        * by injection Hs as <-.
        * rewrite Hx, andb_false_r in Hs. done.
    - destruct (has_conditions item) eqn:Hitem; [|done].
      injection Hrun as <-. by exists item. }
  split_and!; [done| |done].
  destruct Hfirst as (first & Hhead & Hconditions).
  destruct strategies as [|s rest]; [done|]. injection Hhead as ->.
  simpl. by rewrite Hconditions.
Qed.

Lemma getJoinStrategies_is_idempotent_witness :
  let cfg := ConfigArray [legacy_condition "id" "user_id" (λ _ _, VBool true)] in
  let out := [from_legacy (legacy_condition "id" "user_id" (λ _ _, VBool true))] in
  (∃ first, head out = Some first ∧ has_conditions first = true)
  ∧ _getJoinStrategies (ConfigArray out) = Some out
  ∧ _getJoinStrategies (ConfigArray []) = None.
Proof.
  intros cfg out.
  apply (getJoinStrategies_is_idempotent cfg out). reflexivity.
Defined.

(* ================================================================== *)
(** * Join statistics                                                  *)
(* ================================================================== *)

Import JoinStatistics.

Definition count_of (entry : string * join_result) : Z := result_count entry.2.

(** The better of the best so far and one more entry. *)
Definition better (b : join_stat) (entry : string * join_result) : join_stat :=
  if matchCount b <? count_of entry then stat_of entry else b.

Lemma analyze_fold entries best0 all0 :
  foldl analyze_entry (best0, all0) entries
  = (foldl better best0 entries, all0 ++ map stat_of entries).
Proof.
  revert best0 all0. induction entries as [|e entries IH]; intros best0 all0.
  - simpl. by rewrite app_nil_r.
  - simpl. unfold analyze_entry at 2. simpl. rewrite IH.
    by rewrite <- app_assoc.
Qed.

(** [i] is the first position of the greatest count in [counts]. *)
Definition first_maximum (counts : list Z) (i : nat) (m : Z) : Prop :=
  counts !! i = Some m
  ∧ (∀ j c, counts !! j = Some c → c ≤ m)
  ∧ (∀ j c, (j < i)%nat → counts !! j = Some c → c < m).


Lemma better_lt b e : matchCount b < count_of e → better b e = stat_of e.
Proof. intros Hlt%Z.ltb_lt. unfold better. by rewrite Hlt. Qed.

Lemma better_ge b e : count_of e ≤ matchCount b → better b e = b.
Proof. intros Hge%Z.ltb_ge. unfold better. by rewrite Hge. Qed.

Lemma better_fold entries b0 :
  (Forall (λ e, count_of e ≤ matchCount b0) entries
   ∧ foldl better b0 entries = b0)
  ∨ ∃ i e, entries !! i = Some e
           ∧ foldl better b0 entries = stat_of e
           ∧ matchCount b0 < count_of e
           ∧ first_maximum (count_of <$> entries) i (count_of e).
Proof.
  induction entries as [|x entries IH] using rev_ind.
  { left. by split. }
  rewrite foldl_app. simpl.
  destruct IH as [[Hall ->]|(i & e & Hi & -> & Hlt & Hi' & Hmax & Hfirst)].
  - destruct (Z.ltb_spec (matchCount b0) (count_of x)) as [Hx|Hx].
    + right. exists (length entries), x. unfold first_maximum.
      rewrite better_lt by done.
      split_and!; try done.
      * by rewrite lookup_app_r, Nat.sub_diag by lia.
      * rewrite fmap_app, lookup_app_r by (rewrite length_fmap; lia).
        by rewrite length_fmap, Nat.sub_diag.
      * intros j c Hj. rewrite fmap_app in Hj.
        apply lookup_app_Some in Hj as [Hj|[_ Hj]].
        -- apply list_lookup_fmap_Some in Hj as (e & -> & He).
           pose proof (proj1 (Forall_lookup _ _) Hall _ _ He). simpl in *. lia.
        -- rewrite length_fmap in Hj.
           destruct (j - length entries)%nat; simpl in Hj; [|done].
           injection Hj as <-. lia.
      * intros j c Hlt Hj. rewrite fmap_app in Hj.
        rewrite lookup_app_l in Hj by (rewrite length_fmap; lia).
        apply list_lookup_fmap_Some in Hj as (e & -> & He).
        pose proof (proj1 (Forall_lookup _ _) Hall _ _ He). simpl in *. lia.
    + left. rewrite better_ge by done. split; [|done].
      apply Forall_app. split; [done|]. by apply Forall_singleton.
  - right.
    destruct (Z.ltb_spec (count_of e) (count_of x)) as [Hx|Hx].
    + exists (length entries), x. unfold first_maximum.
      rewrite better_lt by done.
      split_and!; try done.
      * by rewrite lookup_app_r, Nat.sub_diag by lia.
      * lia.
      * rewrite fmap_app, lookup_app_r by (rewrite length_fmap; lia).
        by rewrite length_fmap, Nat.sub_diag.
      * intros j c Hj. rewrite fmap_app in Hj.
        apply lookup_app_Some in Hj as [Hj|[_ Hj]].
        -- pose proof (Hmax _ _ Hj). lia.
        -- rewrite length_fmap in Hj.
           destruct (j - length entries)%nat; simpl in Hj; [|done].
           injection Hj as <-. lia.
      * intros j c Hlt' Hj. rewrite fmap_app in Hj.
        rewrite lookup_app_l in Hj by (rewrite length_fmap; lia).
        pose proof (Hmax _ _ Hj). lia.
    + exists i, e. unfold first_maximum. rewrite better_ge by done.
      split_and!; try done.
      * by apply lookup_app_l_Some.
      * rewrite fmap_app. by apply lookup_app_l_Some.
      * intros j c Hj. rewrite fmap_app in Hj.
        apply lookup_app_Some in Hj as [Hj|[_ Hj]].
        -- by apply (Hmax j).
        -- rewrite length_fmap in Hj.
           destruct (j - length entries)%nat; simpl in Hj; [|done].
           injection Hj as <-. lia.
      * intros j c Hlt' Hj. rewrite fmap_app in Hj.
        assert (j < length (count_of <$> entries))%nat
          by (apply lookup_lt_Some in Hi'; lia).
        rewrite lookup_app_l in Hj by done. by apply (Hfirst j).
Qed.

Lemma sum_of_fold (f : join_stat → Z) (l : list join_stat) a :
  foldl (λ sum stat, sum + f stat) a l = a + foldr Z.add 0 (f <$> l).
Proof.
  revert a. induction l as [|x l IH]; intros a; [simpl; lia|].
  rewrite fmap_cons. cbn [foldl foldr]. rewrite IH. lia.
Qed.

(** X9: [analyzeJoinStatistics] counts the entries; its best join is the
    first entry whose count is the greatest when some count is positive, and
    the nameless placeholder with count 0 when none is; the average match
    count is the exact mean of the counts, and [NaN] for no entry. *)
Theorem analyzeJoinStatistics_best_and_average
  (joinResults : list (string * join_result)) :
  let stats := analyzeJoinStatistics joinResults in
  totalJoins stats = Z.of_nat (length joinResults)
  ∧ ((∀ e, e ∈ joinResults → count_of e ≤ 0) →
     bestJoin stats = no_best_join)
  ∧ (∀ e, e ∈ joinResults → 0 < count_of e →
     ∃ i b, joinResults !! i = Some b
            ∧ bestJoin stats = stat_of b
            ∧ first_maximum (count_of <$> joinResults) i (count_of b))
  ∧ (joinResults = [] → averageMatchCount stats = NotANumber)
  ∧ (joinResults ≠ [] →
     ∃ q, averageMatchCount stats = Finite q
          ∧ (q * inject_Z (Z.of_nat (length joinResults))
             == inject_Z (foldr Z.add 0%Z (count_of <$> joinResults)))%Q).
Proof.
  unfold analyzeJoinStatistics. rewrite analyze_fold. simpl.
  rewrite length_map. split_and!.
  - done.
  - intros Hall.
    destruct (better_fold joinResults no_best_join)
      as [[_ ->]|(i & e & Hi & _ & Hlt & _)]; [done|].
    apply list_elem_of_lookup_2 in Hi. specialize (Hall e Hi).
    simpl in Hlt. lia.
  - intros e He Hpos.
    destruct (better_fold joinResults no_best_join)
      as [[Hall _]|(i & b & Hi & -> & _ & Hmax)].
    + pose proof (proj1 (Forall_forall _ _) Hall e He). simpl in *. lia.
    + by exists i, b.
  - by intros ->.
  - intros Hne. unfold divide.
    destruct (Z.eqb_spec (Z.of_nat (length joinResults)) 0) as [Hz|Hz].
    { destruct joinResults; [done|simpl in Hz; lia]. }
    eexists. split; [done|].
    unfold sum_of. rewrite sum_of_fold, Z.add_0_l.
    rewrite <- list_fmap_compose.
    assert (matchCount ∘ stat_of <$> joinResults = count_of <$> joinResults)
      as -> by done.
    unfold Qdiv. rewrite <- Qmult_assoc, (Qmult_comm (/ _)).
    rewrite Qmult_inv_r, Qmult_1_r; [done|].
    unfold Qeq. simpl. lia.
Qed.

(* ================================================================== *)
(** * [joinQueries] as a whole                                         *)
(* ================================================================== *)

Section JoinQueriesFacts.

Context (fuse : fuse_engine) (h : host) (options : join_options).
Context (data1 data2 : list value).



End JoinQueriesFacts.






Lemma results_get_None_fresh k (rs : list (string * strategy_result)) :
  k ∉ rs.*1 → results_get k rs = None.
Proof.
  induction rs as [|[k' v] rs IH]; simpl; [done|].
  intros [Hne Hk]%not_elem_of_cons. by rewrite bool_decide_false, IH.
Qed.





(* ================================================================== *)
(** * The fuzzy join and null keys                                     *)
(* ================================================================== *)

Section FuzzyNullKeys.

Context (fuse : fuse_engine) (h : host) (rightDataset : list value).
Context (joinConditions : list condition) (joinType : join_type).
Context (transform : option transform_fn) (fuzzyOptions : fuzzy_options).

Definition keyless (leftRow : value) : Prop :=
  ∀ c, c ∈ joinConditions →
       nullish (_getNestedProperty leftRow (leftKey c)) = true.

Lemma keyless_no_patterns leftRow :
  keyless leftRow → searchPatterns joinConditions leftRow = [].
Proof.
  intros Hnull. unfold searchPatterns.
  apply filter_none, Forall_forall. intros p Hp.
  apply list_elem_of_In, in_map_iff in Hp as (c & <- & Hc%list_elem_of_In).
  simpl. by rewrite Hnull.
Qed.

Lemma fuzzy_left_rows_keyless lefts st :
  Forall keyless lefts →
  ∃ rows,
    joinedRows (foldl (fuzzy_left_row fuse h rightDataset joinConditions
                         joinType transform fuzzyOptions) st lefts)
    = joinedRows st ++ rows
    ∧ matchedRightRows
        (foldl (fuzzy_left_row fuse h rightDataset joinConditions
                  joinType transform fuzzyOptions) st lefts)
      = matchedRightRows st
    ∧ Forall2 (λ l, merged_with transform l VNull)
        (if keeps_left joinType then lefts else []) rows.
Proof.
  intros Hlefts. revert st.
  induction Hlefts as [|l lefts Hl _ IH]; intros st; simpl.
  - exists []. rewrite app_nil_r. split_and!; try done.
    destruct (keeps_left joinType); constructor.
  - unfold fuzzy_left_row at 2 4. rewrite keyless_no_patterns by done.
    simpl. destruct (keeps_left joinType) eqn:Hjt.
    + destruct (IH (push_merged transform l VNull st))
        as (rows & Hrows & Hmatched & Hall).
      rewrite push_merged_rows in Hrows. rewrite push_merged_matched in Hmatched.
      eexists (_ :: rows). rewrite Hrows, Hmatched, <- app_assoc.
      split_and!; try done. constructor; [by eexists|done].
    + apply IH.
Qed.

End FuzzyNullKeys.

(** X12: the fuzzy join never matches a left row whose key values are all
    null or missing, whatever the search engine and the right rows: when
    every left row is such a row, the output is the left rows merged with
    null (left and full joins) followed by the right rows merged with null
    (right and full joins), each once and in order. *)
Theorem fuzzy_join_never_matches_null_keys
  (fuse : fuse_engine) (h : host) (rights : list value)
  (conds : list condition) (jt : join_type) (transform : option transform_fn)
  (opts : fuzzy_options) (next : addr) (lefts : list value) :
  Forall (keyless conds) lefts →
  ∃ kept added,
    _performFuzzyJoin fuse h rights conds jt transform opts next lefts
    = kept ++ added
    ∧ Forall2 (λ l, merged_with transform l VNull)
        (if keeps_left jt then lefts else []) kept
    ∧ Forall2 (merged_with transform VNull)
        (if keeps_right jt then rights else []) added.
Proof.
  intros Hlefts. unfold _performFuzzyJoin, fuzzy_join_from.
  match goal with
  | |- context [foldl _ ?st0 lefts] =>
      destruct (fuzzy_left_rows_keyless fuse h rights conds jt transform opts
                  lefts st0 Hlefts) as (kept & Hkept & Hmatched & Hall)
  end.
  simpl in Hkept, Hmatched. exists kept.
  destruct (keeps_right jt).
  - match goal with
    | |- context [foldl (add_unmatched_right _) ?st1 rights] =>
        destruct (add_unmatched_right_rows transform rights st1)
          as (added & Hadded & _ & Hunmatched)
    end.
    exists added. rewrite Hadded, Hkept. split_and!; try done.
    rewrite Hmatched in Hunmatched.
    replace (filter (λ r, set_has [] r = false) rights) with rights
      in Hunmatched; [done|].
    clear. induction rights as [|r rights IH]; [done|].
    rewrite filter_cons_True by done. by f_equal.
  - exists []. rewrite app_nil_r, Hkept. by split_and!.
Qed.

Lemma fuzzy_join_never_matches_null_keys_witness :
  ∃ kept added,
    _performFuzzyJoin scored_fuse plain_host
      [VObject 2 [("id", VNull); ("city", VString "Oslo")]]
      [id_condition] JoinFull None (with_scores false (3 # 10)) 3%nat
      [VObject 1 [("id", VNull); ("name", VString "Ann")]]
    = kept ++ added
    ∧ Forall2 (λ l, merged_with None l VNull)
        [VObject 1 [("id", VNull); ("name", VString "Ann")]] kept
    ∧ Forall2 (merged_with None VNull)
        [VObject 2 [("id", VNull); ("city", VString "Oslo")]] added.
Proof.
  apply (fuzzy_join_never_matches_null_keys scored_fuse plain_host
           [VObject 2 [("id", VNull); ("city", VString "Oslo")]]
           [id_condition] JoinFull None (with_scores false (3 # 10)) 3%nat
           [VObject 1 [("id", VNull); ("name", VString "Ann")]]).
  apply Forall_singleton. intros c Hc.
  apply list_elem_of_singleton in Hc. subst c. reflexivity.
Defined.

(* ================================================================== *)
(** * Result tracking against the execution history                    *)
(* ================================================================== *)

(** The rows of the result snapshot of an execution. *)
Definition rows_of_execution (e : execution) : list value :=
  match results e with
  | VArray _ rows => rows
  | _ => []
  end.

(** Every row of every snapshot with its execution, in the order the index
    is built. *)
Definition occurrences (previous : list execution)
  : list (execution * value) :=
  e ← previous; pair e <$> rows_of_execution e.

(** The time an execution is taken to have shown its rows:
    [completed_at || started_at]. *)
Definition seen_at (e : execution) : value :=
  or_else (completed_at e) (started_at e).

(** What the index holds under a signature, given the occurrences of that
    signature. *)
Definition indexed_as (s : string) (occ : list (execution * value))
  (entry : option index_entry) : Prop :=
  match entry with
  | None => occ = []
  | Some entry =>
      ∃ first final,
        head occ = Some first ∧ last occ = Some final
        ∧ entry_signature entry = s
        ∧ entry_count entry = Z.of_nat (length occ)
        ∧ entry_firstSeen entry = seen_at first.1
        ∧ entry_lastSeen entry = seen_at final.1
        ∧ entry_executionIds entry = (λ er, Tracking.execution_id er.1) <$> occ
        ∧ sampleData entry = first.2
  end.

Section IndexFacts.

Context (h : host) (opts : tracking_options).

Definition index_occurrence (index : option (gmap string index_entry))
  (er : execution * value) : option (gmap string index_entry) :=
  index_row h opts er.1 index er.2.

Lemma index_executions_flat previous index :
  foldl (index_execution h opts) index previous
  = foldl index_occurrence index (occurrences previous).
Proof.
  revert index. induction previous as [|e previous IH]; intros index; [done|].
  cbn [foldl]. unfold occurrences. rewrite bind_cons, foldl_app.
  fold (occurrences previous). rewrite <- IH. f_equal.
  unfold index_execution, rows_of_execution.
  destruct (results e) as [| | | | | |a rows|]; try done.
  generalize index. induction rows as [|r rows IHr]; intros idx; [done|].
  simpl. by rewrite IHr.
Qed.

Lemma index_occurrence_None flat : foldl index_occurrence None flat = None.
Proof. induction flat as [|x flat IH]; [done|]. simpl. exact IH. Qed.

Local Abbreviation occurrences_of s flat :=
  (filter (λ er : execution * value,
             generateRowSignature h er.2 opts = Some s) flat).

Lemma index_occurrences flat index :
  foldl index_occurrence (Some ∅) flat = Some index →
  ∀ s, indexed_as s (occurrences_of s flat) (index !! s).
Proof.
  revert index. induction flat as [|x flat IH] using rev_ind; intros index.
  { simpl. intros [= <-] s. by rewrite lookup_empty. }
  rewrite foldl_app. simpl.
  destruct (foldl index_occurrence (Some ∅) flat) as [idx|] eqn:Hidx; [|done].
  specialize (IH idx eq_refl).
  unfold index_occurrence at 1, index_row. simpl.
  destruct (generateRowSignature h x.2 opts) as [sx|] eqn:Hsx; [|done].
  simpl. intros Hindex s. rewrite filter_app.
  destruct (decide (sx = s)) as [->|Hne].
  - rewrite filter_cons_True, filter_nil by done.
    specialize (IH s). unfold indexed_as in IH.
    destruct (idx !! s) as [existing|] eqn:Hexisting.
    + destruct IH as (first & final & Hhead & Hlast & Hsig & Hcount & Hfirst
                      & Hfinal & Hids & Hsample).
      injection Hindex as <-. rewrite lookup_insert_eq. simpl.
      exists first, x. rewrite length_app, fmap_app, last_snoc. simpl.
      split_and!; try done.
      * destruct (occurrences_of s flat); [done|]. done.
      * rewrite Hcount. lia.
      * by rewrite Hids.
    + injection Hindex as <-. rewrite lookup_insert_eq, IH. simpl.
      exists x, x. by split_and!.
  - rewrite filter_cons_False, filter_nil, app_nil_r by congruence.
    assert (index !! s = idx !! s) as ->; [|apply IH].
    destruct (idx !! sx); injection Hindex as <-;
      by rewrite lookup_insert_ne.
Qed.

End IndexFacts.

Lemma previous_results_index_facts
  (h : host) (opts : tracking_options) (previous : list execution)
  (index : gmap string index_entry) :
  buildPreviousResultsIndex h opts previous = Some index →
  ∀ s, indexed_as s
         (filter (λ er, generateRowSignature h er.2 opts = Some s)
            (occurrences previous))
         (index !! s).
Proof.
  unfold buildPreviousResultsIndex. rewrite index_executions_flat.
  apply index_occurrences.
Qed.

(** X13: the index built over previous executions holds a signature exactly
    when some row of some snapshot has it; the entry counts every such row,
    lists the execution id of each in order, keeps the first of them as
    sample, and takes its first-seen time from the first execution in list
    order that holds such a row and its last-seen time from the last one. *)
Theorem previous_results_index_describes_occurrences
  (h : host) (opts : tracking_options) (previous : list execution)
  (index : gmap string index_entry) :
  buildPreviousResultsIndex h opts previous = Some index →
  ∀ s, indexed_as s
         (filter (λ er, generateRowSignature h er.2 opts = Some s)
            (occurrences previous))
         (index !! s).
Proof. apply previous_results_index_facts. Qed.

Lemma previous_results_index_witness :
  ∃ index,
    buildPreviousResultsIndex plain_host hash_all_fields sample_history
    = Some index
    ∧ ∀ s, indexed_as s
             (filter (λ er, generateRowSignature plain_host er.2
                              hash_all_fields = Some s)
                (occurrences sample_history))
             (index !! s).
Proof.
  destruct (buildPreviousResultsIndex plain_host hash_all_fields
              sample_history) as [index|] eqn:Hindex.
  - exists index. split; [reflexivity|].
    exact (previous_results_index_describes_occurrences plain_host
             hash_all_fields sample_history index Hindex).
  - vm_compute in Hindex. discriminate.
Defined.

Lemma marks_follow_history
  (h : host) (table : list execution) (now : nat → string)
  (opts : tracking_options) (current : list value) (sql : string)
  (params : value) (marked : list marked_row) (stats : tracking_stats) :
  processResultTracking h table now opts current sql params
  = Some (marked, stats) →
  let previous :=
    getPreviousExecutionsWithResults table
      (generateQuerySignature h sql params) (Some 50%nat) in
  ∀ i row, current !! i = Some row →
    ∃ m s,
      marked !! i = Some m
      ∧ generateRowSignature h row opts = Some s
      ∧ signature (_tracking m) = s
      ∧ let seen :=
          filter (λ er, generateRowSignature h er.2 opts = Some s)
            (occurrences previous) in
        isNew (_tracking m) = bool_decide (seen = [])
        ∧ occurrenceCount (_tracking m) = Z.of_nat (length seen) + 1
        ∧ executionIds (_tracking m)
          = (λ er, Tracking.execution_id er.1) <$> seen
        ∧ (∀ er, head seen = Some er →
                 firstSeen (_tracking m) = seen_at er.1)
        ∧ (∀ er, last seen = Some er →
                 lastSeenBefore (_tracking m) = seen_at er.1).
Proof.
  intros Hrun previous i row Hrow. unfold processResultTracking in Hrun.
  fold previous in Hrun.
  destruct (buildPreviousResultsIndex h opts previous) as [index|] eqn:Hindex;
    simpl in Hrun; [|done].
  destruct (foldl (mark_step h now opts index) _ current) as [st|] eqn:Hfold;
    simpl in Hrun; [|done].
  injection Hrun as <- _.
  apply mark_fold in Hfold as (ms & Hms & _ & Hrows & _).
  simpl in Hms. rewrite Hms.
  destruct (Hrows i row Hrow) as (m & Hm & Hmark).
  unfold mark_row in Hmark.
  destruct (generateRowSignature h row opts) as [s|] eqn:Hs; [|done].
  simpl in Hmark. injection Hmark as <-.
  exists {| currentRow := row;
            _tracking :=
              match index !! s with
              | Some previous0 =>
                  {| isNew := false; signature := s;
                     firstSeen := entry_firstSeen previous0;
                     occurrenceCount := entry_count previous0 + 1;
                     lastSeenBefore := entry_lastSeen previous0;
                     executionIds := entry_executionIds previous0 |}
              | None =>
                  {| isNew := true; signature := s;
                     firstSeen := VString (now (0 + i)%nat);
                     occurrenceCount := 1; lastSeenBefore := VNull;
                     executionIds := [] |}
              end |}, s.
  split; [exact Hm|]. split; [done|].
  pose proof (previous_results_index_facts h opts previous index Hindex s)
    as Hentry.
  cbn [_tracking]. unfold indexed_as in Hentry.
  set (seen := filter (λ er, generateRowSignature h er.2 opts = Some s)
                 (occurrences previous)) in *.
  destruct (index !! s) as [entry|];
    cbn [isNew occurrenceCount executionIds firstSeen lastSeenBefore signature].
  - destruct Hentry as (first & final & Hhead & Hlast & _ & Hcount & Hfirst
                        & Hfinal & Hids & _).
    split; [done|]. rewrite bool_decide_false.
    2:{ intros Hnil. by rewrite Hnil in Hhead. }
    split_and!; try done.
    + by rewrite Hcount.
    + intros er Her. rewrite Hhead in Her. by injection Her as <-.
    + intros er Her. rewrite Hlast in Her. by injection Her as <-.
  - split; [done|]. rewrite Hentry. by split_and!.
Qed.

(** X14: in a tracking pass that returns, a current row is marked new
    exactly when no row in the snapshots of the executions read (completed,
    same query signature, at most the 50 given first) has its signature;
    its occurrence count is one more than the number of such rows, its
    execution ids are theirs in order, and its first-seen and last-seen
    times are those of the first and of the last execution in the order
    read that holds such a row: since executions are read most recently
    completed first, [firstSeen] is the most recent sighting and
    [lastSeenBefore] the oldest. *)
Theorem rows_are_marked_new_exactly_when_unseen
  (h : host) (table : list execution) (now : nat → string)
  (opts : tracking_options) (current : list value) (sql : string)
  (params : value) (marked : list marked_row) (stats : tracking_stats) :
  processResultTracking h table now opts current sql params
  = Some (marked, stats) →
  let previous :=
    getPreviousExecutionsWithResults table
      (generateQuerySignature h sql params) (Some 50%nat) in
  ∀ i row, current !! i = Some row →
    ∃ m s,
      marked !! i = Some m
      ∧ generateRowSignature h row opts = Some s
      ∧ signature (_tracking m) = s
      ∧ let seen :=
          filter (λ er, generateRowSignature h er.2 opts = Some s)
            (occurrences previous) in
        isNew (_tracking m) = bool_decide (seen = [])
        ∧ occurrenceCount (_tracking m) = Z.of_nat (length seen) + 1
        ∧ executionIds (_tracking m)
          = (λ er, Tracking.execution_id er.1) <$> seen
        ∧ (∀ er, head seen = Some er →
                 firstSeen (_tracking m) = seen_at er.1)
        ∧ (∀ er, last seen = Some er →
                 lastSeenBefore (_tracking m) = seen_at er.1).
Proof. apply marks_follow_history. Qed.

Lemma rows_are_marked_new_exactly_when_unseen_witness :
  ∃ marked stats,
    sample_tracking = Some (marked, stats)
    ∧ map (λ m, isNew (_tracking m)) marked = [false; true]
    ∧ let previous :=
        getPreviousExecutionsWithResults sample_history
          (generateQuerySignature plain_host sample_sql
             (VObject 7 [("region", VString "US")])) (Some 50%nat) in
      ∀ i row, sample_current !! i = Some row →
        ∃ m s,
          marked !! i = Some m
          ∧ generateRowSignature plain_host row hash_all_fields = Some s
          ∧ signature (_tracking m) = s
          ∧ let seen :=
              filter (λ er, generateRowSignature plain_host er.2
                              hash_all_fields = Some s)
                (occurrences previous) in
            isNew (_tracking m) = bool_decide (seen = [])
            ∧ occurrenceCount (_tracking m) = Z.of_nat (length seen) + 1
            ∧ executionIds (_tracking m)
              = (λ er, Tracking.execution_id er.1) <$> seen
            ∧ (∀ er, head seen = Some er →
                     firstSeen (_tracking m) = seen_at er.1)
            ∧ (∀ er, last seen = Some er →
                     lastSeenBefore (_tracking m) = seen_at er.1).
Proof.
  rewrite sample_tracking_runs. unfold sample_tracking_outcome.
  eexists _, _. split; [reflexivity|]. split; [reflexivity|].
  eapply (rows_are_marked_new_exactly_when_unseen plain_host sample_history
            sample_now hash_all_fields sample_current sample_sql
            (VObject 7 [("region", VString "US")])).
  exact sample_tracking_runs.
Defined.

(* ================================================================== *)
(** * Marked rows in the history                                       *)
(* ================================================================== *)

Import TrackingHistory.

(** The strategies that never read the [_tracking] field of a row. *)
Definition ignores_tracking (opts : tracking_options) : Prop :=
  match markingStrategy opts with
  | MarkHash => ∀ fields, hashFields opts = Some fields → "_tracking" ∉ fields
  | MarkComposite =>
      ∀ fields, compositeFields opts = Some fields → "_tracking" ∉ fields
  | _ => False
  end.

Lemma public_fields_set_internal a b k v (ps : props) :
  startsWith "_" k = true →
  public_fields (VObject a (set_prop k v ps)) = public_fields (VObject b ps).
Proof.
  intros Hk. unfold public_fields. cbn [own_props].
  generalize (@nil (string * value)).
  induction ps as [|[k' v'] ps IH]; intros acc.
  - simpl. by rewrite Hk.
  - cbn [set_prop]. case_bool_decide as Hsame.
    + subst k'. cbn [foldl fst snd]. by rewrite Hk.
    + cbn [foldl]. apply IH.
Qed.

Lemma pick_fields_set_other a b k v (ps : props) fields :
  k ∉ fields →
  pick_fields (VObject a (set_prop k v ps)) fields
  = pick_fields (VObject b ps) fields.
Proof.
  unfold pick_fields. generalize (@nil (string * value)).
  induction fields as [|f fields IH]; intros acc Hk; [done|].
  apply not_elem_of_cons in Hk as [Hne Hk].
  cbn [foldl]. unfold hasOwnProperty, Get.
  rewrite lookup_set_prop_ne by done. by apply IH.
Qed.

Lemma signature_of_marked_row h opts a a' b ps t :
  ignores_tracking opts →
  generateRowSignature h
    (marked_object b {| currentRow := VObject a ps; _tracking := t |}) opts
  = generateRowSignature h (VObject a' ps) opts.
Proof.
  intros Hopts. unfold generateRowSignature, signature_text. f_equal.
  assert (dataToHash
            (marked_object b {| currentRow := VObject a ps; _tracking := t |})
            opts
          = dataToHash (VObject a' ps) opts) as ->; [|done].
  unfold ignores_tracking in Hopts. unfold dataToHash, marked_object.
  cbn [currentRow _tracking own_props nullish].
  destruct (markingStrategy opts); try done.
  - destruct (hashFields opts) as [fields|].
    + by rewrite (pick_fields_set_other b a') by by apply Hopts.
    + by rewrite (public_fields_set_internal b a').
  - destruct (compositeFields opts) as [fields|]; simpl.
    + by rewrite (pick_fields_set_other b a') by by apply Hopts.
    + rewrite (pick_fields_set_other b a'); [done|].
      rewrite !not_elem_of_cons. split_and!; try done. apply not_elem_of_nil.
Qed.

(** X15: marking does not change the signature of a row under the hash and
    composite strategies, as long as [_tracking] is not one of the fields
    listed: the marked row [{...row, _tracking}] has the signature of
    [row]. *)
Theorem marked_row_keeps_its_signature
  (h : host) (opts : tracking_options) (a b : addr) (ps : props)
  (t : tracking_info) :
  ignores_tracking opts →
  generateRowSignature h
    (marked_object b {| currentRow := VObject a ps; _tracking := t |}) opts
  = generateRowSignature h (VObject a ps) opts.
Proof. apply signature_of_marked_row. Qed.

Definition sample_mark : tracking_info :=
  {| isNew := true; signature := "0f"; firstSeen := VString "2024-05-03";
     occurrenceCount := 1; lastSeenBefore := VNull; executionIds := [] |}.

Lemma marked_row_keeps_its_signature_witness :
  generateRowSignature plain_host
    (marked_object 9%nat
       {| currentRow := VObject 5 [("id", VNumber (Int 1))];
          _tracking := sample_mark |}) hash_all_fields
  = generateRowSignature plain_host (VObject 5 [("id", VNumber (Int 1))])
      hash_all_fields.
Proof.
  apply marked_row_keeps_its_signature. intros fields Hfields. discriminate.
Defined.

Lemma elem_of_occurrences previous e r :
  (e, r) ∈ occurrences previous ↔ e ∈ previous ∧ r ∈ rows_of_execution e.
Proof.
  unfold occurrences. rewrite list_elem_of_bind. split.
  - intros (e' & Hin & He'). apply list_elem_of_fmap in Hin as (r' & Heq & Hr').
    by simplify_eq.
  - intros [He Hr]. exists e. split; [|done].
    apply list_elem_of_fmap. by exists r.
Qed.

(** X16: a row that a tracked execution returned and stored with its
    [_tracking] annotation is recognised by a later pass under the hash and
    composite strategies: when the snapshot of an execution read by the pass
    holds the marked form of a row, a current row with the same fields is
    marked as seen before, with an occurrence count of at least 2. *)
Theorem stored_marked_rows_are_recognised
  (h : host) (table : list execution) (now : nat → string)
  (opts : tracking_options) (current : list value) (sql : string)
  (params : value) (marked : list marked_row) (stats : tracking_stats)
  (e : execution) (a b c c' : addr) (rows : list value) (ps : props)
  (t : tracking_info) (i : nat) :
  processResultTracking h table now opts current sql params
  = Some (marked, stats) →
  ignores_tracking opts →
  e ∈ getPreviousExecutionsWithResults table
        (generateQuerySignature h sql params) (Some 50%nat) →
  results e = VArray a rows →
  marked_object b {| currentRow := VObject c ps; _tracking := t |} ∈ rows →
  current !! i = Some (VObject c' ps) →
  ∃ m, marked !! i = Some m
       ∧ isNew (_tracking m) = false
       ∧ 2 ≤ occurrenceCount (_tracking m).
Proof.
  intros Hrun Hopts He Hresults Hrow Hcurrent.
  destruct (marks_follow_history h table now opts current sql params marked
              stats Hrun i _ Hcurrent)
    as (m & s & Hm & Hs & _ & Hnew & Hcount & _).
  exists m. split; [done|].
  match type of Hnew with
  | _ = bool_decide (?l = []) => set (seen := l) in *
  end.
  assert (seen ≠ []) as Hseen.
  { assert ((e, marked_object b {| currentRow := VObject c ps;
                                   _tracking := t |}) ∈ seen) as Hin.
    { apply list_elem_of_filter. split.
      - cbn [snd]. by rewrite (signature_of_marked_row h opts c c').
      - apply elem_of_occurrences. split; [done|].
        unfold rows_of_execution. by rewrite Hresults. }
    intros Hnil. rewrite Hnil in Hin. by apply elem_of_nil in Hin. }
  rewrite bool_decide_false in Hnew by done. split; [done|].
  rewrite Hcount. destruct seen; [done|]. simpl. lia.
Qed.

Definition tracked_run : execution :=
  {| Tracking.execution_id := VString "run-3";
     query_signature :=
       generateQuerySignature plain_host sample_sql sample_params;
     status := Completed;
     started_at := VString "2024-05-02T09:00:00.000Z";
     completed_at := VString "2024-05-02T09:00:04.000Z";
     results :=
       VArray 19
         [marked_object 20%nat
            {| currentRow := VObject 5 [("id", VNumber (Int 1))];
               _tracking := sample_mark |}] |}.

Definition next_pass : option (list marked_row * tracking_stats) :=
  processResultTracking plain_host [tracked_run] sample_now hash_all_fields
    [VObject 30 [("id", VNumber (Int 1))]] sample_sql sample_params.

Definition next_pass_outcome : option (list marked_row * tracking_stats) :=
  Eval vm_compute in next_pass.

Lemma next_pass_runs : next_pass = next_pass_outcome.
Proof. vm_compute. reflexivity. Qed.

Lemma stored_marked_rows_are_recognised_witness :
  ∃ marked stats,
    next_pass = Some (marked, stats)
    ∧ ∃ m, marked !! 0%nat = Some m
           ∧ isNew (_tracking m) = false
           ∧ 2 ≤ occurrenceCount (_tracking m).
Proof.
  rewrite next_pass_runs. unfold next_pass_outcome.
  eexists _, _. split; [reflexivity|].
  eapply (stored_marked_rows_are_recognised plain_host [tracked_run]
            sample_now hash_all_fields [VObject 30 [("id", VNumber (Int 1))]]
            sample_sql sample_params _ _ tracked_run 19%nat 20%nat 5%nat
            30%nat _ [("id", VNumber (Int 1))] sample_mark 0%nat).
  - exact next_pass_runs.
  - intros fields Hfields. discriminate.
  - unfold getPreviousExecutionsWithResults.
    rewrite filter_cons_True by (split_and!; reflexivity).
    apply list_elem_of_here.
  - reflexivity.
  - apply list_elem_of_here.
  - reflexivity.
Defined.

(* ================================================================== *)
(** * Tracking statistics                                              *)
(* ================================================================== *)

Section StatisticsFacts.

Context (h : host) (to_number : string → number).

Lemma count_executions_without_results st executions :
  Forall (λ e, results e = VNull) executions →
  foldl (count_execution h) (Some st) executions = Some st.
Proof.
  induction 1 as [|e executions He _ IH]; [done|].
  cbn [foldl]. unfold count_execution at 2. destruct st as [index trends].
  simpl. by rewrite He.
Qed.

Lemma index_set_length k v (m : row_index) :
  length (index_set k v m)
  = (length m + match assoc k m with Some _ => 0 | None => 1 end)%nat.
Proof.
  induction m as [|[k' v'] m IH]; simpl; [done|].
  case_bool_decide; simpl; [lia|]. rewrite IH. lia.
Qed.

(** What the loop over the rows of one execution keeps true. *)
Lemma count_rows_account e rows s0 s :
  foldl (count_row h e) (Some s0) rows = Some s →
  newRowsInExecution s + repeatingRowsInExecution s
  = newRowsInExecution s0 + repeatingRowsInExecution s0
    + Z.of_nat (length rows)
  ∧ newRowsInExecution s0 ≤ newRowsInExecution s
  ∧ repeatingRowsInExecution s0 ≤ repeatingRowsInExecution s
  ∧ Z.of_nat (length (globalRowIndex s))
    = Z.of_nat (length (globalRowIndex s0))
      + (newRowsInExecution s - newRowsInExecution s0).
Proof.
  revert s0. induction rows as [|row rows IH]; intros s0 Hfold.
  - simpl in Hfold. injection Hfold as <-. simpl. lia.
  - cbn [foldl] in Hfold.
    destruct (count_row h e (Some s0) row) as [s1|] eqn:Hstep.
    2:{ exfalso. clear -Hfold. induction rows as [|r rows IHr]; [done|].
        simpl in Hfold. by apply IHr. }
    apply IH in Hfold as (Hsum & Hnew & Hrep & Hlen).
    unfold count_row in Hstep. simpl in Hstep.
    destruct (generateRowSignature h row hash_strategy) as [sig|];
      simpl in Hstep; [|done].
    destruct (assoc sig (globalRowIndex s0)) as [existing|] eqn:Hexisting;
      injection Hstep as <-; simpl in *;
      rewrite index_set_length, Hexisting in Hlen; simpl length in *; lia.
Qed.

Definition trend_balanced (t : execution_trend) : Prop :=
  trend_newRows t + repeatingRows t = trend_totalRows t
  ∧ 0 ≤ trend_newRows t ∧ 0 ≤ repeatingRows t.

Definition new_rows_of (trends : list execution_trend) : Z :=
  foldr Z.add 0 (trend_newRows <$> trends).

Lemma count_executions_account executions index0 trends0 index trends :
  foldl (count_execution h) (Some (index0, trends0)) executions
  = Some (index, trends) →
  ∃ added,
    trends = trends0 ++ added
    ∧ Forall trend_balanced added
    ∧ Z.of_nat (length index)
      = Z.of_nat (length index0) + new_rows_of added
    ∧ length added
      = length (filter (λ e, isArray (results e) = true) executions).
Proof.
  revert index0 trends0. induction executions as [|e executions IH];
    intros index0 trends0 Hfold.
  - simpl in Hfold. injection Hfold as <- <-. exists [].
    rewrite app_nil_r. unfold new_rows_of. simpl.
    split_and!; try done. lia.
  - cbn [foldl] in Hfold.
    destruct (count_execution h (Some (index0, trends0)) e)
      as [[index1 trends1]|] eqn:Hstep.
    2:{ exfalso. clear -Hfold. induction executions as [|x xs IHx]; [done|].
        simpl in Hfold. by apply IHx. }
    apply IH in Hfold as (added & -> & Hall & Hlen & Hcount).
    unfold count_execution in Hstep. simpl in Hstep.
    destruct (results e) as [| | | | | |a rows|] eqn:Hresults;
      try (injection Hstep as <- <-; exists added;
           rewrite filter_cons_False by (rewrite Hresults; done);
           by split_and!).
    destruct (foldl (count_row h e) _ rows) as [s|] eqn:Hrows;
      simpl in Hstep; [|done].
    injection Hstep as <- <-.
    apply count_rows_account in Hrows as (Hsum & Hnew & Hrep & Hlen').
    simpl in *.
    eexists (_ :: added). rewrite <- app_assoc. split; [done|].
    rewrite filter_cons_True by (rewrite Hresults; done).
    split_and!.
    + constructor; [|done]. unfold trend_balanced. simpl. lia.
    + unfold new_rows_of in *. rewrite fmap_cons. simpl. lia.
    + simpl. by rewrite Hcount.
Qed.

Definition count_ge (a b : index_entry) : Prop :=
  entry_count b ≤ entry_count a.

Lemma insert_by_count_elem x l y :
  y ∈ insert_by_count x l → y = x ∨ y ∈ l.
Proof.
  induction l as [|z l IH]; simpl.
  - intros ->%list_elem_of_singleton. by left.
  - destruct (entry_count x <? entry_count z).
    + intros [->|Hy]%elem_of_cons; [right; left|].
      destruct (IH Hy) as [->|Hin]; [by left|right; by right].
    + intros [->|Hy]%elem_of_cons; [by left|by right].
Qed.

Lemma insert_by_count_sorted x l :
  StronglySorted count_ge l → StronglySorted count_ge (insert_by_count x l).
Proof.
  induction 1 as [|y l Hsorted IH Hall]; simpl.
  - repeat constructor.
  - destruct (Z.ltb_spec (entry_count x) (entry_count y)) as [Hlt|Hge].
    + constructor; [done|]. apply Forall_forall. intros z Hz.
      apply insert_by_count_elem in Hz as [->|Hz].
      * unfold count_ge. lia.
      * by apply (proj1 (Forall_forall _ _) Hall).
    + constructor; [by constructor|]. constructor; [done|].
      eapply Forall_impl; [exact Hall|]. unfold count_ge. intros z Hz. lia.
Qed.

Lemma sort_by_count_sorted l : StronglySorted count_ge (sort_by_count l).
Proof.
  induction l as [|x l IH]; simpl; [constructor|].
  by apply insert_by_count_sorted.
Qed.

Lemma StronglySorted_take {A} (R : relation A) n (l : list A) :
  StronglySorted R l → StronglySorted R (take n l).
Proof.
  intros Hl. revert n. induction Hl as [|x l Hsorted IH Hall]; intros [|n];
    simpl; try constructor; [apply IH|].
  apply Forall_take, Hall.
Qed.

Lemma StronglySorted_fmap {A B} (R : relation A) (S : relation B) (f : A → B)
  (l : list A) :
  (∀ x y, R x y → S (f x) (f y)) →
  StronglySorted R l → StronglySorted S (f <$> l).
Proof.
  intros Hf. induction 1 as [|x l _ IH Hall]; simpl; constructor; [done|].
  apply Forall_fmap. eapply Forall_impl; [exact Hall|]. intros y. apply Hf.
Qed.

End StatisticsFacts.

(** X17: [getTrackingStatistics] fetches the executions of the query without
    their results (the default of [getQueryExecutionsWithResults]), so it
    never sees a row: for a query with executions it reports the number of
    executions fetched (at most 20), no execution with results, no unique
    row, no trend, no repeating row, and [NaN] as the average of new rows,
    whatever the snapshots hold. *)
Theorem getTrackingStatistics_never_sees_results
  (h : host) (to_number : string → number)
  (table : list execution_record) (queryId : string)
  (includeSampleData : bool) :
  let mine := filter (λ r, of_query r = queryId) table in
  getTrackingStatistics h to_number table queryId includeSampleData
  = Some (if bool_decide (mine = []) then NoExecutions
          else Statistics
                 {| totalExecutions := Z.of_nat (length mine `min` 20);
                    executionsWithResults := 0;
                    totalUniqueRows := 0;
                    averageNewRowsPerExecution := NotANumber;
                    executionTrends := [];
                    topRepeatingRows := [] |}).
Proof.
  intros mine. unfold getTrackingStatistics, getQueryExecutionsWithResults.
  cbn [includeResults limit default]. fold mine.
  rewrite (bool_decide_false (20%nat = 0%nat)) by discriminate.
  match goal with
  | |- context [map ?f (take 20 mine)] => set (executions := map f (take 20 mine))
  end.
  assert (length executions = (length mine `min` 20)%nat) as Hlen.
  { subst executions. rewrite length_map, length_take. lia. }
  assert (Forall (λ e, results e = VNull) executions) as Hnull.
  { subst executions. apply Forall_forall. intros e He.
    apply list_elem_of_In, in_map_iff in He as (r & <- & _). done. }
  case_bool_decide as Hzero.
  - rewrite bool_decide_true; [done|].
    destruct mine; [done|]. rewrite Hlen in Hzero. simpl in Hzero. lia.
  - rewrite bool_decide_false.
    2:{ intros Hmine. rewrite Hlen, Hmine in Hzero. done. }
    unfold analyze_executions.
    rewrite count_executions_without_results by done. simpl.
    rewrite Hlen. do 3 f_equal.
    assert (filter (λ e, has_rows to_number e = true) executions = []) as ->;
      [|done].
    apply filter_none. eapply Forall_impl; [exact Hnull|].
    intros e He. unfold has_rows. by rewrite He.
Qed.

(** X18: the statistics computed over executions with snapshots account for
    every row: in each trend the new and the repeating rows add up to the
    rows of the snapshot, the number of unique rows is the sum of the new
    rows of all trends, there is one trend per execution whose results are
    an array, and the top repeating rows are at most 10, in descending
    order of occurrence count. *)
Theorem tracking_statistics_account_for_every_row
  (h : host) (to_number : string → number) (includeSampleData : bool)
  (executions : list execution) (stats : statistics) :
  analyze_executions h to_number includeSampleData executions = Some stats →
  Forall trend_balanced (executionTrends stats)
  ∧ totalUniqueRows stats = new_rows_of (executionTrends stats)
  ∧ length (executionTrends stats)
    = length (filter (λ e, isArray (results e) = true) executions)
  ∧ (length (topRepeatingRows stats) ≤ 10)%nat
  ∧ StronglySorted
      (λ a b, row_occurrenceCount b ≤ row_occurrenceCount a)
      (topRepeatingRows stats).
Proof.
  unfold analyze_executions. intros Hrun.
  destruct (foldl (count_execution h) (Some ([], [])) executions)
    as [[index trends]|] eqn:Hfold; simpl in Hrun; [|done].
  injection Hrun as <-. cbn [executionTrends totalUniqueRows topRepeatingRows].
  apply count_executions_account in Hfold
    as (added & -> & Hall & Hlen & Hcount).
  simpl in *. split_and!; try done.
  - rewrite length_map, length_take. lia.
  - apply (StronglySorted_fmap count_ge); [done|].
    apply StronglySorted_take, sort_by_count_sorted.
Qed.

Definition no_strings : string → number := λ _, NaN.

Definition sample_statistics : option statistics :=
  analyze_executions plain_host no_strings false
    (tracked_run :: sample_history).

Definition sample_statistics_outcome : option statistics :=
  Eval vm_compute in sample_statistics.

Lemma sample_statistics_run : sample_statistics = sample_statistics_outcome.
Proof. vm_compute. reflexivity. Qed.

Lemma tracking_statistics_account_for_every_row_witness :
  ∃ stats,
    sample_statistics = Some stats
    ∧ map (λ t, (trend_newRows t, repeatingRows t)) (executionTrends stats)
      = [(1, 0); (0, 2)]
    ∧ Forall trend_balanced (executionTrends stats)
    ∧ totalUniqueRows stats = new_rows_of (executionTrends stats)
    ∧ length (executionTrends stats)
      = length (filter (λ e, isArray (results e) = true)
                  (tracked_run :: sample_history))
    ∧ (length (topRepeatingRows stats) ≤ 10)%nat
    ∧ StronglySorted
        (λ a b, row_occurrenceCount b ≤ row_occurrenceCount a)
        (topRepeatingRows stats).
Proof.
  rewrite sample_statistics_run. unfold sample_statistics_outcome.
  eexists. split; [reflexivity|]. split; [reflexivity|].
  apply (tracking_statistics_account_for_every_row plain_host no_strings
           false (tracked_run :: sample_history)).
  exact sample_statistics_run.
Defined.

(* ================================================================== *)
(** * The result store over time                                       *)
(* ================================================================== *)

Import StoreMaintenance.










Lemma assoc_fold_without (ids : list string) (c : cache) k :
  assoc k (foldl (λ c the_id, cache_without the_id c) c ids)
  = if bool_decide (k ∈ ids) then None else assoc k c.
Proof.
  revert c. induction ids as [|x ids IH]; intros c; cbn [foldl].
  - by rewrite bool_decide_false by apply not_elem_of_nil.
  - rewrite IH, assoc_cache_without.
    destruct (decide (k ∈ ids)) as [Hin|Hout].
    + by rewrite !bool_decide_true by (done || by right).
    + rewrite (bool_decide_false (k ∈ ids)) by done.
      destruct (decide (x = k)) as [->|Hne].
      * by rewrite !bool_decide_true by (done || by left).
      * rewrite !bool_decide_false; [done| |done].
        intros [?|?]%elem_of_cons; congruence.
Qed.



Lemma expired_ids now_ms (t : gmap string db_row) k :
  k ∈ (map_to_list (filter (λ kv, expired now_ms kv.2 = true) t)).*1
  ↔ ∃ r, t !! k = Some r ∧ expired now_ms r = true.
Proof.
  rewrite list_elem_of_fmap. split.
  - intros ([k' r] & -> & Hin). apply elem_of_map_to_list in Hin.
    apply map_lookup_filter_Some in Hin as [Hr Hexp]. by exists r.
  - intros (r & Hr & Hexp). exists (k, r). split; [done|].
    apply elem_of_map_to_list. by apply map_lookup_filter_Some.
Qed.

Section StoreInvariant.

Context (h : host) (p : platform) (config : store_config).








End StoreInvariant.



(** X20: once a result is deleted, fetching its id fails, from the cache as
    from the table, and fetching any other id returns what it returned
    before. *)
Theorem deleted_result_is_gone_and_no_other
  (p : platform) (config : store_config) (st : store_state)
  (the_id : string) :
  getResultById p config (deleteResult st the_id).1 the_id = None
  ∧ ∀ other, other ≠ the_id →
      snd <$> getResultById p config (deleteResult st the_id).1 other
      = snd <$> getResultById p config st other.
Proof.
  split.
  - unfold getResultById, cache_get, deleteResult. simpl.
    rewrite assoc_cache_without, bool_decide_true by done.
    by rewrite lookup_delete_eq.
  - intros other Hne. unfold getResultById, cache_get, deleteResult. simpl.
    rewrite assoc_cache_without, bool_decide_false by done.
    destruct (assoc other (resultsCache st)) as [cached|]; [done|].
    rewrite lookup_delete_ne by done.
    destruct (table st !! other) as [row|]; [|done]. simpl.
    by destruct (parse_data p row).
Qed.

Section StoreWrites.

Context (h : host) (p : platform) (config : store_config).


(** What a successful [storeResult] leaves in the table. *)
Lemma storeResult_writes uuid now now_ms st rd st' rc :
  storeResult h p config uuid now now_ms st rd = Some (st', rc) →
  ∃ r,
    table st !! stored_id rc = None
    ∧ table st' = <[stored_id rc := r]> (table st)
    ∧ stored_id rc = default uuid (id rd)
    ∧ row_id r = stored_id rc
    ∧ query_id r = queryId rd
    ∧ ResultStore.execution_id r = executionId rd
    ∧ result_type r = default "single" (resultType rd)
    ∧ ResultStore.row_count r = rowCount_of (input_data rd)
    ∧ ttl r = stored_ttl rc.
Proof.
  unfold storeResult.
  destruct (storage_format h p config (input_data rd)) as [[[? ?] ?] ?].
  intros Hstore.
  apply bind_Some in Hstore as (stored & _ & Hstore).
  apply bind_Some in Hstore as (meta & _ & Hstore).
  apply bind_Some in Hstore as (t' & Hinsert & Hstore).
  injection Hstore as <- <-. simpl. unfold insert_row in Hinsert.
  simpl in Hinsert.
  destruct (table st !! default uuid (id rd)) eqn:Hfree; [done|].
  injection Hinsert as <-. eexists. by split_and!.
Qed.


End StoreWrites.

(** X21: [cleanupExpiredResults] removes exactly the rows whose TTL is set
    and earlier than the current time, drops exactly their ids from the
    cache, and returns their number; rows without a TTL are never removed. *)
Theorem cleanup_removes_exactly_the_expired_rows
  (now_ms : Z) (st : store_state) :
  let st' := (cleanupExpiredResults now_ms st).1 in
  (∀ k, table st' !! k
        = r ← table st !! k; if expired now_ms r then None else Some r)
  ∧ (∀ k r, table st !! k = Some r → ttl r = None → table st' !! k = Some r)
  ∧ (∀ k, assoc k (resultsCache st')
          = match table st !! k with
            | Some r =>
                if expired now_ms r then None else assoc k (resultsCache st)
            | None => assoc k (resultsCache st)
            end)
  ∧ (cleanupExpiredResults now_ms st).2
    = Z.of_nat (size (filter (λ kv, expired now_ms kv.2 = true) (table st))).
Proof.
  cbv zeta. unfold cleanupExpiredResults. simpl.
  assert (∀ k, filter (λ kv, expired now_ms kv.2 = false) (table st) !! k
               = r ← table st !! k; if expired now_ms r then None else Some r)
    as Htable.
  { intros k. destruct (table st !! k) as [r|] eqn:Hr; simpl.
    - destruct (expired now_ms r) eqn:Hexp.
      + apply map_lookup_filter_None. right. intros r' Hr'. simpl. congruence.
      + by apply map_lookup_filter_Some.
    - apply map_lookup_filter_None. by left. }
  split_and!.
  - exact Htable.
  - intros k r Hr Httl. rewrite Htable, Hr. simpl.
    unfold expired. by rewrite Httl.
  - intros k. rewrite assoc_fold_without.
    destruct (table st !! k) as [r|] eqn:Hr.
    + destruct (expired now_ms r) eqn:Hexp.
      * rewrite bool_decide_true; [done|]. apply expired_ids. by exists r.
      * rewrite bool_decide_false; [done|].
        intros (r' & Hr' & Hexp')%expired_ids. congruence.
    + rewrite bool_decide_false; [done|].
      intros (r' & Hr' & _)%expired_ids. congruence.
  - by rewrite length_fmap, length_map_to_list.
Qed.

(** X22: a stored result outlives a cleanup exactly when the TTL that
    [storeResult] returned for it is null or not earlier than the time of the
    cleanup; in that case its cache entry is kept too. *)
Theorem stored_result_survives_cleanup_until_its_ttl
  (h : host) (p : platform) (config : store_config) (uuid now : string)
  (now_ms : Z) (st : store_state) (rd : result_input) (st1 : store_state)
  (rc : receipt) (later_ms : Z) :
  storeResult h p config uuid now now_ms st rd = Some (st1, rc) →
  let st2 := (cleanupExpiredResults later_ms st1).1 in
  let alive :=
    match stored_ttl rc with
    | Some limit => later_ms ≤ limit
    | None => True
    end in
  (is_Some (table st2 !! stored_id rc) ↔ alive)
  ∧ (alive →
     table st2 !! stored_id rc = table st1 !! stored_id rc
     ∧ assoc (stored_id rc) (resultsCache st2)
       = assoc (stored_id rc) (resultsCache st1)).
Proof.
  intros Hstore st2 alive.
  apply storeResult_writes in Hstore
    as (r & _ & Htable & _ & _ & _ & _ & _ & _ & Httl).
  assert (table st1 !! stored_id rc = Some r) as Hr
    by (rewrite Htable; apply lookup_insert_eq).
  assert (expired later_ms r = false ↔ alive) as Halive.
  { subst alive. unfold expired. rewrite Httl.
    destruct (stored_ttl rc) as [limit|]; [|done].
    rewrite Z.ltb_ge. done. }
  subst st2. unfold cleanupExpiredResults. cbn [fst table resultsCache].
  rewrite assoc_fold_without.
  destruct (expired later_ms r) eqn:Hexp.
  - assert (filter (λ kv, expired later_ms kv.2 = false) (table st1)
              !! stored_id rc = None) as ->.
    { apply map_lookup_filter_None. right. intros r' Hr'. simpl. congruence. }
    split.
    + split; [by intros [? ?]|]. intros Hyes. apply Halive in Hyes. done.
    + intros Hyes. apply Halive in Hyes. done.
  - assert (filter (λ kv, expired later_ms kv.2 = false) (table st1)
              !! stored_id rc = Some r) as ->
      by by apply map_lookup_filter_Some.
    split.
    + split; [intros _; by apply Halive|by eexists].
    + intros _. split; [done|]. rewrite bool_decide_false; [done|].
      intros (r' & Hr' & Hexp')%expired_ids. congruence.
Qed.

Lemma stored_result_survives_cleanup_witness :
  ∃ st1 rc,
    sample_store = Some (st1, rc)
    ∧ stored_ttl rc = Some 1714723260000
    ∧ let st2 := (cleanupExpiredResults 1714723260000 st1).1 in
      let alive :=
        match stored_ttl rc with
        | Some limit => 1714723260000 ≤ limit
        | None => True
        end in
      (is_Some (table st2 !! stored_id rc) ↔ alive)
      ∧ (alive →
         table st2 !! stored_id rc = table st1 !! stored_id rc
         ∧ assoc (stored_id rc) (resultsCache st2)
           = assoc (stored_id rc) (resultsCache st1)).
Proof.
  eexists _, _. split; [vm_compute; reflexivity|].
  split; [reflexivity|].
  apply (stored_result_survives_cleanup_until_its_ttl plain_host
           sample_platform small_threshold "generated-id"
           "2024-05-03T08:00:00.000Z" 1714723200000 empty_store sample_input).
  vm_compute. reflexivity.
Defined.





Lemma summaries_of_sources (f : nat → addr) (sources : list result_source) :
  Forall2 (λ s v, ∃ c, v = source_summary c s) sources
    (imap (λ i s, source_summary (f i) s) sources).
Proof.
  revert f. induction sources as [|s sources IH]; intros f; simpl.
  - constructor.
  - constructor; [by eexists|]. apply (IH (f ∘ S)).
Qed.

(** X25: [storeMultiQueryResult] refuses an input without a [results] array;
    when it succeeds, the row is stored under the given or generated id with
    result type [multi] unless another is given, with no query id and no
    execution id, with the row count of the combined data, and the metadata
    kept in the cache carry, under [resultSources], one summary per source,
    in order. *)
Theorem multi_query_result_is_stored_with_its_sources
  (h : host) (p : platform) (config : store_config) (uuid now : string)
  (now_ms : Z) (next : addr) (st : store_state) (input : multi_input) :
  (multi_results input = None →
   storeMultiQueryResult h p config uuid now now_ms next st input = None)
  ∧ ∀ st' rc,
      storeMultiQueryResult h p config uuid now now_ms next st input
      = Some (st', rc) →
      ∃ sources r,
        multi_results input = Some sources
        ∧ table st' !! stored_id rc = Some r
        ∧ stored_id rc = string_or (multi_id input) uuid
        ∧ result_type r = string_or (multi_resultType input) "multi"
        ∧ query_id r = VUndefined
        ∧ ResultStore.execution_id r = VUndefined
        ∧ ResultStore.row_count r = rowCount_of (multi_data input)
        ∧ (resultsCacheSize config ≠ 0%nat →
           ∃ entry a summaries,
             assoc (stored_id rc) (resultsCache st') = Some entry
             ∧ Get (result_metadata entry) "resultSources"
               = Some (VArray a summaries)
             ∧ Forall2 (λ s v, ∃ c, v = source_summary c s)
                 sources summaries).
Proof.
  unfold storeMultiQueryResult. split; [by intros ->|].
  intros st' rc Hstore.
  destruct (multi_results input) as [sources|]; [|done]. simpl in Hstore.
  exists sources.
  pose proof (storeResult_writes _ _ _ _ _ _ _ _ _ _ Hstore)
    as (r & _ & Htable & Hid & _ & Hquery & Hexecution & Htype & Hcount & _).
  pose proof (storeResult_row _ _ _ _ _ _ _ _ _ _ Hstore)
    as (_ & _ & _ & _ & _ & _ & _ & _ & _ & Hcache).
  exists r. split_and!; try done.
  - rewrite Htable. apply lookup_insert_eq.
  - intros Hroom. rewrite Hcache, assoc_cache_set, bool_decide_false by done.
    eexists _, _, _. split; [done|]. split.
    + cbn [result_metadata metadata combinedData combined_metadata Get].
      by rewrite lookup_set_prop_eq.
    + apply summaries_of_sources.
Qed.

(* ================================================================== *)
(** * Joining three or more queries                                    *)
(* ================================================================== *)

Import MultiJoin.

Section MultiJoinFacts.

Context (fuse : fuse_engine) (h : host).
Context (options_fuzzy : fuzzy_options → fuzzy_options).
Context (combine : value → value → value).






End MultiJoinFacts.

Lemma tail_length {A} (l : list A) : length (tail l) = (length l - 1)%nat.
Proof. destruct l; simpl; lia. Qed.



Lemma exact_inner_join_without_rows h conds transform next rows :
  _performExactJoin h conds JoinInner transform next rows [] = []
  ∧ _performExactJoin h conds JoinInner transform next [] rows = [].
Proof.
  split; [|done].
  destruct (exact_join_shape h conds transform JoinInner next rows [])
    as (groups & tail & -> & Hgroups & Htail).
  simpl in Htail. apply Forall2_nil_inv_l in Htail as ->.
  rewrite app_nil_r.
  induction Hgroups as [|l g ls groups Hcontrib _ IH]; [done|].
  simpl. rewrite IH, app_nil_r. unfold contribution in Hcontrib.
  simpl in Hcontrib. exact Hcontrib.
Qed.

Lemma validateDatasets_rows i datasets rows :
  _validateDatasets i datasets = inr rows →
  Forall2 (λ d r, ∃ a, d = VArray a r) datasets rows.
Proof.
  revert i rows. induction datasets as [|d datasets IH]; intros i rows; simpl.
  - intros [= <-]. constructor.
  - destruct d; try done.
    destruct (_validateDatasets (S i) datasets) as [bad|ok] eqn:Hrest; [done|].
    intros [= <-]. constructor; [by eexists|by eapply IH].
Qed.

Lemma elem_of_zip_l {A B} (xs : list A) (ys : list B) x :
  length xs = length ys → x ∈ xs → ∃ y, (x, y) ∈ zip xs ys.
Proof.
  revert ys. induction xs as [|x' xs IH]; intros [|y ys] Hlen Hx; simpl in *;
    try done.
  - by apply elem_of_nil in Hx.
  - apply elem_of_cons in Hx as [->|Hx].
    + exists y. left.
    + destruct (IH ys ltac:(lia) Hx) as [y' Hy']. exists y'. by right.
Qed.

Section MultiJoinEmpty.

Context (fuse : fuse_engine) (h : host).
Context (options_fuzzy : fuzzy_options → fuzzy_options).
Context (combine : value → value → value).

(** A join specification for an exact inner join. *)
Definition exact_inner (s : join_spec) : Prop :=
  default JoinInner (spec_type s) = JoinInner
  ∧ enabled (spec_fuzzyOptions s (options_fuzzy defaultFuzzyOptions)) = false.

Lemma join_steps_empty i current meta next rest out :
  join_steps fuse h options_fuzzy combine i current meta next rest = inr out →
  Forall (λ x, exact_inner x.2) rest →
  current = [] ∨ (∃ x, x ∈ rest ∧ x.1.1 = []) →
  out.1.1 = [].
Proof.
  revert i current meta next.
  induction rest as [|[[d m] s] rest IH]; intros i current meta next; simpl.
  - intros [= <-] _ [->|(x & Hx & _)]; [done|by apply elem_of_nil in Hx].
  - destruct (spec_conditions s) as [conditions|]; [|done].
    intros Hrun [[Htype Hexact] Hrest]%Forall_cons Hempty. simpl in *.
    unfold _performJoin in Hrun. case_bool_decide; [done|].
    rewrite Hexact, Htype in Hrun.
    eapply IH; [exact Hrun|done|].
    destruct Hempty as [->|(x & Hx & Hnil)].
    + left. exact (proj2 (exact_inner_join_without_rows h conditions
                            (spec_transform s) next d)).
    + apply elem_of_cons in Hx as [->|Hx].
      * left. simpl in Hnil. subst d.
        exact (proj1 (exact_inner_join_without_rows h conditions
                        (spec_transform s) next current)).
      * right. by exists x.
Qed.

End MultiJoinEmpty.

(** X27: when every join specification asks for an exact inner join and one
    of the datasets has no rows, a successful [joinMultipleQueries] returns
    no rows, wherever the empty dataset stands in the chain. *)
Theorem multi_inner_join_with_an_empty_dataset_is_empty
  (fuse : fuse_engine) (h : host)
  (options_fuzzy : fuzzy_options → fuzzy_options)
  (combine : value → value → value)
  (queryResults : list query_result) (joinSpecs : list join_spec)
  (next next' : addr) (result : multi_join) :
  joinMultipleQueries fuse h options_fuzzy combine queryResults joinSpecs next
  = inr (result, next') →
  Forall (exact_inner options_fuzzy) joinSpecs →
  (∃ r a, r ∈ queryResults ∧ query_data r = VArray a []) →
  joined result = [] ∧ finalRowCount result = 0.
Proof.
  unfold joinMultipleQueries. intros Hrun Hspecs (r & a & Hr & Hdata).
  case_bool_decide as Hfew; [done|].
  case_bool_decide as Hcount; [done|].
  destruct (first_failed 0 queryResults); [done|].
  destruct (_validateDatasets 0 (map query_data queryResults))
    as [bad|datasets] eqn:Hvalid; [done|].
  pose proof (validateDatasets_rows _ _ _ Hvalid) as Hrows.
  assert (length datasets = length queryResults) as Hlen.
  { apply Forall2_length in Hrows. by rewrite length_map in Hrows. }
  assert ([] ∈ datasets) as Hempty.
  { assert (VArray a [] ∈ map query_data queryResults) as Hin.
    { rewrite <- Hdata. apply list_elem_of_fmap. by exists r. }
    apply list_elem_of_lookup in Hin as [j Hj].
    destruct (Forall2_lookup_l _ _ _ _ _ Hrows Hj) as (rows & Hrows_j & a' & Heq).
    injection Heq as _ <-. by apply list_elem_of_lookup_2 in Hrows_j. }
  destruct (join_steps _ _ _ _ _ _ _ _ _) as [e|[[current meta] next1]]
    eqn:Hsteps; [done|].
  injection Hrun as <- _. simpl.
  assert (current = []) as ->; [|done].
  change current with ((current, meta, next1).1.1).
  eapply (join_steps_empty fuse h options_fuzzy combine); [exact Hsteps| |].
  - apply Forall_forall. intros x Hx.
    assert (x.2 ∈ joinSpecs) as Hspec.
    { destruct x as [dm s]. by apply elem_of_zip_r in Hx. }
    by apply (proj1 (Forall_forall _ _) Hspecs).
  - destruct datasets as [|first others]; [by apply elem_of_nil in Hempty|].
    apply elem_of_cons in Hempty as [<-|Hothers]; [by left|right].
    simpl. simpl in Hlen.
    assert (length others = length (tail (map query_metadata queryResults)))
      as Hmetas by (rewrite tail_length, length_map; lia).
    destruct (elem_of_zip_l _ _ [] Hmetas Hothers) as [m Hm].
    assert (length (zip others (tail (map query_metadata queryResults)))
            = length joinSpecs) as Hzip by (rewrite length_zip; lia).
    destruct (elem_of_zip_l _ _ ([], m) Hzip Hm) as [s Hs].
    by exists ([], m, s).
Qed.

Definition sample_spec : join_spec :=
  {| spec_conditions := Some [id_condition]; spec_type := None;
     spec_transform := None; spec_fuzzyOptions := λ o, o |}.

Definition order_row (a : addr) : value :=
  VObject a [("id", VNumber (Num 1))].

Definition sample_queries : list query_result :=
  [ {| query_success := true; query_data := VArray 1%nat [order_row 2%nat];
       query_metadata := VUndefined |};
    {| query_success := true; query_data := VArray 3%nat [];
       query_metadata := VUndefined |};
    {| query_success := true; query_data := VArray 4%nat [order_row 5%nat];
       query_metadata := VUndefined |} ].

Definition sample_chain :=
  joinMultipleQueries no_fuse plain_host (λ o, o) (λ m _, m)
    sample_queries [sample_spec; sample_spec] 10%nat.

Lemma multi_inner_join_with_an_empty_dataset_witness :
  ∃ result next',
    sample_chain = inr (result, next')
    ∧ joined result = [] ∧ finalRowCount result = 0.
Proof.
  destruct sample_chain as [e|[result next']] eqn:Hrun;
    [vm_compute in Hrun; discriminate|].
  exists result, next'. split; [done|].
  apply (multi_inner_join_with_an_empty_dataset_is_empty no_fuse plain_host
           (λ o, o) (λ m _, m) sample_queries [sample_spec; sample_spec]
           10%nat next' result Hrun).
  - repeat constructor.
  - exists {| query_success := true; query_data := VArray 3%nat [];
              query_metadata := VUndefined |}, 3%nat.
    split; [|done]. right. left.
Defined.
